(** * Gas-station simulation: pumps behind a semaphore, one cashier behind a lock

    Shallow embedding of [Project.py] (the simulation) and of the start
    control of [gui.py].  Every thread of the program is a small program
    counter machine whose labels follow the source lines; the whole
    program is the interleaving of the supervisor thread
    ([StationManager.run]), of the vehicle threads ([Vehicle.run]) and of
    the external [stop()] request.

    Conventions.
    - Python [str] values are kept as their UTF-8 bytes.  The only test the
      program makes on them is [endswith("Wolny")] with an ASCII suffix,
      which reads the same on bytes and on code points.
    - The three synchronisation objects are part of the state: the value
      of [PUMPS_SEMAPHORE], and one bit for each of [CASHIER_LOCK] and
      [PRINT_LOCK].  A thread that cannot acquire one of them has no step.
    - [time.sleep] is a step without effect; the random durations are not
      represented. *)

From Stdlib Require Import ZArith String Ascii Decimal DecimalString Lia.
From stdpp Require Import base tactics option list.

Local Open Scope Z_scope.

(** ** Strings *)

(** [s.endswith(suffix)]: some tail of [s] is [suffix]. *)
Fixpoint endswith (s suffix : string) : bool :=
  if String.eqb s suffix then true
  else match s with
       | EmptyString => false
       | String _ s' => endswith s' suffix
       end.

(** The last character, to tell status lines apart. *)
Fixpoint last_char (s : string) : option ascii :=
  match s with
  | EmptyString => None
  | String c EmptyString => Some c
  | String _ s' => last_char s'
  end.

Definition is_digit (c : ascii) : bool :=
  match c with
  | "0" | "1" | "2" | "3" | "4" | "5" | "6" | "7" | "8" | "9" => true
  | _ => false
  end%char.

(** [str(n)] for a Python int. *)
Definition str (n : Z) : string := NilZero.string_of_int (Z.to_int n).

(** Line 16: [f"D{i+1}: Wolny"]. *)
Definition status_free (n : Z) : string :=
  ("D" ++ str n ++ ": Wolny")%string.

(** Line 74: [f"D{i+1}: Zajęty przez V{self.id}"]. *)
Definition status_taken (n vehicle_id : Z) : string :=
  ("D" ++ str n ++ ": Zajęty przez V" ++ str vehicle_id)%string.

(** Line 89: [f"D{pump_id}: Wolny (zwolniony przez V{self.id})"]. *)
Definition status_released (n vehicle_id : Z) : string :=
  ("D" ++ str n ++ ": Wolny (zwolniony przez V" ++ str vehicle_id ++ ")")%string.

(** The test of line 73. *)
Definition is_free (entry : string) : bool := endswith entry "Wolny"%string.

(** ** Shared resources (module globals, lines 8-16) *)

(** What is printed; the wording of the lines is left out, the data they
    carry is kept. *)
Inductive event : Type :=
| EStart
| EArrived (vehicle_id : Z)
| ETanking (vehicle_id pump : Z)
| ETanked (vehicle_id : Z)
| EWaitCashier (vehicle_id : Z)
| EPaying (vehicle_id : Z)
| EPaid (vehicle_id : Z)
| ELeft (vehicle_id : Z)
| ENoPump (vehicle_id : Z)
| EStatus (cashier_locked : bool) (pumps : list string)
| EStopping
| EFinished.

Record Globals : Type := mkGlobals {
  NUM_PUMPS : nat;
  PUMPS_SEMAPHORE : nat;        (* value of the counting semaphore *)
  CASHIER_LOCK : bool;          (* true when locked *)
  CASHIER_BUSY : bool;
  VEHICLE_COUNT : Z;
  PRINT_LOCK : bool;            (* true when locked *)
  pump_status : list string;
  console : list event
}.

Definition set_semaphore (n : nat) (g : Globals) : Globals :=
  mkGlobals (NUM_PUMPS g) n (CASHIER_LOCK g) (CASHIER_BUSY g)
            (VEHICLE_COUNT g) (PRINT_LOCK g) (pump_status g) (console g).

Definition set_cashier_lock (b : bool) (g : Globals) : Globals :=
  mkGlobals (NUM_PUMPS g) (PUMPS_SEMAPHORE g) b (CASHIER_BUSY g)
            (VEHICLE_COUNT g) (PRINT_LOCK g) (pump_status g) (console g).

Definition set_cashier_busy (b : bool) (g : Globals) : Globals :=
  mkGlobals (NUM_PUMPS g) (PUMPS_SEMAPHORE g) (CASHIER_LOCK g) b
            (VEHICLE_COUNT g) (PRINT_LOCK g) (pump_status g) (console g).

Definition set_vehicle_count (n : Z) (g : Globals) : Globals :=
  mkGlobals (NUM_PUMPS g) (PUMPS_SEMAPHORE g) (CASHIER_LOCK g) (CASHIER_BUSY g)
            n (PRINT_LOCK g) (pump_status g) (console g).

Definition set_print_lock (b : bool) (g : Globals) : Globals :=
  mkGlobals (NUM_PUMPS g) (PUMPS_SEMAPHORE g) (CASHIER_LOCK g) (CASHIER_BUSY g)
            (VEHICLE_COUNT g) b (pump_status g) (console g).

Definition set_pump_status (l : list string) (g : Globals) : Globals :=
  mkGlobals (NUM_PUMPS g) (PUMPS_SEMAPHORE g) (CASHIER_LOCK g) (CASHIER_BUSY g)
            (VEHICLE_COUNT g) (PRINT_LOCK g) l (console g).

(** The [print] call of line 21. *)
Definition print (e : event) (g : Globals) : Globals :=
  mkGlobals (NUM_PUMPS g) (PUMPS_SEMAPHORE g) (CASHIER_LOCK g) (CASHIER_BUSY g)
            (VEHICLE_COUNT g) (PRINT_LOCK g) (pump_status g) (console g ++ [e]).

(** Lines 8-16 with [NUM_PUMPS = n]; [gui.py] lines 115-118 set the same
    values again for its own [n]. *)
Definition module_globals (n : nat) : Globals :=
  {| NUM_PUMPS := n;
     PUMPS_SEMAPHORE := n;
     CASHIER_LOCK := false;
     CASHIER_BUSY := false;
     VEHICLE_COUNT := 0;
     PRINT_LOCK := false;
     pump_status := (fun i : nat => status_free (Z.of_nat i + 1)) <$> seq 0 n;
     console := [] |}.

(** ** Pumps and vehicles *)

Record Pump : Type := mkPump { Pump_id : Z }.

(** [[Pump(i + 1) for i in range(n)]] (line 151, [gui.py] line 123). *)
Definition all_pumps (n : nat) : list Pump :=
  (fun i : nat => mkPump (Z.of_nat i + 1)) <$> seq 0 n.

(** Program points of [Vehicle.run], with [Pump.tank] and
    [Cashier.process_payment] inlined at their call sites. *)
Inductive vehicle_at : Type :=
| VArrive                        (* 64 *)
| VAcquire                       (* 67, 70 *)
| VScan                          (* 71-73: loop head, with, test *)
| VClaim                         (* 74-76, the test of line 73 has passed *)
| VSelect                        (* 83-84 *)
| VTankStart (selected_pump : Pump)  (* 85 -> 32 *)
| VTankSleep                     (* 33-34 *)
| VTankEnd                       (* 35 *)
| VFreePump                      (* 88-89 *)
| VReleaseOk                     (* 91 *)
| VPayWait                       (* 94 -> 43 *)
| VPayLock                       (* 45, entering the with block *)
| VPayBusy                       (* 46 *)
| VPayStart                      (* 47 *)
| VPaySleep                      (* 49-50 *)
| VPayEnd                        (* 52 *)
| VPayIdle                       (* 53 *)
| VPayUnlock                     (* leaving the with block of line 45 *)
| VLeave                         (* 95 *)
| VNoPump                        (* 98 *)
| VReleaseErr                    (* 99 *)
| VReturned                      (* run() has returned *)
| VRaised.                       (* run() was left by an uncaught exception *)

Record Vehicle : Type := mkVehicle {
  veh_id : Z;                    (* self.id *)
  veh_pumps : list Pump;         (* self.pumps *)
  veh_at : vehicle_at;
  veh_locked : bool;             (* inside the [with PRINT_LOCK:] of [veh_at] *)
  veh_i : nat;                   (* loop variable of line 71 *)
  veh_pump_id : Z                (* local of lines 70, 75 *)
}.

(** [Vehicle(id, pumps, cashier)] followed by [start()]. *)
Definition Vehicle_init (id : Z) (pumps : list Pump) : Vehicle :=
  mkVehicle id pumps VArrive false 0 (-1).

Definition goto (l : vehicle_at) (v : Vehicle) : Vehicle :=
  mkVehicle (veh_id v) (veh_pumps v) l (veh_locked v) (veh_i v) (veh_pump_id v).

Definition set_locked (b : bool) (v : Vehicle) : Vehicle :=
  mkVehicle (veh_id v) (veh_pumps v) (veh_at v) b (veh_i v) (veh_pump_id v).

(** Entering [with PRINT_LOCK:]: the thread waits while the lock is taken. *)
Definition enter_PRINT_LOCK (v : Vehicle) (g : Globals) : option (Vehicle * Globals) :=
  if PRINT_LOCK g then None
  else Some (set_locked true v, set_print_lock true g).

(** Leaving [with PRINT_LOCK:], by the end of the block, by [break] or by
    an exception. *)
Definition leave_PRINT_LOCK (v : Vehicle) (g : Globals) : option (Vehicle * Globals) :=
  Some (set_locked false v, set_print_lock false g).

(** [safe_print(...)] (lines 18-21) at a program point of a vehicle: a
    first step takes the lock, a second one prints and gives it back. *)
Definition Vehicle_safe_print (e : event) (next : vehicle_at)
           (v : Vehicle) (g : Globals) : option (Vehicle * Globals) :=
  if veh_locked v then leave_PRINT_LOCK (goto next v) (print e g)
  else enter_PRINT_LOCK v g.

(** [l[k]] addressing of a Python list: negative positions count from the
    end, anything else out of range raises. *)
Definition py_index {A} (l : list A) (k : Z) : option nat :=
  let n := Z.of_nat (length l) in
  if (0 <=? k) && (k <? n) then Some (Z.to_nat k)
  else if (- n <=? k) && (k <? 0) then Some (Z.to_nat (n + k))
  else None.

(** Line 83: [next((p for p in self.pumps if p.id == pump_id), None)]. *)
Definition select_pump (pumps : list Pump) (pump_id : Z) : option Pump :=
  List.find (fun p => Pump_id p =? pump_id) pumps.

(** One step of a vehicle thread.  [None]: the thread cannot move (it is
    blocked on the semaphore or on a lock, or it has ended). *)
Definition Vehicle_run (v : Vehicle) (g : Globals) : option (Vehicle * Globals) :=
  match veh_at v with
  | VArrive => Vehicle_safe_print (EArrived (veh_id v)) VAcquire v g
  | VAcquire =>
      match PUMPS_SEMAPHORE g with
      | O => None
      | S n => Some (mkVehicle (veh_id v) (veh_pumps v) VScan (veh_locked v) 0 (-1),
                     set_semaphore n g)
      end
  | VScan =>
      if decide (veh_i v < NUM_PUMPS g)%nat then
        if veh_locked v then
          match pump_status g !! veh_i v with
          | None => leave_PRINT_LOCK (goto VRaised v) g        (* IndexError *)
          | Some entry =>
              if is_free entry then Some (goto VClaim v, g)
              else leave_PRINT_LOCK
                     (mkVehicle (veh_id v) (veh_pumps v) VScan (veh_locked v)
                                (S (veh_i v)) (veh_pump_id v)) g
          end
        else enter_PRINT_LOCK v g
      else Some (goto VSelect v, g)
  | VClaim =>
      match pump_status g !! veh_i v with
      | None => leave_PRINT_LOCK (goto VRaised v) g            (* IndexError *)
      | Some _ =>
          leave_PRINT_LOCK
            (mkVehicle (veh_id v) (veh_pumps v) VSelect (veh_locked v) (veh_i v)
                       (Z.of_nat (veh_i v) + 1))
            (set_pump_status
               (<[veh_i v := status_taken (Z.of_nat (veh_i v) + 1) (veh_id v)]>
                  (pump_status g)) g)
      end
  | VSelect =>
      match select_pump (veh_pumps v) (veh_pump_id v) with
      | Some p => Some (goto (VTankStart p) v, g)
      | None => Some (goto VNoPump v, g)
      end
  | VTankStart p =>
      Vehicle_safe_print (ETanking (veh_id v) (Pump_id p)) VTankSleep v g
  | VTankSleep => Some (goto VTankEnd v, g)
  | VTankEnd => Vehicle_safe_print (ETanked (veh_id v)) VFreePump v g
  | VFreePump =>
      if veh_locked v then
        match py_index (pump_status g) (veh_pump_id v - 1) with
        | Some i =>
            leave_PRINT_LOCK
              (goto VReleaseOk v)
              (set_pump_status
                 (<[i := status_released (veh_pump_id v) (veh_id v)]> (pump_status g)) g)
        | None => leave_PRINT_LOCK (goto VRaised v) g          (* IndexError *)
        end
      else enter_PRINT_LOCK v g
  | VReleaseOk => Some (goto VPayWait v, set_semaphore (S (PUMPS_SEMAPHORE g)) g)
  | VPayWait => Vehicle_safe_print (EWaitCashier (veh_id v)) VPayLock v g
  | VPayLock =>
      if CASHIER_LOCK g then None
      else Some (goto VPayBusy v, set_cashier_lock true g)
  | VPayBusy => Some (goto VPayStart v, set_cashier_busy true g)
  | VPayStart => Vehicle_safe_print (EPaying (veh_id v)) VPaySleep v g
  | VPaySleep => Some (goto VPayEnd v, g)
  | VPayEnd => Vehicle_safe_print (EPaid (veh_id v)) VPayIdle v g
  | VPayIdle => Some (goto VPayUnlock v, set_cashier_busy false g)
  | VPayUnlock => Some (goto VLeave v, set_cashier_lock false g)
  | VLeave => Vehicle_safe_print (ELeft (veh_id v)) VReturned v g
  | VNoPump => Vehicle_safe_print (ENoPump (veh_id v)) VReleaseErr v g
  | VReleaseErr => Some (goto VReturned v, set_semaphore (S (PUMPS_SEMAPHORE g)) g)
  | VReturned => None
  | VRaised => None
  end.

(** [not t.is_alive()] for a started thread. *)
Definition terminated (v : Vehicle) : bool :=
  match veh_at v with
  | VReturned | VRaised => true
  | _ => false
  end.

(** ** The supervisor *)

Inductive manager_at : Type :=
| MBegin                         (* 115 *)
| MLoop                          (* 117 *)
| MSleep                         (* 119 *)
| MCount                         (* 120 *)
| MSpawn                         (* 121-123 *)
| MDisplay                       (* 126 -> 139-140 *)
| MShow (cashier_locked : bool) (pumps : list string)   (* 141 *)
| MDrain                         (* 128 *)
| MJoin (k : nat)                (* 131-132, waiting for vehicle_threads[k] *)
| MEnd                           (* 134 *)
| MReturned.

Record StationManager : Type := mkManager {
  pumps : list Pump;             (* self.pumps *)
  max_vehicles : Z;
  running : bool;
  mgr_at : manager_at;
  mgr_locked : bool;             (* inside the [with PRINT_LOCK:] of [mgr_at] *)
  vehicle_threads : list Vehicle (* the thread objects, each with its own state *)
}.

(** Lines 104-109. *)
Definition StationManager_init (pumps : list Pump) (max_vehicles : Z) : StationManager :=
  mkManager pumps max_vehicles true MBegin false [].

Definition mgoto (l : manager_at) (m : StationManager) : StationManager :=
  mkManager (pumps m) (max_vehicles m) (running m) l (mgr_locked m) (vehicle_threads m).

Definition set_mgr_locked (b : bool) (m : StationManager) : StationManager :=
  mkManager (pumps m) (max_vehicles m) (running m) (mgr_at m) b (vehicle_threads m).

Definition set_threads (ts : list Vehicle) (m : StationManager) : StationManager :=
  mkManager (pumps m) (max_vehicles m) (running m) (mgr_at m) (mgr_locked m) ts.

Record Station : Type := mkStation {
  globals : Globals;
  manager : StationManager
}.

(** [safe_print(...)] at a program point of the supervisor. *)
Definition StationManager_safe_print (e : event) (next : manager_at)
           (s : Station) : option Station :=
  let g := globals s in
  let m := manager s in
  if mgr_locked m
  then Some (mkStation (set_print_lock false (print e g))
                       (set_mgr_locked false (mgoto next m)))
  else if PRINT_LOCK g then None
       else Some (mkStation (set_print_lock true g) (set_mgr_locked true m)).

(** One step of [StationManager.run]. *)
Definition StationManager_run (s : Station) : option Station :=
  let g := globals s in
  let m := manager s in
  match mgr_at m with
  | MBegin => StationManager_safe_print EStart MLoop s
  | MLoop =>
      if (VEHICLE_COUNT g <? max_vehicles m) && running m
      then Some (mkStation g (mgoto MSleep m))
      else Some (mkStation g (mgoto MDrain m))
  | MSleep => Some (mkStation g (mgoto MCount m))
  | MCount =>
      Some (mkStation (set_vehicle_count (VEHICLE_COUNT g + 1) g) (mgoto MSpawn m))
  | MSpawn =>
      let vehicle := Vehicle_init (VEHICLE_COUNT g) (pumps m) in
      Some (mkStation g
              (mkManager (pumps m) (max_vehicles m) (running m) MDisplay
                         (mgr_locked m) (vehicle_threads m ++ [vehicle])))
  | MDisplay =>
      (* the status line is put together without any lock *)
      Some (mkStation g (mgoto (MShow (CASHIER_LOCK g) (pump_status g)) m))
  | MShow cashier_locked status =>
      StationManager_safe_print (EStatus cashier_locked status) MLoop s
  | MDrain => StationManager_safe_print EStopping (MJoin 0) s
  | MJoin k =>
      match vehicle_threads m !! k with
      | None => Some (mkStation g (mgoto MEnd m))
      | Some t =>
          if terminated t then Some (mkStation g (mgoto (MJoin (S k)) m))
          else None
      end
  | MEnd => StationManager_safe_print EFinished MReturned s
  | MReturned => None
  end.

(** Lines 143-144. *)
Definition stop (s : Station) : Station :=
  let m := manager s in
  mkStation (globals s)
            (mkManager (pumps m) (max_vehicles m) false (mgr_at m) (mgr_locked m)
                       (vehicle_threads m)).

(** ** Interleaving *)

Inductive action : Type :=
| Supervisor                     (* the manager thread moves *)
| Actor (k : nat)                (* vehicle_threads[k] moves *)
| StopRequest.                   (* somebody calls manager.stop() *)

Definition step (a : action) (s : Station) : option Station :=
  match a with
  | Supervisor => StationManager_run s
  | Actor k =>
      match vehicle_threads (manager s) !! k with
      | None => None
      | Some v =>
          match Vehicle_run v (globals s) with
          | None => None
          | Some (v', g') =>
              Some (mkStation g' (set_threads (<[k := v']> (vehicle_threads (manager s)))
                                              (manager s)))
          end
      end
  | StopRequest => Some (stop s)
  end.

(** A schedule is run from left to right; it fails at the first action
    that cannot be taken. *)
Fixpoint exec (schedule : list action) (s : Station) : option Station :=
  match schedule with
  | [] => Some s
  | a :: rest =>
      match step a s with
      | None => None
      | Some s' => exec rest s'
      end
  end.

(** A run with [n] pumps and an arrival ceiling. *)
Definition station (n : nat) (max_vehicles : Z) : Station :=
  mkStation (module_globals n) (StationManager_init (all_pumps n) max_vehicles).

(** [__main__] of [Project.py]: three pumps, ten vehicles. *)
Definition main : Station := station 3 10.

Inductive reachable (s0 : Station) : Station -> Prop :=
| reachable_start : reachable s0 s0
| reachable_step a s s' :
    reachable s0 s -> step a s = Some s' -> reachable s0 s'.

(** ** Observations on a station *)

(** Number of elements of a list that pass a test. *)
Fixpoint count {A} (P : A -> bool) (l : list A) : nat :=
  match l with
  | [] => O
  | x :: l' => (Nat.b2n (P x) + count P l')%nat
  end.

(** The vehicle has passed [PUMPS_SEMAPHORE.acquire()] (line 67) and not
    yet [PUMPS_SEMAPHORE.release()] (line 91 or 99). *)
Definition holds_pump_slot (v : Vehicle) : bool :=
  match veh_at v with
  | VScan | VClaim | VSelect | VTankStart _ | VTankSleep | VTankEnd | VFreePump
  | VReleaseOk | VNoPump | VReleaseErr => true
  | _ => false
  end.

(** Fueling: a pump was selected (line 84) and the pool slot is not yet
    returned (line 91). *)
Definition Fueling (v : Vehicle) : bool :=
  match veh_at v with
  | VTankStart _ | VTankSleep | VTankEnd | VFreePump | VReleaseOk => true
  | _ => false
  end.

(** Paying: inside [with CASHIER_LOCK:] (lines 45-53). *)
Definition Paying (v : Vehicle) : bool :=
  match veh_at v with
  | VPayBusy | VPayStart | VPaySleep | VPayEnd | VPayIdle | VPayUnlock => true
  | _ => false
  end.

(** The part of [Paying] in which [CASHIER_BUSY] is [True] (lines 47-53). *)
Definition marked_busy (v : Vehicle) : bool :=
  match veh_at v with
  | VPayStart | VPaySleep | VPayEnd | VPayIdle => true
  | _ => false
  end.

(** The vehicle was given a pump (line 75). *)
Definition has_pump (v : Vehicle) : bool := negb (veh_pump_id v =? -1).

Definition threads (s : Station) : list Vehicle := vehicle_threads (manager s).

(** What a step of the supervisor leaves alone: it touches only
    [VEHICLE_COUNT], [PRINT_LOCK] and the console. *)
Definition same_resources (g g' : Globals) : Prop :=
  NUM_PUMPS g' = NUM_PUMPS g /\
  PUMPS_SEMAPHORE g' = PUMPS_SEMAPHORE g /\
  CASHIER_LOCK g' = CASHIER_LOCK g /\
  CASHIER_BUSY g' = CASHIER_BUSY g /\
  pump_status g' = pump_status g.


(** ** Invariants of a run *)

(** Permits left in the semaphore and permits held never exceed the
    number of pumps. *)
Definition pump_inv (n : nat) (s : Station) : Prop :=
  NUM_PUMPS (globals s) = n /\
  (PUMPS_SEMAPHORE (globals s) + count holds_pump_slot (threads s) <= n)%nat.

(** [PRINT_LOCK] is held by exactly the threads inside one of its with
    blocks. *)
Definition print_lock_inv (s : Station) : Prop :=
  (count veh_locked (threads s) + Nat.b2n (mgr_locked (manager s))
   = Nat.b2n (PRINT_LOCK (globals s)))%nat /\
  (forall k v, threads s !! k = Some v -> veh_at v = VClaim -> veh_locked v = true).

(** The cashier lock is held by exactly the vehicles inside the with
    block, and [CASHIER_BUSY] is set exactly while one of them is between
    lines 46 and 53. *)
Definition cashier_inv (s : Station) : Prop :=
  count Paying (threads s) = Nat.b2n (CASHIER_LOCK (globals s)) /\
  count marked_busy (threads s) = Nat.b2n (CASHIER_BUSY (globals s)).

(** Arrival ids follow the position in [vehicle_threads], and the counter
    is one ahead only between lines 120 and 121. *)
Definition ids_inv (s : Station) : Prop :=
  (forall k v, threads s !! k = Some v -> veh_id v = Z.of_nat k + 1) /\
  VEHICLE_COUNT (globals s) =
    Z.of_nat (length (threads s)) +
    match mgr_at (manager s) with MSpawn => 1 | _ => 0 end.

(** The vehicle is the one named in the Occupied line of its pump. *)
Definition owns (status : list string) (v : Vehicle) : Prop :=
  exists i : nat,
    veh_pump_id v = Z.of_nat i + 1 /\
    status !! i = Some (status_taken (Z.of_nat i + 1) (veh_id v)).

(** The vehicle is the one named in the release line of its pump. *)
Definition freed (status : list string) (v : Vehicle) : Prop :=
  exists i : nat,
    veh_pump_id v = Z.of_nat i + 1 /\
    status !! i = Some (status_released (Z.of_nat i + 1) (veh_id v)).

Definition none_free_below (i : nat) (status : list string) : Prop :=
  forall (j : nat) e, (j < i)%nat -> status !! j = Some e -> is_free e = false.

(** What each program point of a vehicle knows about the registry. *)
Definition vehicle_ok (n : nat) (status : list string) (v : Vehicle) : Prop :=
  veh_pumps v = all_pumps n /\
  match veh_at v with
  | VArrive | VAcquire | VNoPump | VReleaseErr => veh_pump_id v = -1
  | VScan => veh_pump_id v = -1 /\ none_free_below (veh_i v) status
  | VClaim =>
      veh_locked v = true /\ veh_pump_id v = -1 /\
      none_free_below (veh_i v) status /\
      exists e, status !! veh_i v = Some e /\ is_free e = true
  | VSelect =>
      (veh_pump_id v = -1 /\ none_free_below n status) \/ owns status v
  | VTankStart p => Pump_id p = veh_pump_id v /\ owns status v
  | VTankSleep | VTankEnd | VFreePump => owns status v
  | VReleaseOk | VPayWait | VPayLock | VPayBusy | VPayStart | VPaySleep
  | VPayEnd | VPayIdle | VPayUnlock | VLeave => freed status v
  | VReturned => veh_pump_id v = -1 \/ freed status v
  | VRaised => False
  end.

Definition registry_inv (n : nat) (s : Station) : Prop :=
  let status := pump_status (globals s) in
  NUM_PUMPS (globals s) = n /\
  length status = n /\
  pumps (manager s) = all_pumps n /\
  (forall k v, threads s !! k = Some v -> vehicle_ok n status v) /\
  (forall j k vj vk,
      threads s !! j = Some vj -> threads s !! k = Some vk ->
      veh_pump_id vj = veh_pump_id vk -> veh_pump_id vj <> -1 -> j = k) /\
  (forall (i : nat) e,
      status !! i = Some e ->
      e = status_free (Z.of_nat i + 1) \/
      exists k v, threads s !! k = Some v /\ veh_pump_id v = Z.of_nat i + 1).

(** How one vehicle step may change the registry: not at all, by the
    claim of lines 74-75, or by the release of line 89; the last two
    happen inside [with PRINT_LOCK:]. *)
Definition status_change (status status' : list string) (v v' : Vehicle) : Prop :=
  (status' = status /\ veh_pump_id v' = veh_pump_id v) \/
  (exists (i : nat) e,
      veh_locked v = true /\
      status !! i = Some e /\ is_free e = true /\
      status' = <[i := status_taken (Z.of_nat i + 1) (veh_id v)]> status /\
      veh_pump_id v = -1 /\ veh_pump_id v' = Z.of_nat i + 1) \/
  (exists i : nat,
      veh_locked v = true /\
      status !! i = Some (status_taken (Z.of_nat i + 1) (veh_id v)) /\
      status' = <[i := status_released (Z.of_nat i + 1) (veh_id v)]> status /\
      veh_pump_id v = Z.of_nat i + 1 /\ veh_pump_id v' = Z.of_nat i + 1).

(** Every pump is either still free or was given to one vehicle. *)
Definition served_inv (n : nat) (s : Station) : Prop :=
  (count has_pump (threads s) + count is_free (pump_status (globals s)) = n)%nat.

(** The supervisor has left the loop of line 117. *)
Definition draining (m : StationManager) : bool :=
  match mgr_at m with
  | MDrain | MJoin _ | MEnd | MReturned => true
  | _ => false
  end.

(** The threads the supervisor has already joined have ended, and line
    134 is printed only by a supervisor that has joined them all. *)
Definition join_inv (s : Station) : Prop :=
  (forall j v, threads s !! j = Some v ->
     match mgr_at (manager s) with
     | MJoin k => (j < k)%nat -> terminated v = true
     | MEnd | MReturned => terminated v = true
     | _ => True
     end) /\
  (In EFinished (console (globals s)) -> mgr_at (manager s) = MReturned).

(** ** The scan of lines 70-76 as one function

    [claimFreeSlot vehicle_id n status] is the loop of lines 70-76 run
    without interruption on a registry [status], for [NUM_PUMPS = n]: the
    value of [pump_id] after the loop and the registry it leaves.  [None]
    stands for the [IndexError] of [pump_status[i]]. *)
Fixpoint scan (vehicle_id : Z) (indices : list nat) (status : list string)
  : option (Z * list string) :=
  match indices with
  | [] => Some (-1, status)
  | i :: rest =>
      match status !! i with
      | None => None
      | Some entry =>
          if is_free entry
          then Some (Z.of_nat i + 1,
                     <[i := status_taken (Z.of_nat i + 1) vehicle_id]> status)
          else scan vehicle_id rest status
      end
  end.

Definition claimFreeSlot (vehicle_id : Z) (n : nat) (status : list string)
  : option (Z * list string) :=
  scan vehicle_id (seq 0 n) status.

(** [m] consecutive steps of one vehicle, nobody else moving. *)
Fixpoint Vehicle_steps (m : nat) (v : Vehicle) (g : Globals) : option (Vehicle * Globals) :=
  match m with
  | O => Some (v, g)
  | S m' =>
      match Vehicle_run v g with
      | None => None
      | Some (v', g') => Vehicle_steps m' v' g'
      end
  end.

(** ** The start control of [gui.py] (lines 107-127) *)

(** [t.is_alive()] for the supervisor thread. *)
Definition is_alive (m : StationManager) : bool :=
  match mgr_at m with
  | MReturned => false
  | _ => true
  end.

(** [start_simulation] with the two entry fields holding [pumps_var] and
    [max_var], and [current] the value of [self.manager] with the globals
    it runs on.  The result is the run that was started; [None] is the
    early return of line 109. *)
Definition start_simulation (pumps_var max_var : Z) (current : option Station)
  : option Station :=
  let n_pumps := Z.max 1 pumps_var in
  let max_veh := Z.max 1 max_var in
  let started := Some (station (Z.to_nat n_pumps) max_veh) in
  match current with
  | Some s => if is_alive (manager s) then None else started
  | None => started
  end.

(** ** Some runs of [Project.py] as shipped *)

(** Every station a schedule passes through, the first one included. *)
Fixpoint trace (schedule : list action) (s : Station) : list Station :=
  s :: match schedule with
       | [] => []
       | a :: rest =>
           match step a s with
           | None => []
           | Some s' => trace rest s'
           end
       end.

(** Four vehicles arrive.  The first three take the three pumps and
    start fueling; the fourth prints its arrival and comes to
    [PUMPS_SEMAPHORE.acquire()]. *)
Definition three_at_pumps : list action :=
  repeat Supervisor 27 ++ repeat (Actor 0) 9 ++ repeat (Actor 1) 11
  ++ repeat (Actor 2) 13 ++ repeat (Actor 3) 2.

(** Then the first vehicle ends fueling and releases its pump and its
    pool slot, and the fourth gets the slot and scans the registry. *)
Definition fourth_scans : list action :=
  three_at_pumps ++ repeat (Actor 0) 6 ++ repeat (Actor 3) 8.

(** Up to the release of the first vehicle: it has ended fueling and run
    line 89, and then line 91 as well. *)
Definition first_releases_entry : list action :=
  three_at_pumps ++ repeat (Actor 0) 5.

Definition first_releases : list action :=
  first_releases_entry ++ [Actor 0]%nat.

Definition fourth_scanned : Station := Eval vm_compute in
  default main (exec fourth_scans main).

(** Then the fourth vehicle selects its pump and goes on up to line 99. *)
Definition fourth_fails : list action :=
  fourth_scans ++ repeat (Actor 3) 3.

(** Two vehicles arrive and reach their pumps, then a stop is requested
    and the supervisor notices it. *)
Definition stop_while_fueling : list action :=
  repeat Supervisor 13 ++ repeat (Actor 0) 9 ++ repeat (Actor 1) 11
  ++ StopRequest :: repeat Supervisor 6.

Definition two_fueling : Station := Eval vm_compute in
  default main (exec stop_while_fueling main).

(** The first vehicle has fueled, released its pump and is at the cashier. *)
Definition first_pays : list action :=
  repeat Supervisor 6 ++ repeat (Actor 0) 21.

Definition one_paying : Station := Eval vm_compute in
  default main (exec first_pays main).

(** One vehicle only, run to the end of the simulation. *)
Definition single_run : list action :=
  repeat Supervisor 12 ++ repeat (Actor 0) 28 ++ repeat Supervisor 4.

Definition finished : Station := Eval vm_compute in
  default (station 3 1) (exec single_run (station 3 1)).

(** ** Further observations *)

(** Program points of a vehicle that are a [with PRINT_LOCK:] block: the
    [safe_print] calls, the test and the write of the scan, the release
    of the pump. *)
Definition prints_at (l : vehicle_at) : bool :=
  match l with
  | VArrive | VScan | VClaim | VTankStart _ | VTankEnd | VFreePump
  | VPayWait | VPayStart | VPayEnd | VLeave | VNoPump => true
  | _ => false
  end.

(** The same for the supervisor. *)
Definition mgr_prints_at (l : manager_at) : bool :=
  match l with
  | MBegin | MShow _ _ | MDrain | MEnd => true
  | _ => false
  end.

(** A thread holds [PRINT_LOCK] only inside one of these blocks, and in
    the scan only for an index of the registry. *)
Definition lock_points_inv (n : nat) (s : Station) : Prop :=
  (forall k v, threads s !! k = Some v -> veh_locked v = true ->
     prints_at (veh_at v) = true /\
     (veh_at v = VScan -> (veh_i v < n)%nat)) /\
  (mgr_locked (manager s) = true -> mgr_prints_at (mgr_at (manager s)) = true).


(** ** Starting again from the window ([gui.py])

    Lines 115-118 set four module globals anew; [CASHIER_LOCK],
    [CASHIER_BUSY] and [PRINT_LOCK] are left as the previous run left
    them, and what was printed stays printed. *)
Definition patch_globals (n_pumps : nat) (g : Globals) : Globals :=
  mkGlobals n_pumps n_pumps (CASHIER_LOCK g) (CASHIER_BUSY g) 0 (PRINT_LOCK g)
            ((fun i : nat => status_free (Z.of_nat i + 1)) <$> seq 0 n_pumps)
            (console g).


(** [start_simulation] (lines 107-127) pressed when [self.manager] is the
    supervisor of an earlier run [s]. *)
Definition start_again (pumps_var max_var : Z) (s : Station) : option Station :=
  if is_alive (manager s) then None
  else
    let n_pumps := Z.to_nat (Z.max 1 pumps_var) in
    let max_veh := Z.max 1 max_var in
    Some (mkStation (patch_globals n_pumps (globals s))
                    (StationManager_init (all_pumps n_pumps) max_veh)).

(** The status text and the progress bar as [poll_log] (lines 80-96)
    sets them. *)
Inductive status_text : Type :=
| Stopped                              (* 96 *)
| Running                              (* 93 *)
| RunningOf (current max_veh : Z).     (* 91 *)

Record Progressbar : Type := mkProgressbar {
  maximum : Z;
  value : Z
}.

Definition poll_log (self_manager : option Station) (progress : Progressbar)
  : status_text * Progressbar :=
  match self_manager with
  | Some s =>
      if is_alive (manager s) then
        let max_veh := max_vehicles (manager s) in
        let current := VEHICLE_COUNT (globals s) in
        if max_veh =? 0 then (Running, progress)
        else (RunningOf current max_veh, mkProgressbar max_veh current)
      else (Stopped, progress)
  | None => (Stopped, progress)
  end.

(** ** The loop of lines 117-126 *)

(** What the supervisor knows about the counter at each program point. *)
Definition spawn_inv (max : Z) (s : Station) : Prop :=
  max_vehicles (manager s) = max /\
  0 <= VEHICLE_COUNT (globals s) /\
  match mgr_at (manager s) with
  | MSleep | MCount => VEHICLE_COUNT (globals s) < max
  | MSpawn | MDisplay | MShow _ _ =>
      1 <= VEHICLE_COUNT (globals s) /\ VEHICLE_COUNT (globals s) <= max
  | _ => VEHICLE_COUNT (globals s) <= Z.max 0 max
  end /\
  (running (manager s) = true -> draining (manager s) = true ->
   max <= VEHICLE_COUNT (globals s)).

(** The supervisor is inside an iteration and has not yet run line 122. *)
Definition spawn_pending (m : StationManager) : nat :=
  match mgr_at m with
  | MSleep | MCount | MSpawn => 1
  | _ => 0
  end.

(** The supervisor of run [main] has passed the loop test for the second
    vehicle. *)
Definition second_pending : Station := Eval vm_compute in
  default main (exec (repeat Supervisor 10) main).

(** ** Reading the console *)

(** The vehicle a line is about. *)
Definition event_vehicle (e : event) : option Z :=
  match e with
  | EArrived v | ETanking v _ | ETanked v | EWaitCashier v | EPaying v | EPaid v
  | ELeft v | ENoPump v => Some v
  | EStart | EStatus _ _ | EStopping | EFinished => None
  end.

Definition about (vehicle_id : Z) (e : event) : bool :=
  match event_vehicle e with
  | Some w => w =? vehicle_id
  | None => false
  end.

(** The lines of a vehicle that fuels at [pump] (lines 64, 32, 35, 43, 47,
    52, 95), and of one that finds no pump (lines 64, 98). *)
Definition lifecycle (vehicle_id pump : Z) : list event :=
  [EArrived vehicle_id; ETanking vehicle_id pump; ETanked vehicle_id;
   EWaitCashier vehicle_id; EPaying vehicle_id; EPaid vehicle_id; ELeft vehicle_id].

Definition failed_visit (vehicle_id : Z) : list event :=
  [EArrived vehicle_id; ENoPump vehicle_id].

Definition visit (v : Vehicle) : list event :=
  if veh_pump_id v =? -1 then failed_visit (veh_id v)
  else lifecycle (veh_id v) (veh_pump_id v).

(** How many of its lines a vehicle has printed when it is at a program
    point. *)
Definition lines_printed (l : vehicle_at) : nat :=
  match l with
  | VArrive | VRaised => 0
  | VAcquire | VScan | VClaim | VSelect | VTankStart _ | VNoPump => 1
  | VTankSleep | VTankEnd | VReleaseErr => 2
  | VFreePump | VReleaseOk | VPayWait => 3
  | VPayLock | VPayBusy | VPayStart => 4
  | VPaySleep | VPayEnd => 5
  | VPayIdle | VPayUnlock | VLeave => 6
  | VReturned => 7
  end.

Definition printed (v : Vehicle) : list event :=
  take (lines_printed (veh_at v)) (visit v).

Definition log_inv (s : Station) : Prop :=
  (forall k v, threads s !! k = Some v ->
     filter (fun e => about (veh_id v) e = true) (console (globals s)) = printed v) /\
  (forall e w, In e (console (globals s)) -> event_vehicle e = Some w ->
     1 <= w <= Z.of_nat (length (threads s))).

(** The vehicle took the branch of line 96. *)
Definition gave_up (v : Vehicle) : bool :=
  match veh_at v with
  | VNoPump | VReleaseErr => true
  | VReturned => veh_pump_id v =? -1
  | _ => false
  end.

(** The vehicle has printed line 47 and not yet line 52. *)
Definition at_cashier (v : Vehicle) : bool :=
  match veh_at v with
  | VPaySleep | VPayEnd => true
  | _ => false
  end.

(** Reading the payment lines of a console from left to right: who is at
    the cashier after the last line, [None] when a payment starts while
    another one is open or ends without having started. *)
Fixpoint cashier_log (paying : option Z) (l : list event) : option (option Z) :=
  match l with
  | [] => Some paying
  | EPaying v :: l' =>
      match paying with
      | None => cashier_log (Some v) l'
      | Some _ => None
      end
  | EPaid v :: l' =>
      match paying with
      | Some w => if w =? v then cashier_log None l' else None
      | None => None
      end
  | _ :: l' => cashier_log paying l'
  end.

Definition is_status (e : event) : bool :=
  match e with
  | EStatus _ _ => true
  | _ => false
  end.

(** The supervisor has spawned a vehicle and not yet printed the status
    line of that iteration. *)
Definition status_pending (m : StationManager) : nat :=
  match mgr_at m with
  | MDisplay | MShow _ _ => 1
  | _ => 0
  end.

(** The fourth vehicle of run [main] has printed the error of line 98. *)
Definition fourth_failed : Station := Eval vm_compute in
  default main (exec fourth_fails main).

(** ** A bound on the length of a run *)

Fixpoint total {A} (f : A -> nat) (l : list A) : nat :=
  match l with
  | [] => 0%nat
  | x :: l' => (f x + total f l')%nat
  end.

(** Steps a vehicle thread can still take, at most, with [n] pumps: one
    for each statement ahead, two for each [with PRINT_LOCK:] block not yet
    entered, the scan counted for all the entries it has not looked at. *)
Definition vehicle_fuel (n : nat) (v : Vehicle) : nat :=
  let lock := if veh_locked v then 0%nat else 1%nat in
  (match veh_at v with
  | VArrive => 26 + 2 * n + lock
  | VAcquire => 25 + 2 * n
  | VScan => 23 + 2 * (n - veh_i v) + lock
  | VClaim => 23
  | VSelect => 22
  | VTankStart _ => 20 + lock
  | VTankSleep => 19
  | VTankEnd => 17 + lock
  | VFreePump => 15 + lock
  | VReleaseOk => 14
  | VPayWait => 12 + lock
  | VPayLock => 11
  | VPayBusy => 10
  | VPayStart => 8 + lock
  | VPaySleep => 7
  | VPayEnd => 5 + lock
  | VPayIdle => 4
  | VPayUnlock => 3
  | VLeave => 1 + lock
  | VNoPump => 2 + lock
  | VReleaseErr => 1
  | VReturned | VRaised => 0
  end)%nat.

(** What one iteration of the loop of lines 117-126 costs: eight steps
    of the supervisor, the steps of the vehicle it spawns and the [join()]
    of that vehicle. *)
Definition iteration_cost (n : nat) : nat := (36 + 2 * n)%nat.

(** Steps the supervisor can still take, at most, the vehicles it has yet
    to spawn included. *)
Definition manager_fuel (n : nat) (s : Station) : nat :=
  let m := manager s in
  let lock := if mgr_locked m then 0%nat else 1%nat in
  let len := length (vehicle_threads m) in
  let ahead :=
    (Z.to_nat (max_vehicles m - VEHICLE_COUNT (globals s)) * iteration_cost n)%nat in
  (match mgr_at m with
  | MBegin => ahead + len + 7 + lock
  | MLoop => ahead + len + 6
  | MSleep => ahead + len + 5
  | MCount => ahead + len + 4
  | MSpawn => ahead + iteration_cost n + len + 3
  | MDisplay => ahead + len + 9
  | MShow _ _ => ahead + len + 7 + lock
  | MDrain => len + 4 + lock
  | MJoin k => (len - k) + 3
  | MEnd => 1 + lock
  | MReturned => 0
  end)%nat.

Definition fuel (n : nat) (s : Station) : nat :=
  (manager_fuel n s + total (vehicle_fuel n) (threads s))%nat.

(** A step of a thread, as opposed to a call of [stop()]. *)
Definition is_move (a : action) : bool :=
  match a with
  | StopRequest => false
  | _ => true
  end.

(** ** The lines of the supervisor *)



(** ** The thread that asks for the stop

    [stop()] is never called bare.  The main thread of [Project.py]
    prints a line through [safe_print] and then calls it (lines 161-163);
    the window prints a line through [gui_safe_print], which ends in the
    same [safe_print] ([gui.py] lines 148, 60-65), and then has
    [mgr.stop()] called (line 153).  So the caller takes [PRINT_LOCK] as
    the threads of the run do, and its line is on the terminal among
    theirs. *)
Inductive caller_at : Type :=
| CIdle                          (* before 162 / gui.py 148; then waiting for PRINT_LOCK *)
| CPrinting                      (* 20-21, inside [with PRINT_LOCK:] *)
| CStop                          (* 163 / gui.py 153 *)
| CReturned.

(** What the terminal shows: the lines of the run and the line of the
    caller. *)
Inductive line : Type :=
| Printed (e : event)
| StopAnnounced.                 (* 162 / gui.py 148 *)

Record World : Type := mkWorld {
  simulation : Station;
  caller : caller_at;
  stdout : list line
}.

Definition caller_holds (w : World) : bool :=
  match caller w with
  | CPrinting => true
  | _ => false
  end.

Definition with_print_lock (b : bool) (s : Station) : Station :=
  mkStation (set_print_lock b (globals s)) (manager s).

(** One step of the caller: take [PRINT_LOCK], print and give it back,
    call [stop()]. *)
Definition caller_step (w : World) : option World :=
  let s := simulation w in
  match caller w with
  | CIdle =>
      if PRINT_LOCK (globals s) then None
      else Some (mkWorld (with_print_lock true s) CPrinting (stdout w))
  | CPrinting =>
      Some (mkWorld (with_print_lock false s) CStop (stdout w ++ [StopAnnounced]))
  | CStop => Some (mkWorld (stop s) CReturned (stdout w))
  | CReturned => None
  end.

(** The lines a step of the run has added to the console. *)
Definition printed_by (s s' : Station) : list event :=
  drop (length (console (globals s))) (console (globals s')).

(** The threads of the run move as in [step]; [StopRequest] now lets the
    caller take its next step. *)
Definition world_step (a : action) (w : World) : option World :=
  match a with
  | StopRequest => caller_step w
  | _ =>
      match step a (simulation w) with
      | None => None
      | Some s' =>
          Some (mkWorld s' (caller w)
                        (stdout w ++ (Printed <$> printed_by (simulation w) s')))
      end
  end.

Fixpoint world_exec (schedule : list action) (w : World) : option World :=
  match schedule with
  | [] => Some w
  | a :: rest =>
      match world_step a w with
      | None => None
      | Some w' => world_exec rest w'
      end
  end.

Definition world (n : nat) (max_vehicles : Z) : World :=
  mkWorld (station n max_vehicles) CIdle [].

Inductive world_reachable (w0 : World) : World -> Prop :=
| world_reachable_start : world_reachable w0 w0
| world_reachable_step a w w' :
    world_reachable w0 w -> world_step a w = Some w' -> world_reachable w0 w'.

(** The run as its own threads see it: a [PRINT_LOCK] held by the caller
    counted as free. *)
Definition without_caller (w : World) : Station :=
  if caller_holds w then with_print_lock false (simulation w) else simulation w.

Definition run_lines (l : list line) : list event :=
  omap (fun x => match x with Printed e => Some e | StopAnnounced => None end) l.

Definition is_stop_line (x : line) : bool :=
  match x with
  | StopAnnounced => true
  | Printed _ => false
  end.

(** The caller has printed its line. *)
Definition announced (c : caller_at) : bool :=
  match c with
  | CStop | CReturned => true
  | _ => false
  end.

(** The caller of run [main] is printing its line while the first vehicle
    is at line 64. *)
Definition caller_printing : World := Eval vm_compute in
  default (world 3 10) (world_exec (repeat Supervisor 6 ++ [StopRequest]) (world 3 10)).

(** The first vehicle of run [main] is printing its arrival line; the
    caller has not moved. *)
Definition vehicle_printing : World := Eval vm_compute in
  default (world 3 10) (world_exec (repeat Supervisor 6 ++ [Actor 0]%nat) (world 3 10)).

(** A run of one vehicle has ended by itself; then the stop is asked for. *)
Definition stopped_after_the_end : World := Eval vm_compute in
  default (world 3 1)
          (world_exec (single_run ++ [StopRequest; StopRequest; StopRequest]) (world 3 1)).

(** * Proofs *)

(** ** Strings: which status lines pass the test of line 73 *)

Lemma append_assoc (a b c : string) :
  (a ++ (b ++ c))%string = ((a ++ b) ++ c)%string.
Proof. induction a as [| x a IH]; cbn; [reflexivity | rewrite IH; reflexivity]. Qed.

Lemma last_char_cons c s :
  s <> EmptyString -> last_char (String c s) = last_char s.
Proof. destruct s; [congruence | reflexivity]. Qed.

Lemma last_char_app s t :
  t <> EmptyString -> last_char (s ++ t)%string = last_char t.
Proof.
  intros Ht. induction s as [| c s IH]; [reflexivity |].
  cbn [String.append]. rewrite last_char_cons; [exact IH |].
  destruct s; [exact Ht | discriminate].
Qed.

Lemma endswith_tail s suffix :
  endswith s suffix = true <-> exists p, s = (p ++ suffix)%string.
Proof.
  induction s as [| c s IH]; cbn [endswith].
  - destruct (String.eqb_spec EmptyString suffix) as [<- | Hne].
    + split; [exists EmptyString; reflexivity | reflexivity].
    + split; [discriminate |].
      intros [p Hp]. destruct p; cbn in Hp; [congruence | discriminate].
  - destruct (String.eqb_spec (String c s) suffix) as [<- | Hne].
    + split; [exists EmptyString; reflexivity | reflexivity].
    + rewrite IH. split.
      * intros [p ->]. exists (String c p). reflexivity.
      * intros [p Hp]. destruct p as [| c' p]; cbn in Hp; [congruence |].
        injection Hp as _ ->. exists p. reflexivity.
Qed.

Lemma endswith_last_char s suffix :
  suffix <> EmptyString -> endswith s suffix = true ->
  last_char s = last_char suffix.
Proof.
  intros Hne [p ->]%endswith_tail. apply last_char_app, Hne.
Qed.

Lemma uint_last_digit d :
  match last_char (NilEmpty.string_of_uint d) with
  | Some c => is_digit c = true
  | None => d = Nil
  end.
Proof.
  induction d as [| d IH | d IH | d IH | d IH | d IH | d IH | d IH | d IH | d IH | d IH];
    cbn [NilEmpty.string_of_uint]; [reflexivity | ..];
    (destruct (NilEmpty.string_of_uint d) as [| c' s'] eqn:E;
     [reflexivity |
      rewrite last_char_cons by discriminate;
      destruct (last_char (String c' s')); [exact IH | subst d; discriminate E]]).
Qed.

Lemma str_last_digit n :
  exists c, last_char (str n) = Some c /\ is_digit c = true.
Proof.
  assert (Hu : forall d, exists c,
             last_char (NilZero.string_of_uint d) = Some c /\ is_digit c = true).
  { intros d. pose proof (uint_last_digit d) as H.
    destruct d; try (cbn [NilZero.string_of_uint];
      destruct (last_char (NilEmpty.string_of_uint _)) as [c |];
      [exists c; split; [reflexivity | exact H] | discriminate]).
    exists "0"%char. split; reflexivity. }
  unfold str. destruct (Z.to_int n) as [d | d]; cbn [NilZero.string_of_int].
  - apply Hu.
  - destruct (Hu d) as (c & Hc & Hd). exists c. split; [| exact Hd].
    rewrite last_char_cons; [exact Hc |].
    intros E. rewrite E in Hc. discriminate.
Qed.

Lemma str_nonempty n : str n <> EmptyString.
Proof.
  destruct (str_last_digit n) as (c & Hc & _). intros E. rewrite E in Hc. discriminate.
Qed.

Lemma is_free_status_free n : is_free (status_free n) = true.
Proof.
  apply endswith_tail. exists ("D" ++ str n ++ ": ")%string.
  unfold status_free. rewrite <- !append_assoc. reflexivity.
Qed.

Lemma is_free_status_taken n v : is_free (status_taken n v) = false.
Proof.
  destruct (is_free (status_taken n v)) eqn:E; [| reflexivity].
  apply endswith_last_char in E; [| discriminate].
  unfold status_taken in E.
  rewrite !append_assoc in E.
  rewrite (last_char_app _ (str v)) in E by apply str_nonempty.
  destruct (str_last_digit v) as (c & Hc & Hd). rewrite Hc in E.
  cbn in E. injection E as ->. discriminate.
Qed.

Lemma is_free_status_released n v : is_free (status_released n v) = false.
Proof.
  destruct (is_free (status_released n v)) eqn:E; [| reflexivity].
  apply endswith_last_char in E; [| discriminate].
  unfold status_released in E.
  rewrite !append_assoc in E.
  rewrite (last_char_app _ ")") in E by discriminate.
  discriminate.
Qed.

(** ** Counting threads *)

#[local] Arguments Nat.b2n : simpl never.

Lemma count_app {A} (P : A -> bool) l1 l2 :
  count P (l1 ++ l2) = (count P l1 + count P l2)%nat.
Proof. induction l1 as [| x l1 IH]; simpl; [reflexivity | rewrite IH; lia]. Qed.

Lemma count_insert {A} (P : A -> bool) (l : list A) k x y :
  l !! k = Some x ->
  (count P (<[k := y]> l) + Nat.b2n (P x) = count P l + Nat.b2n (P y))%nat.
Proof.
  revert k. induction l as [| a l IH]; intros [| k] H; simpl in *;
    try discriminate.
  - injection H as ->. lia.
  - specialize (IH k H). lia.
Qed.

Lemma count_le {A} (P Q : A -> bool) (l : list A) :
  (forall x, P x = true -> Q x = true) -> (count P l <= count Q l)%nat.
Proof.
  intros HPQ. induction l as [| a l IH]; simpl; [lia |].
  specialize (HPQ a). destruct (P a), (Q a); unfold Nat.b2n;
    first [lia | discriminate (HPQ eq_refl)].
Qed.

Lemma count_lt {A} (P Q : A -> bool) (l : list A) k x :
  (forall x, P x = true -> Q x = true) ->
  l !! k = Some x -> P x = false -> Q x = true ->
  (count P l < count Q l)%nat.
Proof.
  intros HPQ. revert k. induction l as [| a l IH]; intros [| k] H HP HQ;
    simpl in *; try discriminate.
  - injection H as ->. rewrite HP, HQ. pose proof (count_le P Q l HPQ). unfold Nat.b2n. lia.
  - specialize (IH k H HP HQ). specialize (HPQ a).
    destruct (P a), (Q a); unfold Nat.b2n;
      first [lia | discriminate (HPQ eq_refl)].
Qed.

Lemma count_pos {A} (P : A -> bool) (l : list A) k x :
  l !! k = Some x -> P x = true -> (0 < count P l)%nat.
Proof.
  revert k. induction l as [| a l IH]; intros [| k] H HP; simpl in *;
    try discriminate.
  - injection H as ->. rewrite HP. unfold Nat.b2n. lia.
  - specialize (IH k H HP). lia.
Qed.

Lemma count_one_unique {A} (P : A -> bool) (l : list A) j k x y :
  (count P l <= 1)%nat ->
  l !! j = Some x -> l !! k = Some y -> P x = true -> P y = true -> j = k.
Proof.
  revert j k. induction l as [| a l IH]; intros [| j] [| k] Hc Hj Hk Hx Hy;
    simpl in *; try discriminate; try reflexivity.
  - injection Hj as ->. rewrite Hx in Hc. pose proof (count_pos P l k y Hk Hy). unfold Nat.b2n in Hc. lia.
  - injection Hk as ->. rewrite Hy in Hc. pose proof (count_pos P l j x Hj Hx). unfold Nat.b2n in Hc. lia.
  - f_equal. apply (IH j k); [lia | assumption ..].
Qed.

(** ** How a step decomposes *)

Lemma step_inv a s s' :
  step a s = Some s' ->
  (a = Supervisor /\ StationManager_run s = Some s') \/
  (exists k v v' g',
      a = Actor k /\ threads s !! k = Some v /\
      Vehicle_run v (globals s) = Some (v', g') /\
      s' = mkStation g' (set_threads (<[k := v']> (threads s)) (manager s))) \/
  (a = StopRequest /\ s' = stop s).
Proof.
  destruct a as [| k |]; cbn [step]; intros H.
  - left. split; [reflexivity | exact H].
  - right; left. unfold threads.
    destruct (vehicle_threads (manager s) !! k) as [v |] eqn:Ev; [| discriminate].
    destruct (Vehicle_run v (globals s)) as [[v' g'] |] eqn:Er; [| discriminate].
    injection H as <-. exists k, v, v', g'. repeat split; assumption.
  - right; right. injection H as <-. split; reflexivity.
Qed.

Ltac manager_step Hm :=
  unfold StationManager_run, StationManager_safe_print in Hm; cbn in Hm;
  match type of Hm with
  | context [mgr_at ?m] =>
      let pc := fresh "pc" in
      let Eat := fresh "Eat" in
      remember (mgr_at m) as pc eqn:Eat in *; destruct pc
  end;
  repeat match type of Hm with
         | context [match ?x with _ => _ end] => destruct x eqn:?
         end;
  simplify_eq.

Ltac manager_at :=
  try match goal with E : _ = mgr_at _ |- _ => rewrite <- E end.

Lemma StationManager_run_inv s s' :
  StationManager_run s = Some s' ->
  same_resources (globals s) (globals s') /\
  pumps (manager s') = pumps (manager s) /\
  (threads s' = threads s \/
   (mgr_at (manager s) = MSpawn /\
    threads s' = threads s ++ [Vehicle_init (VEHICLE_COUNT (globals s)) (pumps (manager s))])).
Proof.
  unfold threads, same_resources. destruct s as [g m]; cbn. intros H.
  manager_step H; cbn; auto 10.
Qed.

(** ** What one vehicle step does to the semaphore and to the cashier *)

Ltac vehicle_step H :=
  unfold Vehicle_run, Vehicle_safe_print, enter_PRINT_LOCK, leave_PRINT_LOCK in H;
  match type of H with
  | context [veh_at ?v] => destruct v as [? ? [] [] ? ?]
  end;
  cbn in H; repeat case_match; simplify_eq; cbn.

Lemma Vehicle_run_semaphore v g v' g' :
  Vehicle_run v g = Some (v', g') ->
  NUM_PUMPS g' = NUM_PUMPS g /\
  (PUMPS_SEMAPHORE g' + Nat.b2n (holds_pump_slot v')
   <= PUMPS_SEMAPHORE g + Nat.b2n (holds_pump_slot v))%nat.
Proof.
  intros H. vehicle_step H; split; try reflexivity; unfold Nat.b2n; lia.
Qed.

Lemma Vehicle_run_lock v g v' g' :
  Vehicle_run v g = Some (v', g') ->
  (CASHIER_LOCK g' = CASHIER_LOCK g /\ Paying v' = Paying v) \/
  (CASHIER_LOCK g = false /\ CASHIER_LOCK g' = true /\
   Paying v = false /\ Paying v' = true) \/
  (CASHIER_LOCK g' = false /\ Paying v = true /\ Paying v' = false).
Proof.
  intros H. vehicle_step H; auto 10.
Qed.

Lemma Vehicle_run_busy v g v' g' :
  Vehicle_run v g = Some (v', g') ->
  (CASHIER_BUSY g' = CASHIER_BUSY g /\ marked_busy v' = marked_busy v) \/
  (CASHIER_BUSY g' = true /\ marked_busy v' = true /\
   marked_busy v = false /\ Paying v = true) \/
  (CASHIER_BUSY g' = false /\ marked_busy v' = false /\
   marked_busy v = true /\ Paying v = true).
Proof.
  intros H. vehicle_step H; auto 10.
Qed.

Lemma marked_busy_Paying v : marked_busy v = true -> Paying v = true.
Proof. destruct v as [? ? [] ? ? ?]; cbn; congruence. Qed.

Lemma Fueling_holds_pump_slot v : Fueling v = true -> holds_pump_slot v = true.
Proof. destruct v as [? ? [] ? ? ?]; cbn; congruence. Qed.

(** ** The semaphore bounds the pumps in use *)

Section Resources.
Variables (n : nat) (max : Z).

Lemma pump_inv_reachable s : reachable (station n max) s -> pump_inv n s.
Proof.
  induction 1 as [| a s s' _ IH Hstep].
  - split; [reflexivity | cbn; lia].
  - destruct IH as [HN Hsem].
    apply step_inv in Hstep as [[_ Hm] | [(k & v & v' & g' & _ & Hk & Hr & ->) | [_ ->]]].
    + apply StationManager_run_inv in Hm as ((EN & Es & _) & _ & [Et | [_ Et]]);
        unfold pump_inv; rewrite EN, Es, Et; (split; [exact HN |]);
        [exact Hsem |].
      rewrite count_app. cbn. unfold Nat.b2n. lia.
    + apply Vehicle_run_semaphore in Hr as [EN Hle].
      split; [cbn; congruence |]. cbn [globals manager threads set_threads vehicle_threads].
      pose proof (count_insert holds_pump_slot (threads s) k v v' Hk). lia.
    + split; assumption.
Qed.

Lemma cashier_inv_reachable s : reachable (station n max) s -> cashier_inv s.
Proof.
  induction 1 as [| a s s' _ IH Hstep].
  - split; reflexivity.
  - destruct IH as [Hlock Hbusy].
    apply step_inv in Hstep as [[_ Hm] | [(k & v & v' & g' & _ & Hk & Hr & ->) | [_ ->]]].
    + apply StationManager_run_inv in Hm as ((_ & _ & El & Eb & _) & _ & [Et | [_ Et]]);
        unfold cashier_inv; rewrite El, Eb, Et, ?count_app; cbn; unfold Nat.b2n in *; lia.
    + pose proof (count_insert Paying (threads s) k v v' Hk) as Ec.
      pose proof (count_insert marked_busy (threads s) k v v' Hk) as Em.
      assert (HP : (count Paying (threads s) <= 1)%nat)
        by (rewrite Hlock; destruct (CASHIER_LOCK (globals s)); unfold Nat.b2n; lia).
      split; cbn [globals manager threads set_threads vehicle_threads].
      { destruct (Vehicle_run_lock _ _ _ _ Hr)
          as [[El Ep] | [(El & El' & Ep & Ep') | (El' & Ep & Ep')]];
          rewrite ?El, ?El', ?Ep, ?Ep' in *;
          pose proof (count_pos Paying (threads s) k v Hk) as Hpos;
          rewrite ?Ep in Hpos; unfold Nat.b2n in *; lia. }
      destruct (Vehicle_run_busy _ _ _ _ Hr)
        as [[Eb Emk] | [(Eb & Emk' & Emk & Ep) | (Eb & Emk' & Emk & Ep)]];
        rewrite Eb.
      * rewrite Emk in Em. lia.
      * pose proof (count_lt marked_busy Paying (threads s) k v
                      marked_busy_Paying Hk Emk Ep).
        rewrite Emk, Emk' in Em. unfold Nat.b2n in *. lia.
      * pose proof (count_le marked_busy Paying (threads s) marked_busy_Paying).
        pose proof (count_pos marked_busy (threads s) k v Hk Emk).
        rewrite Emk, Emk' in Em. unfold Nat.b2n in *. lia.
    + split; assumption.
Qed.

End Resources.

(** ** [PRINT_LOCK] is held by one thread at a time *)

Lemma Vehicle_run_print_lock v g v' g' :
  (veh_at v = VClaim -> veh_locked v = true) ->
  Vehicle_run v g = Some (v', g') ->
  (veh_at v' = VClaim -> veh_locked v' = true) /\
  ((PRINT_LOCK g' = PRINT_LOCK g /\ veh_locked v' = veh_locked v) \/
   (PRINT_LOCK g = false /\ PRINT_LOCK g' = true /\
    veh_locked v = false /\ veh_locked v' = true) \/
   (PRINT_LOCK g' = false /\ veh_locked v = true /\ veh_locked v' = false)).
Proof.
  intros Hc H. vehicle_step H; cbn in Hc;
    (split; [intros; congruence |]); auto 10.
  all: specialize (Hc eq_refl); discriminate Hc.
Qed.

Lemma StationManager_run_print_lock s s' :
  StationManager_run s = Some s' ->
  (PRINT_LOCK (globals s') = PRINT_LOCK (globals s) /\
   mgr_locked (manager s') = mgr_locked (manager s)) \/
  (PRINT_LOCK (globals s) = false /\ PRINT_LOCK (globals s') = true /\
   mgr_locked (manager s) = false /\ mgr_locked (manager s') = true) \/
  (PRINT_LOCK (globals s') = false /\
   mgr_locked (manager s) = true /\ mgr_locked (manager s') = false).
Proof.
  destruct s as [g m]; cbn. intros H. manager_step H; cbn; auto 10.
Qed.

Lemma print_lock_inv_reachable n max s :
  reachable (station n max) s -> print_lock_inv s.
Proof.
  induction 1 as [| a s s' _ IH Hstep].
  - split; [reflexivity | intros k v Hk; discriminate Hk].
  - destruct IH as [Hlock Hclaim].
    apply step_inv in Hstep as [[_ Hm] | [(k & v & v' & g' & _ & Hk & Hr & ->) | [_ ->]]].
    + pose proof (StationManager_run_print_lock _ _ Hm) as Hl.
      apply StationManager_run_inv in Hm as (_ & _ & Ht).
      assert (Hcount : count veh_locked (threads s') = count veh_locked (threads s)).
      { destruct Ht as [-> | [_ ->]]; [reflexivity |].
        rewrite count_app. cbn. unfold Nat.b2n. lia. }
      split.
      * rewrite Hcount.
        destruct Hl as [[El Em] | [(El & El' & Em & Em') | (El' & Em & Em')]];
          rewrite ?El, ?El', ?Em, ?Em' in *; unfold Nat.b2n in *; try lia.
        destruct (PRINT_LOCK (globals s)); lia.
      * intros k v Hk Hat. destruct Ht as [Et | [_ Et]]; rewrite Et in Hk; [eauto |].
        apply lookup_app_Some in Hk as [Hk | [_ Hk]]; [eauto |].
        apply list_lookup_singleton_Some in Hk as [_ <-]. discriminate Hat.
    + destruct (Vehicle_run_print_lock _ _ _ _ (Hclaim k v Hk) Hr) as [Hc' Hl].
      pose proof (count_insert veh_locked (threads s) k v v' Hk) as Hc.
      split; cbn [globals manager threads set_threads vehicle_threads mgr_locked].
      * destruct Hl as [[El Ev] | [(El & El' & Ev & Ev') | (El' & Ev & Ev')]];
          rewrite ?El, ?El', ?Ev, ?Ev' in *; unfold Nat.b2n in *; try lia.
        pose proof (count_pos veh_locked (threads s) k v Hk Ev).
        destruct (PRINT_LOCK (globals s)); lia.
      * intros j w Hj. unfold threads in *. destruct (decide (k = j)) as [<- | Hne].
        -- rewrite list_lookup_insert_eq in Hj by (eapply lookup_lt_Some; eauto).
           injection Hj as <-. exact Hc'.
        -- rewrite list_lookup_insert_ne in Hj by exact Hne. eauto.
    + split; assumption.
Qed.

(** Two threads inside [with PRINT_LOCK:] are the same thread. *)
Lemma print_lock_exclusive n max s j k vj vk :
  reachable (station n max) s ->
  threads s !! j = Some vj -> threads s !! k = Some vk ->
  veh_locked vj = true -> veh_locked vk = true -> j = k.
Proof.
  intros Hr Hj Hk Lj Lk. destruct (print_lock_inv_reachable n max s Hr) as [Hlock _].
  apply (count_one_unique veh_locked (threads s) j k vj vk); try assumption.
  destruct (PRINT_LOCK (globals s)); unfold Nat.b2n in *; lia.
Qed.

(** ** Arrival ids *)

Lemma Vehicle_run_id v g v' g' :
  Vehicle_run v g = Some (v', g') ->
  veh_id v' = veh_id v /\ veh_pumps v' = veh_pumps v /\
  VEHICLE_COUNT g' = VEHICLE_COUNT g.
Proof. intros H. vehicle_step H; auto. Qed.

Lemma ids_inv_reachable n max s : reachable (station n max) s -> ids_inv s.
Proof.
  induction 1 as [| a s s' _ IH Hstep].
  - split; [intros k v Hk; discriminate Hk | reflexivity].
  - destruct IH as [Hid Hcount].
    apply step_inv in Hstep as [[_ Hm] | [(k & v & v' & g' & _ & Hk & Hr & ->) | [_ ->]]].
    + destruct s as [g m]. unfold ids_inv, threads in *. cbn in *.
      manager_step Hm; cbn in *; manager_at;
        (split; [| rewrite ?length_app; cbn; lia]); try exact Hid.
      intros k v Hk. apply lookup_app_Some in Hk as [Hk | [Hge Hk]]; [auto |].
      apply list_lookup_singleton_Some in Hk as [Hz <-]. cbn. lia.
    + apply Vehicle_run_id in Hr as (Ei & _ & Ec). split.
      * intros j w Hj. cbn in Hj. unfold threads in *.
        destruct (decide (k = j)) as [<- | Hne].
        -- rewrite list_lookup_insert_eq in Hj by (eapply lookup_lt_Some; eauto).
           injection Hj as <-. rewrite Ei. auto.
        -- rewrite list_lookup_insert_ne in Hj by assumption. auto.
      * cbn. unfold threads in *. rewrite length_insert. congruence.
    + split; assumption.
Qed.
(** ** The registry *)

#[local] Arguments status_free : simpl never.
#[local] Arguments status_taken : simpl never.
#[local] Arguments status_released : simpl never.
#[local] Arguments is_free : simpl never.
#[local] Arguments select_pump : simpl never.
#[local] Arguments py_index : simpl never.

Lemma lookup_initial_status n (i : nat) e :
  pump_status (module_globals n) !! i = Some e -> e = status_free (Z.of_nat i + 1).
Proof.
  cbn. rewrite list_lookup_fmap. intros H.
  apply fmap_Some in H as (j & Hj & ->).
  apply lookup_seq in Hj as [-> _]. reflexivity.
Qed.

Lemma length_initial_status n : length (pump_status (module_globals n)) = n.
Proof. cbn. rewrite length_fmap. apply length_seq. Qed.

Lemma select_pump_Some n p q :
  select_pump (all_pumps n) p = Some q ->
  Pump_id q = p /\ exists i : nat, (i < n)%nat /\ p = Z.of_nat i + 1.
Proof.
  unfold select_pump. intros H. apply find_some in H as [Hin Heq].
  apply Z.eqb_eq in Heq. split; [exact Heq |].
  apply list_elem_of_In in Hin. unfold all_pumps in Hin.
  apply list_elem_of_fmap in Hin as (i & -> & Hi).
  apply elem_of_seq in Hi. exists i. cbn in *. split; lia.
Qed.

Lemma select_pump_in_range n (i : nat) :
  (i < n)%nat -> exists q, select_pump (all_pumps n) (Z.of_nat i + 1) = Some q.
Proof.
  intros Hi. unfold select_pump.
  destruct (find _ _) as [q |] eqn:E; [eauto |].
  exfalso. pose proof (find_none _ _ E (mkPump (Z.of_nat i + 1))) as Hn.
  cbn in Hn. rewrite Z.eqb_refl in Hn. discriminate Hn.
  apply list_elem_of_In. unfold all_pumps. apply list_elem_of_fmap.
  exists i. split; [reflexivity |]. apply elem_of_seq. lia.
Qed.

Lemma py_index_in_range {A} (l : list A) (i : nat) :
  (i < length l)%nat -> py_index l (Z.of_nat i + 1 - 1) = Some i.
Proof.
  intros Hi. unfold py_index.
  replace (Z.of_nat i + 1 - 1) with (Z.of_nat i) by lia.
  destruct (Z.leb_spec 0 (Z.of_nat i)); [| lia].
  destruct (Z.ltb_spec (Z.of_nat i) (Z.of_nat (length l))); [| lia].
  cbn. rewrite Nat2Z.id. reflexivity.
Qed.

Lemma vehicle_ok_claimed n status w :
  vehicle_ok n status w -> veh_pump_id w <> -1 -> owns status w \/ freed status w.
Proof.
  intros [_ H] Hne. destruct w as [? ? [] ? ? ?]; cbn in *;
    try contradiction; try tauto.
Qed.

Lemma owns_not_free status w (i : nat) e :
  owns status w -> veh_pump_id w = Z.of_nat i + 1 ->
  status !! i = Some e -> is_free e = false.
Proof.
  intros (j & Hj & Hl) Hi He. assert (j = i) as -> by lia.
  rewrite Hl in He. injection He as <-. apply is_free_status_taken.
Qed.

Lemma freed_not_free status w (i : nat) e :
  freed status w -> veh_pump_id w = Z.of_nat i + 1 ->
  status !! i = Some e -> is_free e = false.
Proof.
  intros (j & Hj & Hl) Hi He. assert (j = i) as -> by lia.
  rewrite Hl in He. injection He as <-. apply is_free_status_released.
Qed.

Ltac registry_unchanged :=
  cbn; split; [reflexivity |];
  split; [split; [reflexivity | first [assumption | reflexivity | tauto]]
         | left; split; reflexivity].

Lemma Vehicle_run_registry n v g v' g' :
  NUM_PUMPS g = n -> length (pump_status g) = n ->
  vehicle_ok n (pump_status g) v ->
  Vehicle_run v g = Some (v', g') ->
  NUM_PUMPS g' = n /\
  vehicle_ok n (pump_status g') v' /\
  status_change (pump_status g) (pump_status g') v v'.
Proof.
  intros HN Hlen [Hps Hok] H.
  unfold Vehicle_run, Vehicle_safe_print, enter_PRINT_LOCK, leave_PRINT_LOCK in H.
  destruct v as [id ps pc lk i pid]. cbn in Hps, Hok, H. subst ps n.
  unfold vehicle_ok, status_change, owns, freed.
  destruct pc; cbn in H;
    try solve [ repeat match type of H with
                       | context [match ?x with _ => _ end] => destruct x eqn:?
                       end;
                simplify_eq; registry_unchanged ].
  - (* line 67 *)
    destruct (PUMPS_SEMAPHORE g); [discriminate |]. injection H as <- <-. cbn.
    split; [reflexivity |]. split.
    + split; [reflexivity |]. split; [reflexivity |]. intros j e Hj. lia.
    + left. split; [reflexivity | symmetry; exact Hok].
  - (* lines 71-73 *)
    destruct Hok as [Hpid Hbelow].
    destruct (decide (i < NUM_PUMPS g)%nat) as [Hi | Hi].
    + destruct lk.
      * destruct (pump_status g !! i) as [e |] eqn:Ee;
          [| apply lookup_ge_None in Ee; lia].
        destruct (is_free e) eqn:Ef; injection H as <- <-; cbn;
          (split; [reflexivity |]); (split; [| left; split; reflexivity]);
          (split; [reflexivity |]).
        -- eauto 10.
        -- split; [exact Hpid |].
           intros j e' Hj He'. destruct (decide (j = i)) as [-> | Hne].
           ++ congruence.
           ++ apply (Hbelow j); [lia | exact He'].
      * destruct (PRINT_LOCK g); [discriminate |]. injection H as <- <-. cbn.
        split; [reflexivity |]. split; [| left; split; reflexivity].
        split; [reflexivity |]. auto.
    + injection H as <- <-. cbn. split; [reflexivity |]. split.
      * split; [reflexivity |]. left. split; [exact Hpid |].
        intros j e Hj. apply Hbelow. lia.
      * left. split; reflexivity.
  - (* lines 74-76 *)
    destruct Hok as (Hlk & Hpid & Hbelow & e & He & Hf). rewrite He in H.
    injection H as <- <-. cbn. split; [reflexivity |]. split.
    + split; [reflexivity |]. right. exists i. split; [reflexivity |].
      apply list_lookup_insert_eq. eapply lookup_lt_Some; eauto.
    + right; left. exists i, e. auto 10.
  - (* lines 83-84 *)
    destruct (select_pump (all_pumps (NUM_PUMPS g)) pid) as [p |] eqn:Es;
      injection H as <- <-; cbn.
    + apply select_pump_Some in Es as [Hid (j & Hj & Hp)].
      split; [reflexivity |]. split; [| left; split; reflexivity].
      split; [reflexivity |]. split; [exact Hid |].
      destruct Hok as [[Hpid _] | Hown]; [lia | exact Hown].
    + split; [reflexivity |]. split; [| left; split; reflexivity].
      split; [reflexivity |].
      destruct Hok as [[Hpid _] | (j & Hj & Hl)]; [exact Hpid |]. cbn in Hj.
      apply lookup_lt_Some in Hl. rewrite Hlen in Hl.
      destruct (select_pump_in_range _ j Hl) as [q Hq]. congruence.
  - (* lines 88-89 *)
    destruct Hok as (j & Hj & Hl). cbn in Hj, Hl. subst pid.
    pose proof (lookup_lt_Some _ _ _ Hl) as Hlt. destruct lk.
    + rewrite (py_index_in_range _ j Hlt) in H. injection H as <- <-. cbn.
      split; [reflexivity |]. split.
      * split; [reflexivity |]. exists j. split; [reflexivity |].
        apply list_lookup_insert_eq. exact Hlt.
      * right; right. exists j. auto.
    + destruct (PRINT_LOCK g); [discriminate |]. injection H as <- <-. cbn.
      split; [reflexivity |]. split; [| left; split; reflexivity].
      split; [reflexivity |]. eauto.
Qed.

Lemma none_free_below_change j status status' v v' :
  none_free_below j status -> status_change status status' v v' ->
  none_free_below j status'.
Proof.
  intros Hb [[-> _] | [(i & e & _ & He & Hf & -> & _) | (i & _ & Hi & -> & _)]];
    [exact Hb | ..]; intros k e' Hk Hl;
    (destruct (decide (i = k)) as [<- | Hne];
     [ apply list_lookup_insert_Some in Hl as [(_ & <- & _) | [? _]];
       [| congruence]
     | rewrite list_lookup_insert_ne in Hl by exact Hne; eapply Hb; eauto ]).
  - apply is_free_status_taken.
  - apply is_free_status_released.
Qed.

Lemma lookup_change status status' v v' w (j : nat) e :
  status_change status status' v v' ->
  veh_pump_id w = Z.of_nat j + 1 ->
  (veh_pump_id w = veh_pump_id v -> veh_pump_id w = -1) ->
  status !! j = Some e -> is_free e = false ->
  status' !! j = Some e.
Proof.
  intros [[-> _] | [(i & e' & _ & He' & Hf & -> & _) | (i & _ & Hi & -> & Hv & _)]]
         Hj Hne Hl Hnf; [exact Hl | ..];
    rewrite list_lookup_insert_ne; [exact Hl | | exact Hl |].
  - intros ->. congruence.
  - intros ->. assert (veh_pump_id w = -1) by (apply Hne; congruence). lia.
Qed.

Lemma owns_change status status' v v' w :
  owns status w -> status_change status status' v v' ->
  (veh_pump_id w = veh_pump_id v -> veh_pump_id w = -1) ->
  owns status' w.
Proof.
  intros (j & Hj & Hl) Hc Hne. exists j. split; [exact Hj |].
  eapply lookup_change; eauto. apply is_free_status_taken.
Qed.

Lemma freed_change status status' v v' w :
  freed status w -> status_change status status' v v' ->
  (veh_pump_id w = veh_pump_id v -> veh_pump_id w = -1) ->
  freed status' w.
Proof.
  intros (j & Hj & Hl) Hc Hne. exists j. split; [exact Hj |].
  eapply lookup_change; eauto. apply is_free_status_released.
Qed.

Lemma vehicle_ok_frame n status status' v v' w :
  vehicle_ok n status w -> status_change status status' v v' ->
  (veh_pump_id w = veh_pump_id v -> veh_pump_id w = -1) ->
  (veh_locked v = true -> veh_locked w = false) ->
  vehicle_ok n status' w.
Proof.
  intros [Hps Hok] Hc Hne Hexcl. split; [exact Hps |].
  pose proof (fun j H => none_free_below_change j _ _ _ _ H Hc) as Hnf.
  pose proof (fun H => owns_change _ _ _ _ w H Hc Hne) as Hown.
  pose proof (fun H => freed_change _ _ _ _ w H Hc Hne) as Hfreed.
  destruct (veh_at w); try exact Hok; try solve [intuition auto].
  destruct Hok as (Hlk & Hpid & Hbelow & e & He & Hf).
  split; [exact Hlk |]. split; [exact Hpid |]. split; [auto |].
  destruct Hc as [[-> _] | [(i & e' & Hv & _) | (i & Hv & _)]]; [eauto | ..];
    rewrite (Hexcl Hv) in Hlk; discriminate Hlk.
Qed.

Lemma length_change status status' v v' :
  status_change status status' v v' -> length status' = length status.
Proof.
  intros [[-> _] | [(i & e & _ & _ & _ & -> & _) | (i & _ & _ & -> & _)]];
    [reflexivity | apply length_insert ..].
Qed.

Lemma owner_after_step (ts : list Vehicle) k v v' k0 v0 p :
  ts !! k = Some v -> ts !! k0 = Some v0 -> veh_pump_id v0 = p ->
  (k0 = k -> veh_pump_id v' = p) ->
  exists k1 v1, <[k := v']> ts !! k1 = Some v1 /\ veh_pump_id v1 = p.
Proof.
  intros Hk Hk0 Hp Hsame. destruct (decide (k0 = k)) as [-> | Hne].
  - exists k, v'. split; [| auto].
    apply list_lookup_insert_eq. eapply lookup_lt_Some; eauto.
  - exists k0, v0. split; [| exact Hp].
    rewrite list_lookup_insert_ne by congruence. exact Hk0.
Qed.

Lemma registry_inv_reachable n max s :
  reachable (station n max) s -> registry_inv n s.
Proof.
  induction 1 as [| a s s' Hs IH Hstep].
  - unfold registry_inv. cbn -[module_globals].
    split; [reflexivity |]. split; [apply length_initial_status |].
    split; [reflexivity |]. split; [| split].
    + intros k v Hk. discriminate Hk.
    + intros j k vj vk Hj. discriminate Hj.
    + intros i e He. left. apply lookup_initial_status with (n := n). exact He.
  - destruct IH as (HN & Hlen & Hpumps & Hok & Huniq & Hentry).
    apply step_inv in Hstep as [[_ Hm] | [(k & v & v' & g' & _ & Hk & Hr & ->) | [_ ->]]].
    + apply StationManager_run_inv in Hm
        as ((EN & _ & _ & _ & Est) & Ep & [Et | [_ Et]]);
        unfold registry_inv; rewrite EN, Est, Ep, Et;
        (split; [exact HN |]); (split; [exact Hlen |]); (split; [exact Hpumps |]).
      * auto.
      * split; [| split].
        -- intros j w Hj. apply lookup_app_Some in Hj as [Hj | [_ Hj]]; [eauto |].
           apply list_lookup_singleton_Some in Hj as [_ <-].
           split; [exact Hpumps | reflexivity].
        -- intros j1 j2 v1 v2 H1 H2 Heq Hne.
           apply lookup_app_Some in H1 as [H1 | [_ H1]];
             [| apply list_lookup_singleton_Some in H1 as [_ <-]; cbn in Hne; lia].
           apply lookup_app_Some in H2 as [H2 | [_ H2]];
             [eauto | apply list_lookup_singleton_Some in H2 as [_ <-]; cbn in Heq; lia].
        -- intros i e He. destruct (Hentry i e He) as [-> | (k0 & v0 & Hk0 & Hp)];
             [left; reflexivity | right].
           exists k0, v0. split; [| exact Hp]. apply lookup_app_l_Some. exact Hk0.
    + destruct (Vehicle_run_registry n v (globals s) v' g' HN Hlen (Hok k v Hk) Hr)
        as (EN & Hok' & Hc).
      assert (Hother : forall j w, threads s !! j = Some w -> j <> k ->
                 veh_pump_id w = veh_pump_id v -> veh_pump_id w = -1).
      { intros j w Hj Hjk Heq. destruct (decide (veh_pump_id w = -1)) as [| Hne];
          [assumption |]. exfalso. apply Hjk. eapply Huniq; eauto. }
      assert (Hfresh : forall j w, threads s !! j = Some w -> j <> k ->
                 veh_pump_id w = veh_pump_id v' -> veh_pump_id w <> -1 -> False).
      { intros j w Hj Hjk Heq Hne.
        destruct Hc as [[_ Hp] | [(i & e & _ & He & Hf & _ & _ & Hp)
                                 | (i & _ & _ & _ & Hp & Hp')]].
        - apply Hne, (Hother j w Hj Hjk). congruence.
        - assert (is_free e = false); [| congruence].
          destruct (vehicle_ok_claimed _ _ _ (Hok j w Hj) Hne) as [Ho | Ho].
          + eapply owns_not_free; eauto. congruence.
          + eapply freed_not_free; eauto. congruence.
        - apply Hne, (Hother j w Hj Hjk). congruence. }
      unfold registry_inv. cbn [globals manager threads set_threads vehicle_threads pumps].
      split; [exact EN |]. split; [rewrite (length_change _ _ _ _ Hc); exact Hlen |].
      split; [exact Hpumps |]. split; [| split].
      * intros j w Hj. destruct (decide (k = j)) as [<- | Hne].
        -- rewrite list_lookup_insert_eq in Hj by (eapply lookup_lt_Some; eauto).
           injection Hj as <-. exact Hok'.
        -- rewrite list_lookup_insert_ne in Hj by exact Hne.
           eapply vehicle_ok_frame; eauto.
           intros Hlk. destruct (veh_locked w) eqn:Hlw; [| reflexivity].
           exfalso. apply Hne. symmetry.
           exact (print_lock_exclusive n max s j k w v Hs Hj Hk Hlw Hlk).
      * intros j1 j2 v1 v2 H1 H2 Heq Hne.
        destruct (decide (k = j1)) as [<- | Hne1]; destruct (decide (k = j2)) as [<- | Hne2];
          try reflexivity.
        -- rewrite list_lookup_insert_eq in H1 by (eapply lookup_lt_Some; eauto).
           rewrite list_lookup_insert_ne in H2 by exact Hne2.
           injection H1 as <-. exfalso. eapply (Hfresh j2 v2); eauto. congruence.
        -- rewrite list_lookup_insert_eq in H2 by (eapply lookup_lt_Some; eauto).
           rewrite list_lookup_insert_ne in H1 by exact Hne1.
           injection H2 as <-. exfalso. eapply (Hfresh j1 v1); eauto.
        -- rewrite list_lookup_insert_ne in H1 by exact Hne1.
           rewrite list_lookup_insert_ne in H2 by exact Hne2. eauto.
      * intros i e He.
        destruct Hc as [[Est Hp] | [(i0 & e0 & _ & He0 & Hf & Est & Hv & Hp)
                                   | (i0 & _ & Hi0 & Est & Hv & Hp)]];
          rewrite Est in He.
        -- destruct (Hentry i e He) as [-> | (k0 & v0 & Hk0 & Hp0)];
             [left; reflexivity | right].
           eapply owner_after_step; eauto. intros ->.
           unfold threads in *. congruence.
        -- destruct (decide (i0 = i)) as [-> | Hi].
           ++ right. exists k, v'. split; [| exact Hp].
              apply list_lookup_insert_eq. eapply lookup_lt_Some; eauto.
           ++ rewrite list_lookup_insert_ne in He by exact Hi.
              destruct (Hentry i e He) as [-> | (k0 & v0 & Hk0 & Hp0)];
                [left; reflexivity | right].
              eapply owner_after_step; eauto. intros ->.
              unfold threads in *. assert (v0 = v) by congruence. subst v0. lia.
        -- destruct (decide (i0 = i)) as [-> | Hi].
           ++ right. exists k, v'. split; [| exact Hp].
              apply list_lookup_insert_eq. eapply lookup_lt_Some; eauto.
           ++ rewrite list_lookup_insert_ne in He by exact Hi.
              destruct (Hentry i e He) as [-> | (k0 & v0 & Hk0 & Hp0)];
                [left; reflexivity | right].
              eapply owner_after_step; eauto. intros ->.
              unfold threads in *. assert (v0 = v) by congruence. subst v0. lia.
    + unfold registry_inv. cbn. auto 10.
Qed.

(** ** No more vehicles are served than there are pumps *)

Lemma count_initial_status n : count is_free (pump_status (module_globals n)) = n.
Proof.
  cbn [pump_status module_globals]. generalize 0%nat.
  induction n as [| n IH]; intros a; [reflexivity |].
  cbn [seq fmap list_fmap count]. rewrite is_free_status_free.
  change (list_fmap nat string ?f ?l) with (f <$> l). rewrite IH. reflexivity.
Qed.

Lemma served_inv_reachable n max s :
  reachable (station n max) s -> served_inv n s.
Proof.
  induction 1 as [| a s s' Hs IH Hstep].
  - unfold served_inv, station, threads. cbn [globals manager].
    rewrite count_initial_status. reflexivity.
  - unfold served_inv in *.
    destruct (registry_inv_reachable n max s Hs) as (HN & Hlen & _ & Hok & _).
    apply step_inv in Hstep as [[_ Hm] | [(k & v & v' & g' & _ & Hk & Hr & ->) | [_ ->]]].
    + apply StationManager_run_inv in Hm as ((_ & _ & _ & _ & ->) & _ & [-> | [_ ->]]);
        [exact IH |].
      rewrite count_app. cbn. unfold Nat.b2n. lia.
    + destruct (Vehicle_run_registry n v (globals s) v' g' HN Hlen (Hok k v Hk) Hr)
        as (_ & _ & Hc).
      pose proof (count_insert has_pump (threads s) k v v' Hk) as Hp.
      cbn [globals manager threads set_threads vehicle_threads].
      unfold has_pump in Hp.
      destruct Hc as [[-> Ep] | [(i & e & _ & He & Hf & -> & Ev & Ev')
                                | (i & _ & He & -> & Ev & Ev')]].
      * rewrite Ep in Hp. unfold has_pump in *. lia.
      * pose proof (count_insert is_free (pump_status (globals s)) i e
                      (status_taken (Z.of_nat i + 1) (veh_id v)) He) as Hq.
        rewrite Hf, is_free_status_taken in Hq. rewrite Ev, Ev' in Hp.
        destruct (Z.eqb_spec (Z.of_nat i + 1) (-1)); [lia |].
        unfold has_pump, Nat.b2n in *. cbn in Hp. lia.
      * pose proof (count_insert is_free (pump_status (globals s)) i _
                      (status_released (Z.of_nat i + 1) (veh_id v)) He) as Hq.
        rewrite is_free_status_taken, is_free_status_released in Hq.
        rewrite Ev, Ev' in Hp. unfold has_pump in *. lia.
    + exact IH.
Qed.

(** In a run with [n] pumps at most [n] vehicles are ever given a pump. *)
Lemma served_at_most_once_per_pump n max s :
  reachable (station n max) s -> (count has_pump (threads s) <= n)%nat.
Proof. intros Hr. pose proof (served_inv_reachable n max s Hr) as H. unfold served_inv in H. lia. Qed.

(** ** Draining *)

Lemma Vehicle_run_alive v g v' g' :
  Vehicle_run v g = Some (v', g') ->
  terminated v = false /\
  (In EFinished (console g') -> In EFinished (console g)).
Proof.
  intros H. vehicle_step H; (split; [reflexivity |]); try tauto;
    rewrite in_app_iff; cbn; intuition discriminate.
Qed.

Lemma join_inv_reachable n max s : reachable (station n max) s -> join_inv s.
Proof.
  induction 1 as [| a s s' _ IH Hstep].
  - split; [intros j v Hj; discriminate Hj | intros []].
  - destruct IH as [Hjoin Hfin].
    apply step_inv in Hstep as [[_ Hm] | [(k & v & v' & g' & _ & Hk & Hr & ->) | [_ ->]]].
    + destruct s as [g m]. unfold join_inv, threads in *. cbn in *.
      manager_step Hm; cbn in *; manager_at;
        (split; [| try (rewrite in_app_iff; cbn); intuition congruence]);
        try exact Hjoin; try (intros j w Hj; exact I).
      * intros j w Hj Hlt. lia.
      * intros j w Hj Hlt. destruct (decide (j = k)) as [-> | Hne].
        -- congruence.
        -- apply (Hjoin j w Hj). lia.
      * intros j w Hj. apply (Hjoin j w Hj).
        match goal with E : _ !! k = None |- _ => apply lookup_ge_None in E end.
        apply lookup_lt_Some in Hj. lia.
    + apply Vehicle_run_alive in Hr as [Halive Hcons].
      split; [| cbn; auto]. cbn [globals manager threads set_threads vehicle_threads mgr_at].
      intros j w Hj. unfold threads in *.
      destruct (decide (k = j)) as [<- | Hne].
      * specialize (Hjoin k v Hk). destruct (mgr_at (manager s)); try exact I;
          try intros Hlt; rewrite Halive in Hjoin; try discriminate Hjoin;
          discriminate (Hjoin Hlt).
      * rewrite list_lookup_insert_ne in Hj by exact Hne. exact (Hjoin j w Hj).
    + split; assumption.
Qed.

(** ** Schedules *)

Lemma exec_reachable s0 schedule s s' :
  reachable s0 s -> exec schedule s = Some s' -> reachable s0 s'.
Proof.
  revert s. induction schedule as [| a rest IH]; intros s Hs H; cbn in H.
  - injection H as <-. exact Hs.
  - destruct (step a s) as [s1 |] eqn:E; [| discriminate].
    apply (IH s1); [| exact H]. eapply reachable_step; eauto.
Qed.

Lemma reachable_exec s0 s :
  reachable s0 s -> exists schedule, exec schedule s0 = Some s.
Proof.
  induction 1 as [| a s s' _ [schedule IH] Hstep].
  - exists []. reflexivity.
  - exists (schedule ++ [a]). revert IH. generalize s0.
    induction schedule as [| b rest IHr]; intros s1 H; cbn in *.
    + injection H as ->. rewrite Hstep. reflexivity.
    + destruct (step b s1); [apply IHr; exact H | discriminate].
Qed.

Lemma step_draining a s s' :
  step a s = Some s' -> draining (manager s) = true ->
  draining (manager s') = true /\ length (threads s') = length (threads s).
Proof.
  intros Hstep Hd.
  apply step_inv in Hstep as [[_ Hm] | [(k & v & v' & g' & _ & Hk & Hr & ->) | [_ ->]]].
  - destruct s as [g m]. unfold draining, threads in *. cbn in *.
    manager_step Hm; try discriminate Hd; cbn; manager_at; auto.
  - split; [exact Hd |]. cbn. apply length_insert.
  - split; [exact Hd | reflexivity].
Qed.

Lemma exec_draining schedule s s' :
  exec schedule s = Some s' -> draining (manager s) = true ->
  draining (manager s') = true /\ length (threads s') = length (threads s).
Proof.
  revert s. induction schedule as [| a rest IH]; intros s H Hd; cbn in H.
  - injection H as <-. auto.
  - destruct (step a s) as [s1 |] eqn:E; [| discriminate].
    destruct (step_draining _ _ _ E Hd) as [Hd1 Hl1].
    destruct (IH s1 H Hd1) as [Hd' Hl']. split; [exact Hd' | congruence].
Qed.

(** ** Occupied lines and release lines are different lines *)

Lemma status_taken_not_released n v m w :
  status_taken n v <> status_released m w.
Proof.
  intros H. assert (Hf : is_free (status_taken n v) = false)
    by apply is_free_status_taken.
  unfold status_taken, status_released in H.
  assert (Hl : last_char ("D" ++ str n ++ ": Zajęty przez V" ++ str v)%string
               = Some ")"%char).
  { rewrite H, !append_assoc. apply (last_char_app _ ")"). discriminate. }
  rewrite !append_assoc in Hl.
  rewrite (last_char_app _ (str v)) in Hl by apply str_nonempty.
  destruct (str_last_digit v) as (c & Hc & Hd). rewrite Hc in Hl.
  injection Hl as ->. discriminate Hd.
Qed.

Lemma owns_holds_pump_slot n status v :
  vehicle_ok n status v -> owns status v -> holds_pump_slot v = true.
Proof.
  intros [_ Hok] (i & Hi & Hl).
  assert (Hfreed : freed status v -> False).
  { intros (j & Hj & Hl'). assert (j = i) as -> by lia.
    rewrite Hl in Hl'.
    apply (status_taken_not_released (Z.of_nat i + 1) (veh_id v)
                                     (Z.of_nat i + 1) (veh_id v)).
    congruence. }
  destruct v as [id ps [] lk vi pid]; cbn in *; try reflexivity;
    try lia; try (exfalso; tauto).
  destruct Hok as [Hok | Hok]; [lia | exfalso; tauto].
Qed.

(** ** The scan as a function, and the vehicle thread running it *)

Lemma scan_seq_claims vehicle_id len : forall (a i : nat) status e,
  (a <= i < a + len)%nat ->
  status !! i = Some e -> is_free e = true ->
  (forall (j : nat) e', (a <= j < i)%nat -> status !! j = Some e' -> is_free e' = false) ->
  scan vehicle_id (seq a len) status
  = Some (Z.of_nat i + 1, <[i := status_taken (Z.of_nat i + 1) vehicle_id]> status).
Proof.
  induction len as [| len IH]; intros a i status e Hi He Hf Hbelow; [lia |].
  cbn [seq scan].
  destruct (decide (a = i)) as [-> | Hne].
  - rewrite He, Hf. reflexivity.
  - destruct (lookup_lt_is_Some_2 status a) as [e' He'].
    { apply lookup_lt_Some in He. lia. }
    rewrite He', (Hbelow a e') by (lia || assumption).
    apply (IH (S a) i status e); try assumption; [lia |].
    intros j e'' Hj. apply Hbelow. lia.
Qed.

Lemma scan_seq_none vehicle_id len : forall (a : nat) status,
  (a + len <= length status)%nat ->
  (forall (j : nat) e, (a <= j < a + len)%nat -> status !! j = Some e -> is_free e = false) ->
  scan vehicle_id (seq a len) status = Some (-1, status).
Proof.
  induction len as [| len IH]; intros a status Hlen Hnone; [reflexivity |].
  cbn [seq scan].
  destruct (lookup_lt_is_Some_2 status a) as [e He]; [lia |].
  rewrite He, (Hnone a e) by (lia || assumption).
  apply IH; [lia |]. intros j e' Hj. apply Hnone. lia.
Qed.

Lemma Vehicle_steps_app m1 : forall m2 v g,
  Vehicle_steps (m1 + m2) v g
  = match Vehicle_steps m1 v g with
    | Some (v', g') => Vehicle_steps m2 v' g'
    | None => None
    end.
Proof.
  induction m1 as [| m1 IH]; intros m2 v g; cbn [Vehicle_steps Nat.add];
    [reflexivity |].
  destruct (Vehicle_run v g) as [[v' g'] |]; [apply IH | reflexivity].
Qed.

(** One turn of the loop of line 71, nobody else moving: the thread takes
    [PRINT_LOCK], tests the entry, and either goes on to the next index,
    or writes its Occupied line and leaves the loop. *)
Lemma scan_turn_not_free v g e :
  veh_at v = VScan -> veh_locked v = false -> PRINT_LOCK g = false ->
  (veh_i v < NUM_PUMPS g)%nat ->
  pump_status g !! veh_i v = Some e -> is_free e = false ->
  Vehicle_steps 2 v g
  = Some (mkVehicle (veh_id v) (veh_pumps v) VScan false (S (veh_i v)) (veh_pump_id v), g).
Proof.
  intros Hat Hlk Hpl Hi He Hf. destruct v as [id ps pc lk i pid]. destruct g.
  cbn in *. subst pc lk PRINT_LOCK0.
  unfold Vehicle_run, enter_PRINT_LOCK, leave_PRINT_LOCK. cbn.
  destruct (decide (i < NUM_PUMPS0)%nat); [| lia]. cbn.
  destruct (decide (i < NUM_PUMPS0)%nat); [| lia]. rewrite He, Hf. reflexivity.
Qed.

Lemma scan_turn_free v g e :
  veh_at v = VScan -> veh_locked v = false -> PRINT_LOCK g = false ->
  (veh_i v < NUM_PUMPS g)%nat ->
  pump_status g !! veh_i v = Some e -> is_free e = true ->
  Vehicle_steps 3 v g
  = Some (mkVehicle (veh_id v) (veh_pumps v) VSelect false (veh_i v)
                    (Z.of_nat (veh_i v) + 1),
          set_pump_status
            (<[veh_i v := status_taken (Z.of_nat (veh_i v) + 1) (veh_id v)]>
               (pump_status g)) g).
Proof.
  intros Hat Hlk Hpl Hi He Hf. destruct v as [id ps pc lk i pid]. destruct g.
  cbn in *. subst pc lk PRINT_LOCK0.
  unfold Vehicle_run, enter_PRINT_LOCK, leave_PRINT_LOCK. cbn.
  destruct (decide (i < NUM_PUMPS0)%nat); [| lia]. cbn.
  destruct (decide (i < NUM_PUMPS0)%nat); [| lia]. rewrite He, Hf. cbn.
  rewrite He. reflexivity.
Qed.

Lemma scan_turn_error v g :
  veh_at v = VScan -> veh_locked v = false -> PRINT_LOCK g = false ->
  (veh_i v < NUM_PUMPS g)%nat ->
  pump_status g !! veh_i v = None ->
  Vehicle_steps 2 v g
  = Some (mkVehicle (veh_id v) (veh_pumps v) VRaised false (veh_i v) (veh_pump_id v), g).
Proof.
  intros Hat Hlk Hpl Hi He. destruct v as [id ps pc lk i pid]. destruct g.
  cbn in *. subst pc lk PRINT_LOCK0.
  unfold Vehicle_run, enter_PRINT_LOCK, leave_PRINT_LOCK. cbn.
  destruct (decide (i < NUM_PUMPS0)%nat); [| lia]. cbn.
  destruct (decide (i < NUM_PUMPS0)%nat); [| lia]. rewrite He. reflexivity.
Qed.

(** The vehicle thread, left alone from the loop head of line 71, computes
    [scan] on the remaining indices. *)
Lemma Vehicle_steps_scan len : forall (a : nat) v g,
  veh_at v = VScan -> veh_locked v = false -> PRINT_LOCK g = false ->
  veh_i v = a -> veh_pump_id v = -1 ->
  (a + len = NUM_PUMPS g)%nat ->
  match scan (veh_id v) (seq a len) (pump_status g) with
  | Some (pump_id, status') =>
      exists m v',
        Vehicle_steps m v g = Some (v', set_pump_status status' g) /\
        veh_at v' = VSelect /\ veh_pump_id v' = pump_id /\ veh_locked v' = false
  | None =>
      exists m v', Vehicle_steps m v g = Some (v', g) /\ veh_at v' = VRaised
  end.
Proof.
  induction len as [| len IH]; intros a v g Hat Hlk Hpl Hi Hpid Hlen.
  - cbn [seq scan]. exists 1%nat, (goto VSelect v).
    cbn. unfold Vehicle_run. rewrite Hat.
    destruct (decide (veh_i v < NUM_PUMPS g)%nat); [lia |].
    destruct g; cbn in *. auto.
  - cbn [seq scan]. subst a.
    destruct (pump_status g !! veh_i v) as [e |] eqn:He.
    + destruct (is_free e) eqn:Hf.
      * eexists 3%nat, _. split; [apply (scan_turn_free v g e); auto; lia |]. auto.
      * specialize (IH (S (veh_i v))
                       (mkVehicle (veh_id v) (veh_pumps v) VScan false (S (veh_i v))
                                  (veh_pump_id v)) g
                       eq_refl eq_refl Hpl eq_refl Hpid ltac:(lia)).
        cbn [veh_id] in IH.
        destruct (scan (veh_id v) (seq (S (veh_i v)) len) (pump_status g)) as [[pid st] |];
          destruct IH as (m & v' & Hm & Hrest); exists (2 + m)%nat, v';
          (split; [| exact Hrest]);
          rewrite Vehicle_steps_app, (scan_turn_not_free v g e) by (auto; lia);
          exact Hm.
    + eexists 2%nat, _. split; [apply (scan_turn_error v g); auto; lia | reflexivity].
Qed.

Lemma claimFreeSlot_run v g n0 :
  veh_at v = VAcquire -> veh_locked v = false -> PRINT_LOCK g = false ->
  PUMPS_SEMAPHORE g = S n0 ->
  match claimFreeSlot (veh_id v) (NUM_PUMPS g) (pump_status g) with
  | Some (pump_id, status') =>
      exists m v',
        Vehicle_steps m v g = Some (v', set_pump_status status' (set_semaphore n0 g)) /\
        veh_at v' = VSelect /\ veh_pump_id v' = pump_id /\ veh_locked v' = false
  | None =>
      exists m v',
        Vehicle_steps m v g = Some (v', set_semaphore n0 g) /\ veh_at v' = VRaised
  end.
Proof.
  intros Hat Hlk Hpl Hsem. unfold claimFreeSlot.
  pose proof (Vehicle_steps_scan (NUM_PUMPS g) 0
                (mkVehicle (veh_id v) (veh_pumps v) VScan false 0 (-1)) (set_semaphore n0 g)
                eq_refl eq_refl Hpl eq_refl eq_refl eq_refl) as H.
  cbn [veh_id pump_status set_semaphore] in H.
  assert (Hrun : Vehicle_run v g =
                 Some (mkVehicle (veh_id v) (veh_pumps v) VScan false 0 (-1),
                       set_semaphore n0 g))
    by (unfold Vehicle_run; rewrite Hat, Hsem, Hlk; reflexivity).
  destruct (scan (veh_id v) (seq 0 (NUM_PUMPS g)) (pump_status g)) as [[pid st] |];
    destruct H as (m & v' & Hm & Hrest); exists (S m), v';
    (split; [cbn [Vehicle_steps]; rewrite Hrun; exact Hm | exact Hrest]).
Qed.
(** The scan of one vehicle, interleaved with the other threads: every
    entry below its loop index is still not free, and the entry it is
    about to write (line 74) still passes the test of line 73, since the
    thread has held [PRINT_LOCK] from the test on. *)
Lemma scan_interleaved n max s k v :
  reachable (station n max) s -> threads s !! k = Some v ->
  (veh_at v = VScan -> none_free_below (veh_i v) (pump_status (globals s))) /\
  (veh_at v = VClaim ->
   none_free_below (veh_i v) (pump_status (globals s)) /\
   exists e, pump_status (globals s) !! veh_i v = Some e /\ is_free e = true) /\
  (veh_at v = VSelect -> veh_pump_id v = -1 ->
   none_free_below n (pump_status (globals s))).
Proof.
  intros Hr Hk. destruct (registry_inv_reachable _ _ _ Hr) as (_ & _ & _ & Hok & _).
  destruct (Hok k v Hk) as [_ H]. split; [| split]; intros Hat; rewrite Hat in H.
  - tauto.
  - tauto.
  - intros Hpid. destruct H as [[_ H] | (i & Hi & _)]; [exact H | lia].
Qed.

(** ** Entries that are not free stay so *)

Lemma step_not_free n a s s' (i : nat) e :
  registry_inv n s -> step a s = Some s' ->
  pump_status (globals s) !! i = Some e -> is_free e = false ->
  exists e', pump_status (globals s') !! i = Some e' /\ is_free e' = false.
Proof.
  intros (HN & Hlen & _ & Hok & _) Hstep He Hf.
  apply step_inv in Hstep as [[_ Hm] | [(k & v & v' & g' & _ & Hk & Hr & ->) | [_ ->]]].
  - apply StationManager_run_inv in Hm as ((_ & _ & _ & _ & Est) & _).
    rewrite Est. eauto.
  - destruct (Vehicle_run_registry n v (globals s) v' g' HN Hlen (Hok k v Hk) Hr)
      as (_ & _ & [[Est _] | [(j & e0 & _ & _ & _ & Est & _) | (j & _ & _ & Est & _)]]);
      cbn [globals]; rewrite Est; [eauto | ..];
      (destruct (decide (j = i)) as [-> | Hne];
       [ rewrite list_lookup_insert_eq by (eapply lookup_lt_Some; eauto)
       | rewrite list_lookup_insert_ne by exact Hne; eauto ]).
    + eexists. split; [reflexivity | apply is_free_status_taken].
    + eexists. split; [reflexivity | apply is_free_status_released].
  - eauto.
Qed.

Lemma exec_not_free n max schedule : forall s s' (i : nat) e,
  reachable (station n max) s -> exec schedule s = Some s' ->
  pump_status (globals s) !! i = Some e -> is_free e = false ->
  exists e', pump_status (globals s') !! i = Some e' /\ is_free e' = false.
Proof.
  induction schedule as [| a rest IH]; intros s s' i e Hr H He Hf; cbn in H.
  - injection H as <-. eauto.
  - destruct (step a s) as [s1 |] eqn:E; [| discriminate].
    destruct (step_not_free n a s s1 i e (registry_inv_reachable _ _ _ Hr) E He Hf)
      as (e1 & He1 & Hf1).
    apply (IH s1 s' i e1); try assumption. eapply reachable_step; eauto.
Qed.

Lemma step_threads_grow a s s' k v :
  step a s = Some s' -> threads s !! k = Some v ->
  exists v', threads s' !! k = Some v'.
Proof.
  intros Hstep Hk. apply lookup_lt_is_Some_2.
  apply lookup_lt_Some in Hk.
  apply step_inv in Hstep as [[_ Hm] | [(j & w & w' & g' & _ & Hj & Hr & ->) | [_ ->]]].
  - apply StationManager_run_inv in Hm as (_ & _ & [-> | [_ ->]]);
      [exact Hk | rewrite length_app; lia].
  - cbn. unfold threads in *. rewrite length_insert. exact Hk.
  - exact Hk.
Qed.

Lemma step_vehicle_count a s s' :
  step a s = Some s' -> VEHICLE_COUNT (globals s) <= VEHICLE_COUNT (globals s').
Proof.
  intros Hstep.
  apply step_inv in Hstep as [[_ Hm] | [(j & w & w' & g' & _ & Hj & Hr & ->) | [_ ->]]].
  - destruct s as [g m]. cbn in *. manager_step Hm; cbn; lia.
  - apply Vehicle_run_id in Hr as (_ & _ & Ec). cbn. lia.
  - cbn. lia.
Qed.

Lemma step_stop_commutes k s :
  step (Actor k) (stop s) = stop <$> step (Actor k) s.
Proof.
  unfold step. cbn.
  destruct (vehicle_threads (manager s) !! k) as [v |]; [| reflexivity].
  destruct (Vehicle_run v (globals s)) as [[v' g'] |]; reflexivity.
Qed.

(** * The claims *)

Lemma reachable_two_fueling : reachable main two_fueling.
Proof.
  apply (exec_reachable main stop_while_fueling main); [constructor |].
  vm_compute. reflexivity.
Qed.

Lemma reachable_one_paying : reachable main one_paying.
Proof.
  apply (exec_reachable main first_pays main); [constructor |].
  vm_compute. reflexivity.
Qed.

Lemma reachable_finished : reachable (station 3 1) finished.
Proof.
  apply (exec_reachable _ single_run (station 3 1)); [constructor |].
  vm_compute. reflexivity.
Qed.

Lemma reachable_fourth_scanned : reachable main fourth_scanned.
Proof.
  apply (exec_reachable main fourth_scans main); [constructor |].
  vm_compute. reflexivity.
Qed.


(** C1 (after a successful [acquire()] the scan always finds a free
    entry, so the branch of line 98 is never taken) does not hold of the
    program as shipped.  Three vehicles take the three pumps; the fourth
    waits at [acquire()]; the first one releases pump 1 and its pool slot;
    the fourth gets the slot, finds no entry that passes the test of line
    73, since pump 1 now carries its release line, and prints the error of
    line 98.  Never more than three pool slots are held on the way. *)
Theorem fourth_vehicle_finds_no_pump :
  exec (three_at_pumps ++ [Actor 3]%nat) main = None /\
  exists s,
    exec fourth_fails main = Some s /\
    forallb (fun s' => (count holds_pump_slot (threads s') <=? 3)%nat)
            (trace fourth_fails main) = true /\
    pump_status (globals s)
    = [status_released 1 1; status_taken 2 2; status_taken 3 3] /\
    PUMPS_SEMAPHORE (globals s) = 0%nat /\
    veh_at <$> threads s = [VPayWait; VTankSleep; VTankSleep; VReleaseErr] /\
    veh_pump_id <$> threads s = [1; 2; 3; -1] /\
    last (console (globals s)) = Some (ENoPump 4).
Proof.
  split; [vm_compute; reflexivity |].
  eexists. split; [vm_compute; reflexivity |].
  repeat split; vm_compute; reflexivity.
Qed.

(** C2.  Run without interruption on a registry of [n] entries, the scan
    of lines 70-76 claims the first entry that passes the test of line 73:
    it writes the Occupied line of the vehicle there, changes nothing
    else and yields the number of that pump ([i + 1], as line 75 has it);
    when no entry passes the test it yields [-1], which selects no pump,
    and the registry is as it was.  ([claimFreeSlot_run] shows that a
    vehicle thread left alone computes this function, [scan_interleaved]
    what it still knows when other threads move between its steps.) *)
Theorem claimFreeSlot_first_free vehicle_id n status :
  length status = n ->
  (forall (i : nat) e,
      status !! i = Some e -> is_free e = true -> none_free_below i status ->
      claimFreeSlot vehicle_id n status
      = Some (Z.of_nat i + 1,
              <[i := status_taken (Z.of_nat i + 1) vehicle_id]> status)) /\
  (none_free_below n status ->
   claimFreeSlot vehicle_id n status = Some (-1, status)).
Proof.
  intros Hlen. split.
  - intros i e He Hf Hbelow. unfold claimFreeSlot.
    apply (scan_seq_claims vehicle_id n 0 i status e); try assumption.
    + apply lookup_lt_Some in He. lia.
    + intros j e' Hj. apply Hbelow. lia.
  - intros Hnone. unfold claimFreeSlot.
    apply scan_seq_none; [lia |]. intros j e Hj. apply Hnone. lia.
Qed.

Lemma claimFreeSlot_first_free_witness :
  claimFreeSlot 7 3 [status_taken 1 5; status_free 2; status_free 3]
  = Some (2, [status_taken 1 5; status_taken 2 7; status_free 3]) /\
  claimFreeSlot 7 3 [status_taken 1 5; status_released 2 6; status_taken 3 4]
  = Some (-1, [status_taken 1 5; status_released 2 6; status_taken 3 4]).
Proof.
  split.
  - apply (proj1 (claimFreeSlot_first_free 7 3
                    [status_taken 1 5; status_free 2; status_free 3] eq_refl)
                 1%nat (status_free 2)).
    + reflexivity.
    + vm_compute. reflexivity.
    + intros [| j] e Hj He; [| lia]. injection He as <-. vm_compute. reflexivity.
  - apply (proj2 (claimFreeSlot_first_free 7 3
                    [status_taken 1 5; status_released 2 6; status_taken 3 4] eq_refl)).
    intros [| [| [| j]]] e Hj He; try lia; injection He as <-; vm_compute; reflexivity.
Defined.

(** C3.  In every state of every run at most one vehicle is inside the
    cashier's [with CASHIER_LOCK:] block: the count of paying vehicles is
    at most one, two paying vehicles are the same thread, and
    [CASHIER_BUSY] is set only while the lock is held. *)
Theorem one_vehicle_paying n max s :
  reachable (station n max) s ->
  (count Paying (threads s) <= 1)%nat /\
  (forall j k vj vk,
      threads s !! j = Some vj -> threads s !! k = Some vk ->
      Paying vj = true -> Paying vk = true -> j = k) /\
  (CASHIER_BUSY (globals s) = true -> CASHIER_LOCK (globals s) = true).
Proof.
  intros Hr. destruct (cashier_inv_reachable n max s Hr) as [Hlock Hbusy].
  assert (Hone : (count Paying (threads s) <= 1)%nat)
    by (rewrite Hlock; destruct (CASHIER_LOCK (globals s)); unfold Nat.b2n; lia).
  split; [exact Hone |]. split.
  - intros j k vj vk Hj Hk Pj Pk.
    exact (count_one_unique Paying (threads s) j k vj vk Hone Hj Hk Pj Pk).
  - intros Hb. rewrite Hb in Hbusy.
    pose proof (count_le marked_busy Paying (threads s) marked_busy_Paying) as Hle.
    destruct (CASHIER_LOCK (globals s)); [reflexivity |].
    unfold Nat.b2n in *. lia.
Qed.

Lemma one_vehicle_paying_witness :
  reachable main one_paying /\ (count Paying (threads one_paying) <= 1)%nat.
Proof.
  split; [exact reachable_one_paying |].
  exact (proj1 (one_vehicle_paying 3 10 one_paying reachable_one_paying)).
Defined.

(** C4.  In every state of every run the vehicles between the selection of
    a pump and the return of the pool slot, and more generally the
    vehicles holding a permit of [PUMPS_SEMAPHORE], are at most
    [NUM_PUMPS]; permits left and permits held never add up to more. *)
Theorem fueling_bounded_by_pumps n max s :
  reachable (station n max) s ->
  NUM_PUMPS (globals s) = n /\
  (count Fueling (threads s) <= n)%nat /\
  (count holds_pump_slot (threads s) <= n)%nat /\
  (PUMPS_SEMAPHORE (globals s) + count holds_pump_slot (threads s) <= n)%nat.
Proof.
  intros Hr. destruct (pump_inv_reachable n max s Hr) as [HN Hsem].
  pose proof (count_le Fueling holds_pump_slot (threads s) Fueling_holds_pump_slot).
  repeat split; [exact HN | lia | lia | exact Hsem].
Qed.

Lemma fueling_bounded_by_pumps_witness :
  reachable main two_fueling /\ (count Fueling (threads two_fueling) <= 3)%nat.
Proof.
  split; [exact reachable_two_fueling |].
  exact (proj1 (proj2 (fueling_bounded_by_pumps 3 10 two_fueling reachable_two_fueling))).
Defined.

(** C5.  In every state of every run the vehicle at position [k] of
    [vehicle_threads] carries the id [k + 1]: ids start at 1, grow strictly
    with the order of spawning, are pairwise different, never exceed the
    counter, and a step neither lowers the counter nor changes the id of a
    vehicle already spawned. *)
Theorem arrival_ids_sequential n max s :
  reachable (station n max) s ->
  (forall k v, threads s !! k = Some v -> veh_id v = Z.of_nat k + 1) /\
  (forall j k vj vk,
      threads s !! j = Some vj -> threads s !! k = Some vk ->
      (j < k)%nat -> veh_id vj < veh_id vk) /\
  NoDup (veh_id <$> threads s) /\
  (forall k v, threads s !! k = Some v -> 1 <= veh_id v <= VEHICLE_COUNT (globals s)) /\
  (forall a s' k v,
      step a s = Some s' -> threads s !! k = Some v ->
      VEHICLE_COUNT (globals s) <= VEHICLE_COUNT (globals s') /\
      exists v', threads s' !! k = Some v' /\ veh_id v' = veh_id v).
Proof.
  intros Hr. destruct (ids_inv_reachable n max s Hr) as [Hid Hcount].
  split; [exact Hid |]. split; [| split; [| split]].
  - intros j k vj vk Hj Hk Hlt. rewrite (Hid j vj Hj), (Hid k vk Hk). lia.
  - apply NoDup_alt. intros j k x Hj Hk.
    rewrite list_lookup_fmap in Hj, Hk.
    apply fmap_Some in Hj as (vj & Hj & ->). apply fmap_Some in Hk as (vk & Hk & E).
    rewrite (Hid j vj Hj), (Hid k vk Hk) in E. lia.
  - intros k v Hk. rewrite (Hid k v Hk), Hcount.
    apply lookup_lt_Some in Hk. destruct (mgr_at (manager s)); lia.
  - intros a s' k v Hstep Hk. split; [exact (step_vehicle_count a s s' Hstep) |].
    destruct (step_threads_grow a s s' k v Hstep Hk) as [v' Hk'].
    exists v'. split; [exact Hk' |].
    destruct (ids_inv_reachable n max s' (reachable_step _ a s s' Hr Hstep)) as [Hid' _].
    rewrite (Hid' k v' Hk'), (Hid k v Hk). reflexivity.
Qed.

Lemma arrival_ids_sequential_witness :
  reachable main two_fueling /\ NoDup (veh_id <$> threads two_fueling).
Proof.
  split; [exact reachable_two_fueling |].
  exact (proj1 (proj2 (proj2 (arrival_ids_sequential 3 10 two_fueling
                                reachable_two_fueling)))).
Defined.

(** The order of lines 89 and 91, the part of C6 that holds.  The step of
    line 89 writes the release line and leaves the semaphore alone; a
    vehicle about to run line 91 finds the release line already written on
    its pump; and an entry that shows Occupied always belongs to a vehicle
    that still holds its pool slot, so capacity is never back while the
    entry shows Occupied. *)
Theorem registry_released_before_pool n max s :
  reachable (station n max) s ->
  (forall k v s',
      threads s !! k = Some v -> veh_at v = VFreePump -> veh_locked v = true ->
      step (Actor k) s = Some s' ->
      threads s' !! k = Some (set_locked false (goto VReleaseOk v)) /\
      freed (pump_status (globals s')) v /\
      PUMPS_SEMAPHORE (globals s') = PUMPS_SEMAPHORE (globals s)) /\
  (forall k v,
      threads s !! k = Some v -> veh_at v = VReleaseOk ->
      freed (pump_status (globals s)) v) /\
  (forall (i : nat) w,
      pump_status (globals s) !! i = Some (status_taken (Z.of_nat i + 1) w) ->
      exists k v,
        threads s !! k = Some v /\ veh_pump_id v = Z.of_nat i + 1 /\
        owns (pump_status (globals s)) v /\ holds_pump_slot v = true).
Proof.
  intros Hr.
  destruct (registry_inv_reachable n max s Hr) as (HN & Hlen & _ & Hok & _ & Hentry).
  split; [| split].
  - intros k v s' Hk Hat Hlk Hstep.
    destruct (Hok k v Hk) as [_ Hv]. rewrite Hat in Hv.
    destruct Hv as (i & Hi & Hl). pose proof (lookup_lt_Some _ _ _ Hl) as Hlt.
    unfold step in Hstep. unfold threads in Hk. rewrite Hk in Hstep.
    unfold Vehicle_run, leave_PRINT_LOCK in Hstep.
    rewrite Hat, Hlk, Hi, (py_index_in_range _ i Hlt) in Hstep.
    injection Hstep as <-. cbn. split; [| split; [| reflexivity]].
    + apply list_lookup_insert_eq. eapply lookup_lt_Some; eauto.
    + exists i. split; [exact Hi |]. rewrite <- Hi.
      apply list_lookup_insert_eq. exact Hlt.
  - intros k v Hk Hat. destruct (Hok k v Hk) as [_ Hv]. rewrite Hat in Hv. exact Hv.
  - intros i w Hl. destruct (Hentry _ _ Hl) as [E | (k & v & Hk & Hp)].
    + pose proof (is_free_status_taken (Z.of_nat i + 1) w) as Hf.
      rewrite E, is_free_status_free in Hf. discriminate Hf.
    + exists k, v. split; [exact Hk |]. split; [exact Hp |].
      assert (Hown : owns (pump_status (globals s)) v).
      { destruct (vehicle_ok_claimed _ _ _ (Hok k v Hk)) as [Ho | (j & Hj & Hl')];
          [lia | exact Ho |].
        assert (j = i) as -> by lia. rewrite Hl in Hl'.
        exfalso. apply (status_taken_not_released (Z.of_nat i + 1) w
                                                  (Z.of_nat i + 1) (veh_id v)).
        congruence. }
      split; [exact Hown | exact (owns_holds_pump_slot _ _ _ (Hok k v Hk) Hown)].
Qed.

Lemma registry_released_before_pool_witness :
  reachable main two_fueling /\
  exists k v,
    threads two_fueling !! k = Some v /\ veh_pump_id v = Z.of_nat 1 + 1 /\
    owns (pump_status (globals two_fueling)) v /\ holds_pump_slot v = true.
Proof.
  split; [exact reachable_two_fueling |].
  apply (proj2 (proj2 (registry_released_before_pool 3 10 two_fueling
                         reachable_two_fueling)) 1%nat 2).
  vm_compute. reflexivity.
Defined.

(** C6 (the entry is set back to Free before the pool slot is returned)
    does not hold of the program as shipped.  Lines 89 and 91 do run in
    this order, but line 89 does not set the entry back to Free: it writes
    [D{n}: Wolny (zwolniony przez V{id})], which fails the test of line
    73.  Three vehicles fuel at the three pumps; the first one runs line
    89, then line 91: the semaphore is back at 1 and no entry of the
    registry is Free, so a scan for the vehicle that takes the permit
    finds nothing.  The same holds of every release of every run: the
    step of line 91 returns a permit while the entry of the pump fails
    the test, and it fails it ever after. *)
Theorem released_entry_is_not_free :
  (exists s5 s6,
     exec first_releases_entry main = Some s5 /\
     exec first_releases main = Some s6 /\
     step (Actor 0) s5 = Some s6 /\
     veh_at <$> threads s5 = [VReleaseOk; VTankSleep; VTankSleep; VAcquire] /\
     pump_status (globals s5)
     = [status_released 1 1; status_taken 2 2; status_taken 3 3] /\
     PUMPS_SEMAPHORE (globals s5) = 0%nat /\
     veh_at <$> threads s6 = [VPayWait; VTankSleep; VTankSleep; VAcquire] /\
     PUMPS_SEMAPHORE (globals s6) = 1%nat /\
     pump_status (globals s6) = pump_status (globals s5) /\
     is_free <$> pump_status (globals s6) = [false; false; false] /\
     claimFreeSlot 4 3 (pump_status (globals s6))
     = Some (-1, pump_status (globals s6))) /\
  (forall n max s k v s',
     reachable (station n max) s ->
     threads s !! k = Some v -> veh_at v = VReleaseOk ->
     step (Actor k) s = Some s' ->
     PUMPS_SEMAPHORE (globals s') = S (PUMPS_SEMAPHORE (globals s)) /\
     exists (i : nat) e,
       veh_pump_id v = Z.of_nat i + 1 /\
       pump_status (globals s') !! i = Some e /\
       e = status_released (Z.of_nat i + 1) (veh_id v) /\
       is_free e = false /\
       forall schedule s'',
         exec schedule s' = Some s'' ->
         exists e', pump_status (globals s'') !! i = Some e' /\ is_free e' = false).
Proof.
  split.
  - eexists. eexists.
    split; [vm_compute; reflexivity |].
    split; [vm_compute; reflexivity |].
    vm_compute. repeat split; reflexivity.
  - intros n max s k v s' Hr Hk Hat Hstep.
    pose proof (reachable_step _ _ _ _ Hr Hstep) as Hr'.
    destruct (registry_inv_reachable n max s Hr) as (_ & _ & _ & Hok & _).
    destruct (Hok k v Hk) as [_ Hv]. rewrite Hat in Hv.
    destruct Hv as (i & Hi & Hl).
    unfold step in Hstep. unfold threads in Hk. rewrite Hk in Hstep.
    unfold Vehicle_run in Hstep. rewrite Hat in Hstep.
    injection Hstep as <-. cbn [globals PUMPS_SEMAPHORE set_semaphore pump_status].
    split; [reflexivity |].
    exists i, (status_released (Z.of_nat i + 1) (veh_id v)).
    split; [exact Hi |]. split; [exact Hl |]. split; [reflexivity |].
    split; [apply is_free_status_released |].
    intros schedule s'' He.
    eapply (exec_not_free n max schedule _ s'' i); [exact Hr' | exact He | exact Hl |].
    apply is_free_status_released.
Qed.



(** C8, as the code has it.  The start control never rejects a
    configuration: it replaces a pump count or a vehicle maximum below 1
    by 1 and starts the run with the values so obtained, which are both
    at least 1. *)
Theorem start_simulation_clamps pumps_var max_var :
  exists s,
    start_simulation pumps_var max_var None = Some s /\
    s = station (Z.to_nat (Z.max 1 pumps_var)) (Z.max 1 max_var) /\
    Z.of_nat (NUM_PUMPS (globals s)) = Z.max 1 pumps_var /\
    max_vehicles (manager s) = Z.max 1 max_var /\
    (1 <= NUM_PUMPS (globals s))%nat /\
    1 <= max_vehicles (manager s) /\
    mgr_at (manager s) = MBegin.
Proof.
  eexists. split; [reflexivity |]. split; [reflexivity |]. cbn.
  repeat split; lia.
Qed.

(** C8 as stated fails: with no pump and a negative maximum in the entry
    fields the run is started all the same (with one pump and one
    vehicle), and its supervisor spawns a vehicle. *)
Lemma nonpositive_configuration_is_started :
  start_simulation 0 (-5) None = Some (station 1 1) /\
  option_map (fun s => veh_id <$> threads s)
             (exec (repeat Supervisor 6) (station 1 1)) = Some [1].
Proof. split; vm_compute; reflexivity. Qed.

(** C9.  (1) The loop test of line 117 that sees [running = False] leaves
    the loop without spawning.  (2) Once the supervisor is out of the
    loop, no schedule adds a vehicle thread.  (3) The stop request changes
    nothing but the flag, and a vehicle step is the same with and without
    it, so no running vehicle is interrupted.  (4) The run is declared
    complete (line 134) only when every spawned vehicle has ended. *)
Theorem stop_drains n max s :
  reachable (station n max) s ->
  (mgr_at (manager s) = MLoop -> running (manager s) = false ->
   exists s',
     step Supervisor s = Some s' /\ mgr_at (manager s') = MDrain /\
     threads s' = threads s) /\
  (draining (manager s) = true ->
   forall schedule s',
     exec schedule s = Some s' ->
     draining (manager s') = true /\ length (threads s') = length (threads s)) /\
  (threads (stop s) = threads s /\ globals (stop s) = globals s /\
   running (manager (stop s)) = false /\
   forall k, step (Actor k) (stop s) = stop <$> step (Actor k) s) /\
  (In EFinished (console (globals s)) \/ mgr_at (manager s) = MEnd
   \/ mgr_at (manager s) = MReturned ->
   forall k v, threads s !! k = Some v -> terminated v = true).
Proof.
  intros Hr. split; [| split; [| split]].
  - intros Hat Hrun. unfold step, StationManager_run. rewrite Hat, Hrun.
    rewrite andb_false_r. eexists. split; [reflexivity |]. split; reflexivity.
  - intros Hd schedule s' Hexec. exact (exec_draining schedule s s' Hexec Hd).
  - repeat split. intros k. apply step_stop_commutes.
  - intros Hend k v Hk. destruct (join_inv_reachable n max s Hr) as [Hjoin Hfin].
    specialize (Hjoin k v Hk).
    destruct Hend as [Hin | [E | E]]; [rewrite (Hfin Hin) in Hjoin | rewrite E in Hjoin ..];
      exact Hjoin.
Qed.

Lemma stop_drains_witness :
  (reachable (station 3 1) finished /\
   forall k v, threads finished !! k = Some v -> terminated v = true) /\
  (reachable main two_fueling /\
   forall s', exec [Actor 0; Actor 1; Supervisor]%nat two_fueling = Some s' ->
              draining (manager s') = true /\
              length (threads s') = length (threads two_fueling)).
Proof.
  split; (split; [first [exact reachable_finished | exact reachable_two_fueling] |]).
  - apply (proj2 (proj2 (proj2 (stop_drains 3 1 finished reachable_finished)))).
    left. vm_compute. tauto.
  - apply (proj1 (proj2 (stop_drains 3 10 two_fueling reachable_two_fueling))).
    vm_compute. reflexivity.
Defined.

(** C10.  Within a run a pump is claimed at most once.  The release line
    and the Occupied line fail the test of line 73 and only the initial
    line passes it; no two vehicles of a run were ever given the same
    pump; an entry that passes the test still holds its initial line and
    its pump was given to nobody; an entry that fails the test fails it
    in every later state. *)
Theorem pump_claimed_at_most_once n max s :
  reachable (station n max) s ->
  (forall p v,
      is_free (status_released p v) = false /\
      is_free (status_taken p v) = false /\
      is_free (status_free p) = true) /\
  (forall j k vj vk,
      threads s !! j = Some vj -> threads s !! k = Some vk ->
      veh_pump_id vj = veh_pump_id vk -> veh_pump_id vj <> -1 -> j = k) /\
  (forall (i : nat) e,
      pump_status (globals s) !! i = Some e -> is_free e = true ->
      e = status_free (Z.of_nat i + 1) /\
      forall k v, threads s !! k = Some v -> veh_pump_id v <> Z.of_nat i + 1) /\
  (forall (i : nat) e schedule s',
      pump_status (globals s) !! i = Some e -> is_free e = false ->
      exec schedule s = Some s' ->
      exists e', pump_status (globals s') !! i = Some e' /\ is_free e' = false).
Proof.
  intros Hr.
  destruct (registry_inv_reachable n max s Hr) as (_ & _ & _ & Hok & Huniq & Hentry).
  assert (Hnobody : forall (i : nat) e k v,
             pump_status (globals s) !! i = Some e -> is_free e = true ->
             threads s !! k = Some v -> veh_pump_id v <> Z.of_nat i + 1).
  { intros i e k v He Hf Hk Hp.
    assert (is_free e = false); [| congruence].
    destruct (vehicle_ok_claimed _ _ _ (Hok k v Hk)) as [Ho | Ho]; [lia | ..].
    - eapply owns_not_free; eauto.
    - eapply freed_not_free; eauto. }
  split; [| split; [exact Huniq | split]].
  - intros p v. split; [apply is_free_status_released |].
    split; [apply is_free_status_taken | apply is_free_status_free].
  - intros i e He Hf. split; [| intros k v; exact (Hnobody i e k v He Hf)].
    destruct (Hentry i e He) as [E | (k & v & Hk & Hp)]; [exact E |].
    exfalso. exact (Hnobody i e k v He Hf Hk Hp).
  - intros i e schedule s' He Hf Hexec.
    exact (exec_not_free n max schedule s s' i e Hr Hexec He Hf).
Qed.

Lemma pump_claimed_at_most_once_witness :
  reachable main two_fueling /\
  status_free 3 = status_free (Z.of_nat 2 + 1) /\
  forall k v, threads two_fueling !! k = Some v -> veh_pump_id v <> Z.of_nat 2 + 1.
Proof.
  split; [exact reachable_two_fueling |].
  apply (proj1 (proj2 (proj2 (pump_claimed_at_most_once 3 10 two_fueling
                                reachable_two_fueling))) 2%nat (status_free 3)).
  - vm_compute. reflexivity.
  - vm_compute. reflexivity.
Defined.

(** * Further properties of the program *)

Lemma count_zero {A} (P : A -> bool) (l : list A) k x :
  count P l = 0%nat -> l !! k = Some x -> P x = false.
Proof.
  intros Hc Hk. destruct (P x) eqn:E; [| reflexivity].
  pose proof (count_pos P l k x Hk E). lia.
Qed.

Lemma count_exists {A} (P : A -> bool) (l : list A) :
  (0 < count P l)%nat -> exists k x, l !! k = Some x /\ P x = true.
Proof.
  induction l as [| a l IH]; simpl; [lia |]. intros H.
  destruct (P a) eqn:E.
  - exists 0%nat, a. split; [reflexivity | exact E].
  - unfold Nat.b2n in H. destruct IH as (k & x & Hk & Hx); [lia |].
    exists (S k), x. split; assumption.
Qed.

(** X2.  No vehicle thread is ever left by an exception: the subscripts
    [pump_status[i]] (lines 73-74) and [pump_status[pump_id - 1]] (line 89)
    are always inside the list, whose length stays [NUM_PUMPS]. *)
Theorem no_vehicle_raises n max s :
  reachable (station n max) s ->
  length (pump_status (globals s)) = n /\
  NUM_PUMPS (globals s) = n /\
  (forall k v, threads s !! k = Some v -> veh_at v <> VRaised) /\
  (forall k v,
      threads s !! k = Some v -> veh_at v = VFreePump ->
      exists i : nat, py_index (pump_status (globals s)) (veh_pump_id v - 1) = Some i /\
                      (i < n)%nat).
Proof.
  intros Hr. destruct (registry_inv_reachable n max s Hr) as (HN & Hlen & _ & Hok & _).
  split; [exact Hlen |]. split; [exact HN |]. split.
  - intros k v Hk Hat. destruct (Hok k v Hk) as [_ H]. rewrite Hat in H. exact H.
  - intros k v Hk Hat. destruct (Hok k v Hk) as [_ H]. rewrite Hat in H.
    destruct H as (i & Hi & Hl). apply lookup_lt_Some in Hl. exists i.
    rewrite Hi, py_index_in_range by exact Hl. split; [reflexivity | lia].
Qed.

Lemma no_vehicle_raises_witness :
  reachable main two_fueling /\
  forall k v, threads two_fueling !! k = Some v -> veh_at v <> VRaised.
Proof.
  split; [exact reachable_two_fueling |].
  exact (proj1 (proj2 (proj2 (no_vehicle_raises 3 10 two_fueling reachable_two_fueling)))).
Defined.

(** ** Where [PRINT_LOCK] is held *)

Lemma Vehicle_run_lock_points n v g v' g' :
  NUM_PUMPS g = n ->
  (veh_locked v = true ->
   prints_at (veh_at v) = true /\ (veh_at v = VScan -> (veh_i v < n)%nat)) ->
  Vehicle_run v g = Some (v', g') ->
  veh_locked v' = true ->
  prints_at (veh_at v') = true /\ (veh_at v' = VScan -> (veh_i v' < n)%nat).
Proof.
  intros HN Hv H. subst n. vehicle_step H; cbn in Hv; intros Hl;
    try discriminate Hl;
    try (destruct (Hv eq_refl) as [Hp Hi]; try discriminate Hp);
    try solve [exfalso; specialize (Hi eq_refl); lia];
    (split; [reflexivity | intros; auto; try congruence]).
Qed.

Lemma lock_points_inv_reachable n max s :
  reachable (station n max) s -> lock_points_inv n s.
Proof.
  induction 1 as [| a s s' Hs IH Hstep].
  - split; [intros k v Hk; discriminate Hk | intros H; discriminate H].
  - destruct IH as [Hv Hm'].
    destruct (pump_inv_reachable n max s Hs) as [HN _].
    apply step_inv in Hstep as [[_ Hm] | [(k & v & v' & g' & _ & Hk & Hr & ->) | [_ ->]]].
    + split.
      * apply StationManager_run_inv in Hm as (_ & _ & [-> | [_ ->]]); [exact Hv |].
        intros k v Hk. apply lookup_app_Some in Hk as [Hk | [_ Hk]]; [eauto |].
        apply list_lookup_singleton_Some in Hk as [_ <-]. intros H. discriminate H.
      * destruct s as [g m]. cbn in *. manager_step Hm; cbn in *; manager_at;
          intros; try reflexivity; try discriminate; auto.
    + split; [| exact Hm']. intros j w Hj. unfold threads in *. cbn in Hj.
      destruct (decide (k = j)) as [<- | Hne].
      * rewrite list_lookup_insert_eq in Hj by (eapply lookup_lt_Some; eauto).
        injection Hj as <-. exact (Vehicle_run_lock_points n v _ _ _ HN (Hv k v Hk) Hr).
      * rewrite list_lookup_insert_ne in Hj by exact Hne. eauto.
    + split; assumption.
Qed.

(** ** The semaphore accounts for every permit *)

Lemma Vehicle_run_semaphore_eq v g v' g' :
  Vehicle_run v g = Some (v', g') -> veh_at v' <> VRaised ->
  (PUMPS_SEMAPHORE g' + Nat.b2n (holds_pump_slot v')
   = PUMPS_SEMAPHORE g + Nat.b2n (holds_pump_slot v))%nat.
Proof.
  intros H. vehicle_step H; intros Hne; try congruence; unfold Nat.b2n; lia.
Qed.

Lemma semaphore_eq_reachable n max s :
  reachable (station n max) s ->
  (PUMPS_SEMAPHORE (globals s) + count holds_pump_slot (threads s) = n)%nat.
Proof.
  induction 1 as [| a s s' Hs IH Hstep].
  - cbn. lia.
  - pose proof (reachable_step _ _ _ _ Hs Hstep) as Hs'.
    destruct (registry_inv_reachable n max s' Hs') as (_ & _ & _ & Hok & _).
    apply step_inv in Hstep as [[_ Hm] | [(k & v & v' & g' & _ & Hk & Hr & ->) | [_ ->]]].
    + apply StationManager_run_inv in Hm as ((_ & Es & _) & _ & [Et | [_ Et]]);
        rewrite Es, Et; [exact IH |].
      rewrite count_app. cbn. unfold Nat.b2n. lia.
    + assert (Hne : veh_at v' <> VRaised).
      { assert (Hk' : threads (mkStation g' (set_threads (<[k := v']> (threads s)) (manager s)))
                      !! k = Some v').
        { unfold threads. cbn. apply list_lookup_insert_eq. eapply lookup_lt_Some; eauto. }
        destruct (Hok k v' Hk') as [_ H]. intros E. rewrite E in H. exact H. }
      pose proof (Vehicle_run_semaphore_eq _ _ _ _ Hr Hne).
      cbn [globals manager threads set_threads vehicle_threads].
      pose proof (count_insert holds_pump_slot (threads s) k v v' Hk). lia.
    + exact IH.
Qed.

(** X3.  [PUMPS_SEMAPHORE] (lines 9, 67, 91, 99) loses no permit and gains
    none: its value and the number of vehicles between [acquire()] and
    [release()] add up to [NUM_PUMPS] in every state, so a vehicle waits
    at line 67 only while [NUM_PUMPS] others are between the two calls,
    and the value never exceeds [NUM_PUMPS]. *)
Theorem semaphore_conserved n max s :
  reachable (station n max) s ->
  (PUMPS_SEMAPHORE (globals s) + count holds_pump_slot (threads s) = n)%nat /\
  (PUMPS_SEMAPHORE (globals s) <= n)%nat /\
  (forall k v, threads s !! k = Some v -> veh_at v = VAcquire ->
               step (Actor k) s = None ->
               count holds_pump_slot (threads s) = n).
Proof.
  intros Hr. pose proof (semaphore_eq_reachable n max s Hr) as Heq.
  split; [exact Heq |]. split; [lia |].
  intros k v Hk Hat Hstep. unfold step, threads in *. rewrite Hk in Hstep.
  unfold Vehicle_run in Hstep. rewrite Hat in Hstep.
  destruct (PUMPS_SEMAPHORE (globals s)); [lia | discriminate].
Qed.

Lemma semaphore_conserved_witness :
  reachable main fourth_scanned /\
  (PUMPS_SEMAPHORE (globals fourth_scanned)
   + count holds_pump_slot (threads fourth_scanned) = 3)%nat.
Proof.
  split; [exact reachable_fourth_scanned |].
  exact (proj1 (semaphore_conserved 3 10 fourth_scanned reachable_fourth_scanned)).
Defined.

(** ** The end of a run *)

Lemma terminated_returned v :
  terminated v = true -> veh_at v <> VRaised -> veh_at v = VReturned.
Proof. destruct v as [? ? [] ? ? ?]; cbn; congruence. Qed.

Lemma count_all_false {A} (P : A -> bool) (l : list A) :
  (forall k x, l !! k = Some x -> P x = false) -> count P l = 0%nat.
Proof.
  induction l as [| a l IH]; intros H; [reflexivity |]. cbn.
  rewrite (H 0%nat a eq_refl), IH; [reflexivity |].
  intros k x Hk. exact (H (S k) x Hk).
Qed.

Lemma all_returned n max s :
  reachable (station n max) s ->
  mgr_at (manager s) = MEnd \/ mgr_at (manager s) = MReturned ->
  forall k v, threads s !! k = Some v -> veh_at v = VReturned.
Proof.
  intros Hr Hat k v Hk.
  destruct (join_inv_reachable n max s Hr) as [Hj _].
  destruct (registry_inv_reachable n max s Hr) as (_ & _ & _ & Hok & _).
  apply terminated_returned.
  - specialize (Hj k v Hk). destruct Hat as [E | E]; rewrite E in Hj; exact Hj.
  - destruct (Hok k v Hk) as [_ H]. intros E. rewrite E in H. exact H.
Qed.

Lemma quiet_at_return n max s :
  reachable (station n max) s ->
  mgr_at (manager s) = MReturned ->
  PUMPS_SEMAPHORE (globals s) = n /\
  CASHIER_LOCK (globals s) = false /\
  CASHIER_BUSY (globals s) = false /\
  PRINT_LOCK (globals s) = false.
Proof.
  intros Hr Hat.
  pose proof (all_returned n max s Hr (or_intror Hat)) as Hall.
  pose proof (semaphore_eq_reachable n max s Hr) as Hsem.
  destruct (cashier_inv_reachable n max s Hr) as [Hl Hb].
  destruct (print_lock_inv_reachable n max s Hr) as [Hp _].
  destruct (lock_points_inv_reachable n max s Hr) as [Hv Hm].
  rewrite count_all_false in Hsem, Hl, Hb;
    try (intros k v Hk; unfold holds_pump_slot, Paying, marked_busy;
         rewrite (Hall k v Hk); reflexivity).
  rewrite count_all_false in Hp.
  2:{ intros k v Hk. destruct (veh_locked v) eqn:E; [| reflexivity].
      destruct (Hv k v Hk E) as [H _]. rewrite (Hall k v Hk) in H. discriminate H. }
  destruct (mgr_locked (manager s)) eqn:E.
  { specialize (Hm eq_refl). rewrite Hat in Hm. discriminate Hm. }
  split; [lia |].
  destruct (CASHIER_LOCK (globals s)), (CASHIER_BUSY (globals s)), (PRINT_LOCK (globals s));
    cbn in *; try discriminate; auto.
Qed.



(** ** How many vehicles are spawned *)

Lemma spawn_inv_reachable n max s :
  reachable (station n max) s -> spawn_inv max s.
Proof.
  induction 1 as [| a s s' Hs IH Hstep].
  - unfold spawn_inv. cbn. split; [reflexivity |]. split; [lia |].
    split; [lia | intros _ H; discriminate H].
  - apply step_inv in Hstep as [[_ Hm] | [(k & v & v' & g' & _ & Hk & Hr & ->) | [_ ->]]].
    + destruct s as [g m]. unfold spawn_inv in *. cbn in *.
      destruct IH as (Hmax & H0 & Hpc & Hrun).
      manager_step Hm; cbn in *; manager_at; cbn;
        repeat match goal with
               | H : _ && _ = true |- _ => apply andb_prop in H as [? ?]
               | H : _ && _ = false |- _ => apply andb_false_iff in H as [? | ?]
               | H : (_ <? _) = true |- _ => apply Z.ltb_lt in H
               | H : (_ <? _) = false |- _ => apply Z.ltb_ge in H
               end;
        (split; [reflexivity |]); (split; [lia |]);
        (split; [try lia | intros; try discriminate; try congruence; try lia; auto]).
      all: apply Hrun; [assumption | unfold draining; manager_at; reflexivity].
    + apply Vehicle_run_id in Hr as (_ & _ & Ec).
      unfold spawn_inv in *. cbn. rewrite Ec. exact IH.
    + unfold spawn_inv in *. cbn. destruct IH as (Hmax & H0 & Hpc & _).
      split; [exact Hmax |]. split; [exact H0 |]. split; [exact Hpc |].
      intros H. discriminate H.
Qed.

Lemma threads_counted n max s :
  reachable (station n max) s ->
  Z.of_nat (length (threads s)) <= VEHICLE_COUNT (globals s) /\
  (mgr_at (manager s) <> MSpawn ->
   Z.of_nat (length (threads s)) = VEHICLE_COUNT (globals s)).
Proof.
  intros Hr. destruct (ids_inv_reachable n max s Hr) as [_ Hc].
  destruct (mgr_at (manager s)); split; try lia; congruence.
Qed.

(** X5.  The loop of lines 117-126 spawns at most [max_vehicles] vehicles
    (none when [max_vehicles] is not positive): neither [VEHICLE_COUNT]
    nor the number of vehicle threads ever exceeds it; and a supervisor
    that leaves the loop without having been told to stop has spawned
    exactly [max_vehicles] of them. *)
Theorem spawns_bounded_by_max_vehicles n max s :
  reachable (station n max) s ->
  max_vehicles (manager s) = max /\
  0 <= VEHICLE_COUNT (globals s) <= Z.max 0 max /\
  Z.of_nat (length (threads s)) <= Z.max 0 max /\
  (max <= 0 -> threads s = []) /\
  (running (manager s) = true -> draining (manager s) = true ->
   Z.of_nat (length (threads s)) = Z.max 0 max).
Proof.
  intros Hr. destruct (spawn_inv_reachable n max s Hr) as (Hmax & H0 & Hpc & Hrun).
  destruct (threads_counted n max s Hr) as [Hle Heq].
  assert (Hc : VEHICLE_COUNT (globals s) <= Z.max 0 max)
    by (destruct (mgr_at (manager s)); lia).
  split; [exact Hmax |]. split; [lia |]. split; [lia |]. split.
  - intros Hneg. destruct (threads s); [reflexivity | cbn in Hle; lia].
  - intros Hrunning Hd. specialize (Hrun Hrunning Hd).
    rewrite Heq; [lia |]. intros E. unfold draining in Hd. rewrite E in Hd. discriminate Hd.
Qed.

Lemma spawns_bounded_by_max_vehicles_witness :
  reachable (station 3 1) finished /\
  Z.of_nat (length (threads finished)) = Z.max 0 1.
Proof.
  split; [exact reachable_finished |].
  exact (proj2 (proj2 (proj2 (proj2
           (spawns_bounded_by_max_vehicles 3 1 finished reachable_finished))))
           eq_refl eq_refl).
Defined.

(** X6.  What [poll_log] of [gui.py] (lines 80-96) shows for a run started
    from the window: while the supervisor is alive the status reads
    [Running (current/max_veh)] with [0 <= current <= max_veh], [max_veh]
    being the clamped entry, and the progress bar is set to the same two
    numbers, so it never runs past its maximum; the bare [Running] of line
    93 is never shown; [Stopped] is shown exactly when the supervisor has
    returned, and then the bar is left as it was. *)
Theorem poll_log_progress pumps_var max_var s0 s progress :
  start_simulation pumps_var max_var None = Some s0 ->
  reachable s0 s ->
  let max_veh := Z.max 1 max_var in
  (is_alive (manager s) = true ->
   exists current,
     poll_log (Some s) progress
     = (RunningOf current max_veh, mkProgressbar max_veh current) /\
     current = VEHICLE_COUNT (globals s) /\
     Z.of_nat (length (threads s)) <= current /\
     0 <= current <= max_veh) /\
  (is_alive (manager s) = false ->
   poll_log (Some s) progress = (Stopped, progress)) /\
  fst (poll_log (Some s) progress) <> Running.
Proof.
  intros Hstart Hr max_veh. injection Hstart as <-.
  destruct (spawn_inv_reachable _ _ s Hr) as (Hmax & H0 & Hpc & _).
  destruct (threads_counted _ _ s Hr) as [Hle _].
  assert (Hc : VEHICLE_COUNT (globals s) <= max_veh).
  { unfold max_veh. destruct (mgr_at (manager s)); lia. }
  assert (Hnz : (max_vehicles (manager s) =? 0) = false).
  { apply Z.eqb_neq. rewrite Hmax. lia. }
  unfold poll_log. rewrite Hnz, Hmax. fold max_veh.
  split; [| split].
  - intros ->. eexists. split; [reflexivity |]. split; [reflexivity |]. lia.
  - intros ->. reflexivity.
  - destruct (is_alive (manager s)); cbn; discriminate.
Qed.

Lemma poll_log_progress_witness :
  start_simulation 3 10 None = Some main /\ reachable main two_fueling /\
  fst (poll_log (Some two_fueling) (mkProgressbar 100 0)) <> Running.
Proof.
  split; [reflexivity |]. split; [exact reachable_two_fueling |].
  exact (proj2 (proj2 (poll_log_progress 3 10 main two_fueling (mkProgressbar 100 0)
                         eq_refl reachable_two_fueling))).
Defined.

(** ** A stop request in the middle of an iteration *)

Lemma step_after_stop a s s' :
  running (manager s) = false -> step a s = Some s' ->
  running (manager s') = false /\
  (length (threads s') + spawn_pending (manager s')
   = length (threads s) + spawn_pending (manager s))%nat.
Proof.
  intros Hrun Hstep.
  apply step_inv in Hstep as [[_ Hm] | [(k & v & v' & g' & _ & Hk & Hr & ->) | [_ ->]]].
  - destruct s as [g m]. unfold threads, spawn_pending in *. cbn in *.
    manager_step Hm; cbn in *; manager_at; cbn;
      rewrite ?length_app; cbn; try (split; [assumption | lia]).
    rewrite Hrun, andb_false_r in *. discriminate.
  - unfold threads. cbn. rewrite length_insert. split; [exact Hrun | reflexivity].
  - split; reflexivity.
Qed.

Lemma exec_after_stop schedule : forall s s',
  running (manager s) = false -> exec schedule s = Some s' ->
  running (manager s') = false /\
  (length (threads s') + spawn_pending (manager s')
   = length (threads s) + spawn_pending (manager s))%nat.
Proof.
  induction schedule as [| a rest IH]; intros s s' Hrun H; cbn in H.
  - injection H as <-. split; [exact Hrun | reflexivity].
  - destruct (step a s) as [s1 |] eqn:E; [| discriminate].
    destruct (step_after_stop a s s1 Hrun E) as [Hrun1 H1].
    destruct (IH s1 s' Hrun1 H) as [Hrun' H']. split; [exact Hrun' | lia].
Qed.

Lemma exec_threads_length schedule : forall s s',
  exec schedule s = Some s' -> (length (threads s) <= length (threads s'))%nat.
Proof.
  induction schedule as [| a rest IH]; intros s s' H; cbn in H.
  - injection H as <-. reflexivity.
  - destruct (step a s) as [s1 |] eqn:E; [| discriminate].
    specialize (IH s1 s' H).
    apply step_inv in E as [[_ Hm] | [(k & v & v1 & g1 & _ & Hk & Hr & ->) | [_ ->]]].
    + apply StationManager_run_inv in Hm as (_ & _ & [Et | [_ Et]]);
        rewrite Et, ?length_app in IH; lia.
    + unfold threads in *. cbn in IH. rewrite length_insert in IH. exact IH.
    + exact IH.
Qed.

(** X7.  [stop()] (lines 143-144) is read only by the loop test of line
    117.  A request that arrives while the supervisor is inside an
    iteration, before line 122, does not keep that iteration from
    spawning its vehicle; after the request at most this one vehicle is
    added, whatever the schedule, and none when the supervisor is
    anywhere else.  The flag is never set back. *)
Theorem stop_lets_one_iteration_finish schedule s s' :
  exec schedule (stop s) = Some s' ->
  running (manager s') = false /\
  (length (threads s) <= length (threads s')
   <= length (threads s) + spawn_pending (manager s))%nat /\
  (length (threads s') <= length (threads s) + 1)%nat /\
  (spawn_pending (manager s) = 0%nat -> length (threads s') = length (threads s)).
Proof.
  intros H. destruct (exec_after_stop schedule (stop s) s' eq_refl H) as [Hrun Hlen].
  pose proof (exec_threads_length schedule (stop s) s' H) as Hge.
  change (threads (stop s)) with (threads s) in *.
  change (spawn_pending (manager (stop s))) with (spawn_pending (manager s)) in Hlen.
  assert (Hp : (spawn_pending (manager s) <= 1)%nat)
    by (unfold spawn_pending; destruct (mgr_at (manager s)); lia).
  split; [exact Hrun |]. split; [lia |]. split; lia.
Qed.

Lemma stop_lets_one_iteration_finish_witness :
  exec (repeat Supervisor 3) (stop second_pending)
  = Some (default main (exec (repeat Supervisor 3) (stop second_pending))) /\
  length (threads second_pending) = 1%nat /\
  length (threads (default main (exec (repeat Supervisor 3) (stop second_pending)))) = 2%nat /\
  running (manager (default main (exec (repeat Supervisor 3) (stop second_pending)))) = false.
Proof.
  split; [reflexivity |]. split; [reflexivity |]. split; [reflexivity |].
  exact (proj1 (stop_lets_one_iteration_finish (repeat Supervisor 3) second_pending _
                  eq_refl)).
Defined.

(** ** After the last line *)

Lemma finished_last n max s :
  reachable (station n max) s ->
  mgr_at (manager s) = MReturned ->
  exists l, console (globals s) = l ++ [EFinished] /\ ~ In EFinished l.
Proof.
  induction 1 as [| a s s' Hs IH Hstep]; [intros H; discriminate H |].
  intros Hat.
  destruct (join_inv_reachable n max s Hs) as [_ Hfin].
  pose proof (all_returned n max s Hs) as Hall.
  apply step_inv in Hstep as [[_ Hm] | [(k & v & v' & g' & _ & Hk & Hr & ->) | [_ ->]]].
  - destruct s as [g m]. cbn in *. manager_step Hm; cbn in *; try congruence.
    exists (console g). split; [reflexivity |].
    intros Hin. specialize (Hfin Hin). congruence.
  - cbn in Hat. specialize (Hall (or_intror Hat) k v Hk).
    unfold Vehicle_run in Hr. rewrite Hall in Hr. discriminate Hr.
  - exact (IH Hat).
Qed.


(** ** What the console tells about each vehicle *)

Lemma StationManager_run_console s s' :
  StationManager_run s = Some s' ->
  console (globals s') = console (globals s) \/
  exists e, console (globals s') = console (globals s) ++ [e] /\
            event_vehicle e = None.
Proof.
  destruct s as [g m]; cbn. intros H.
  manager_step H; cbn; auto; right; eexists; split; reflexivity.
Qed.

Lemma owns_has_pump status v : owns status v -> veh_pump_id v <> -1.
Proof. intros (i & Hp & _). lia. Qed.

Lemma freed_has_pump status v : freed status v -> veh_pump_id v <> -1.
Proof. intros (i & Hp & _). lia. Qed.

Lemma Vehicle_run_console n v g v' g' :
  vehicle_ok n (pump_status g) v ->
  Vehicle_run v g = Some (v', g') -> veh_at v' <> VRaised ->
  (console g' = console g /\ printed v' = printed v) \/
  (exists e, console g' = console g ++ [e] /\ event_vehicle e = Some (veh_id v) /\
             printed v' = printed v ++ [e]).
Proof.
  intros [_ Hok] H.
  vehicle_step H; cbn in Hok; intros Hnr; try congruence;
    repeat match goal with
           | H : veh_at _ = _ |- _ => cbn in H; simplify_eq
           end;
    unfold printed, visit; cbn;
    try match goal with
        | H : owns _ _ |- _ => pose proof (owns_has_pump _ _ H) as Hne; cbn in Hne
        | H : _ /\ owns _ _ |- _ =>
            let E := fresh in
            destruct H as [E H]; pose proof (owns_has_pump _ _ H) as Hne; cbn in Hne, E
        | H : freed _ _ |- _ => pose proof (freed_has_pump _ _ H) as Hne; cbn in Hne
        end;
    repeat match goal with
           | |- context [?x =? -1] =>
               let E := fresh "E" in
               destruct (x =? -1) eqn:E;
               [apply Z.eqb_eq in E | apply Z.eqb_neq in E]
           end;
    subst; cbn;
    try solve [left; split; reflexivity
              | right; eexists; split; [reflexivity | split; reflexivity]
              | lia | congruence | tauto | intuition (try lia; try congruence)].
Qed.

Lemma filter_about_snoc id l e :
  filter (fun e => about id e = true) (l ++ [e])
  = filter (fun e => about id e = true) l ++ (if about id e then [e] else []).
Proof.
  rewrite filter_app. f_equal.
  destruct (about id e) eqn:E.
  - rewrite filter_cons_True by exact E. reflexivity.
  - rewrite filter_cons_False by (rewrite E; discriminate). reflexivity.
Qed.

Lemma filter_about_nil id l :
  (forall e, In e l -> about id e = false) ->
  filter (fun e => about id e = true) l = [].
Proof.
  induction l as [| a l IH]; intros H; [reflexivity |].
  rewrite filter_cons_False by (rewrite (H a (or_introl eq_refl)); discriminate).
  apply IH. intros e He. apply H. right. exact He.
Qed.

Lemma about_event_vehicle id e w :
  event_vehicle e = Some w -> about id e = (w =? id).
Proof. unfold about. intros ->. reflexivity. Qed.

Lemma about_no_vehicle id e : event_vehicle e = None -> about id e = false.
Proof. unfold about. intros ->. reflexivity. Qed.

Lemma log_inv_reachable n max s : reachable (station n max) s -> log_inv s.
Proof.
  induction 1 as [| a s s' Hs IH Hstep].
  - split; [intros k v Hk; discriminate Hk | intros e w []].
  - pose proof (reachable_step _ _ _ _ Hs Hstep) as Hs'.
    destruct IH as [Hv He].
    destruct (registry_inv_reachable n max s Hs) as (_ & _ & _ & Hok & _).
    destruct (registry_inv_reachable n max s' Hs') as (_ & _ & _ & Hok' & _).
    destruct (ids_inv_reachable n max s Hs) as [Hid Hcount].
    apply step_inv in Hstep as [[_ Hm] | [(k & v & v' & g' & _ & Hk & Hr & ->) | [_ ->]]].
    + assert (Hf : forall id,
                 filter (fun e => about id e = true) (console (globals s'))
                 = filter (fun e => about id e = true) (console (globals s))).
      { intros id. destruct (StationManager_run_console s s' Hm) as [-> | (e & -> & Hn)];
          [reflexivity |].
        rewrite filter_about_snoc, (about_no_vehicle id e Hn), app_nil_r. reflexivity. }
      assert (Hin : forall e w, In e (console (globals s')) -> event_vehicle e = Some w ->
                                In e (console (globals s))).
      { intros e w Hin Hw.
        destruct (StationManager_run_console s s' Hm) as [E | (e' & E & Hn)];
          rewrite E in Hin; [exact Hin |].
        apply in_app_or in Hin as [Hin | [<- | []]]; [exact Hin | congruence]. }
      apply StationManager_run_inv in Hm as (_ & _ & [Et | [Eat Et]]);
        unfold log_inv; rewrite Et.
      * split; [intros k v Hk; rewrite Hf; eauto | eauto].
      * split.
        -- intros k v Hk. rewrite Hf.
           apply lookup_app_Some in Hk as [Hk | [_ Hk]]; [eauto |].
           apply list_lookup_singleton_Some in Hk as [_ <-].
           unfold printed. cbn. apply filter_about_nil.
           intros e Hine. destruct (event_vehicle e) as [w |] eqn:Ew;
             [| exact (about_no_vehicle _ e Ew)].
           rewrite (about_event_vehicle _ e w Ew). apply Z.eqb_neq.
           specialize (He e w Hine Ew). rewrite Eat in Hcount. lia.
        -- intros e w Hine Ew. rewrite length_app. cbn.
           specialize (He e w (Hin e w Hine Ew) Ew). lia.
    + assert (Hk' : threads (mkStation g' (set_threads (<[k := v']> (threads s)) (manager s)))
                    !! k = Some v').
      { unfold threads. cbn. apply list_lookup_insert_eq. eapply lookup_lt_Some; eauto. }
      assert (Hnr : veh_at v' <> VRaised).
      { destruct (Hok' k v' Hk') as [_ H]. intros E. rewrite E in H. exact H. }
      pose proof (Vehicle_run_id _ _ _ _ Hr) as (Eid & _).
      pose proof (Hid k v Hk) as Eidk.
      destruct (Vehicle_run_console n v _ v' g' (Hok k v Hk) Hr Hnr)
        as [[Ec Ep] | (e & Ec & Ew & Ep)];
        unfold log_inv, threads in *; cbn [globals manager set_threads vehicle_threads];
        rewrite Ec, length_insert.
      * split; [| exact He]. intros j w Hj.
        destruct (decide (k = j)) as [<- | Hne].
        -- rewrite list_lookup_insert_eq in Hj by (eapply lookup_lt_Some; exact Hk). injection Hj as <-. rewrite Eid, Ep. eauto.
        -- rewrite list_lookup_insert_ne in Hj by exact Hne. eauto.
      * split.
        -- intros j w Hj. rewrite filter_about_snoc, (about_event_vehicle _ e _ Ew).
           destruct (decide (k = j)) as [<- | Hne].
           ++ rewrite list_lookup_insert_eq in Hj by (eapply lookup_lt_Some; exact Hk). injection Hj as <-.
              rewrite Eid, Z.eqb_refl, Ep. f_equal. eauto.
           ++ rewrite list_lookup_insert_ne in Hj by exact Hne.
              pose proof (Hid j w Hj) as Eidj.
              replace (veh_id v =? veh_id w) with false by (symmetry; apply Z.eqb_neq; lia).
              rewrite app_nil_r. eauto.
        -- intros e' w Hine Ew'. apply in_app_or in Hine as [Hine | [<- | []]]; [eauto |].
           apply lookup_lt_Some in Hk. rewrite Ew in Ew'. injection Ew' as <-. lia.
    + exact (conj Hv He).
Qed.

Lemma line_vehicle n max s e w :
  reachable (station n max) s ->
  In e (console (globals s)) -> event_vehicle e = Some w ->
  exists j u, threads s !! j = Some u /\ veh_id u = w /\ In e (printed u).
Proof.
  intros Hr Hin Hw.
  destruct (log_inv_reachable n max s Hr) as [Hv He].
  destruct (ids_inv_reachable n max s Hr) as [Hid _].
  specialize (He e w Hin Hw).
  destruct (lookup_lt_is_Some_2 (threads s) (Z.to_nat (w - 1))) as [u Hu]; [lia |].
  exists (Z.to_nat (w - 1)), u. split; [exact Hu |].
  pose proof (Hid _ u Hu) as Eid. split; [lia |].
  rewrite <- (Hv _ u Hu). apply list_elem_of_In, list_elem_of_filter.
  split; [| apply list_elem_of_In; exact Hin].
  rewrite (about_event_vehicle _ e w Hw). apply Z.eqb_eq. lia.
Qed.

Lemma freed_in_range n status v :
  length status = n -> owns status v \/ freed status v ->
  1 <= veh_pump_id v <= Z.of_nat n.
Proof.
  intros Hlen [(i & Hp & Hi) | (i & Hp & Hi)];
    apply lookup_lt_Some in Hi; lia.
Qed.

(** X9.  The lines of one vehicle come out in the order of its program:
    read in console order, the lines about vehicle [id] are the first
    lines of its visit, as many as its program point tells.  A vehicle
    that has fueled prints arrival, fueling at its own pump, end of
    fueling, waiting for the cashier, paying, paid, left (lines 64, 32,
    35, 43, 47, 52, 95); one that found no pump prints arrival and the
    error of line 98.  A thread that has returned has printed its whole
    visit, and no line names a vehicle that was not spawned. *)
Theorem vehicle_lines_in_order n max s k v :
  reachable (station n max) s -> threads s !! k = Some v ->
  filter (fun e => about (veh_id v) e = true) (console (globals s))
  = take (lines_printed (veh_at v)) (visit v) /\
  (veh_at v = VReturned ->
   filter (fun e => about (veh_id v) e = true) (console (globals s)) = visit v /\
   (visit v = failed_visit (veh_id v) \/
    visit v = lifecycle (veh_id v) (veh_pump_id v) /\
    1 <= veh_pump_id v <= Z.of_nat n)) /\
  (forall e w, In e (console (globals s)) -> event_vehicle e = Some w ->
     exists j u, threads s !! j = Some u /\ veh_id u = w).
Proof.
  intros Hr Hk.
  destruct (log_inv_reachable n max s Hr) as [Hv He].
  destruct (registry_inv_reachable n max s Hr) as (_ & Hlen & _ & Hok & _).
  split; [exact (Hv k v Hk) |]. split.
  - intros Hat. rewrite (Hv k v Hk). unfold printed. rewrite Hat.
    destruct (Hok k v Hk) as [_ H]. rewrite Hat in H.
    unfold visit. destruct (veh_pump_id v =? -1) eqn:E.
    + split; [reflexivity | left; reflexivity].
    + split; [reflexivity | right]. split; [reflexivity |].
      apply Z.eqb_neq in E. destruct H as [H | H]; [contradiction |].
      apply (freed_in_range n _ v Hlen). right. exact H.
  - intros e w Hin Hw. destruct (line_vehicle n max s e w Hr Hin Hw) as (j & u & H1 & H2 & _).
    eauto.
Qed.

Lemma vehicle_lines_in_order_witness :
  reachable main one_paying /\
  filter (fun e => about 1 e = true) (console (globals one_paying))
  = take 5 (lifecycle 1 1).
Proof.
  split; [exact reachable_one_paying |].
  exact (proj1 (vehicle_lines_in_order 3 10 one_paying 0
                  (default (Vehicle_init 0 []) (threads one_paying !! 0%nat))
                  reachable_one_paying eq_refl)).
Defined.

(** ** Fueling lines *)

Lemma NoDup_lifecycle w p : NoDup (lifecycle w p).
Proof.
  unfold lifecycle.
  repeat (apply NoDup_cons; split;
          [rewrite ?elem_of_cons, elem_of_nil; intuition discriminate |]).
  apply NoDup_nil_2.
Qed.

Lemma tanking_line n max s w p :
  reachable (station n max) s ->
  In (ETanking w p) (console (globals s)) ->
  exists j u, threads s !! j = Some u /\ veh_id u = w /\ veh_pump_id u = p /\
              p <> -1 /\ In (ETanking w p) (printed u) /\ printed u = take (lines_printed (veh_at u)) (lifecycle w p).
Proof.
  intros Hr Hin.
  destruct (line_vehicle n max s _ w Hr Hin eq_refl) as (j & u & Hu & Eid & Hp).
  exists j, u. split; [exact Hu |]. split; [exact Eid |].
  assert (Hvis : In (ETanking w p) (visit u)).
  { apply list_elem_of_In. apply list_elem_of_In in Hp. unfold printed in Hp.
    apply elem_of_take in Hp as (i & Hi & _). eapply list_elem_of_lookup_2. exact Hi. }
  unfold printed, visit in *. destruct (veh_pump_id u =? -1) eqn:E.
  - cbn in Hvis. intuition discriminate.
  - apply Z.eqb_neq in E. cbn in Hvis.
    destruct Hvis as [H | [H | H]]; try discriminate H.
    + injection H as _ E2. rewrite Eid, E2 in *. rewrite <- E2 at 2. auto.
    + intuition discriminate.
Qed.

(** X10.  A fueling line (line 32 of [Pump.tank]) names the pump the
    vehicle claimed in the scan, a pump between 1 and [NUM_PUMPS]; and no
    pump is named by two fueling lines of a run, nor a vehicle by two. *)
Theorem fueling_lines_name_distinct_pumps n max s l1 l2 w p :
  reachable (station n max) s ->
  console (globals s) = l1 ++ ETanking w p :: l2 ->
  1 <= p <= Z.of_nat n /\
  (exists k v, threads s !! k = Some v /\ veh_id v = w /\ veh_pump_id v = p) /\
  (forall w', ~ In (ETanking w' p) (l1 ++ l2)) /\
  (forall p', ~ In (ETanking w p') (l1 ++ l2)).
Proof.
  intros Hr Hc.
  destruct (log_inv_reachable n max s Hr) as [Hv _].
  destruct (registry_inv_reachable n max s Hr) as (_ & Hlen & _ & Hok & Huniq & _).
  destruct (ids_inv_reachable n max s Hr) as [Hid _].
  assert (Hin : In (ETanking w p) (console (globals s)))
    by (rewrite Hc; apply in_or_app; right; left; reflexivity).
  destruct (tanking_line n max s w p Hr Hin) as (k & v & Hk & Eid & Ep & Hne & _ & Hpr).
  assert (Honce : ~ In (ETanking w p) (l1 ++ l2)).
  { pose proof (Hv k v Hk) as Hf. rewrite Hc, Eid, Hpr, filter_app in Hf.
    rewrite filter_cons_True in Hf by (cbn; apply Z.eqb_refl).
    assert (Hnd : NoDup (take (lines_printed (veh_at v)) (lifecycle w p)))
      by (eapply sublist_NoDup; [apply NoDup_lifecycle | apply sublist_take]).
    rewrite <- Hf in Hnd. apply NoDup_app in Hnd as (_ & H1 & H2).
    apply NoDup_cons in H2 as [H2 _].
    intros H. apply in_app_or in H as [H | H].
    - apply (H1 (ETanking w p)); [| left].
      apply list_elem_of_filter. split; [cbn; apply Z.eqb_refl | apply list_elem_of_In, H].
    - apply H2. apply list_elem_of_filter.
      split; [cbn; apply Z.eqb_refl | apply list_elem_of_In, H]. }
  assert (Hother : forall w' p', In (ETanking w' p') (l1 ++ l2) ->
                                 In (ETanking w' p') (console (globals s))).
  { intros w' p' H. rewrite Hc. apply in_app_or in H as [H | H];
      apply in_or_app; [left | right; right]; exact H. }
  split.
  { rewrite <- Ep. apply (freed_in_range n (pump_status (globals s)) v Hlen).
    apply (vehicle_ok_claimed n); [exact (Hok k v Hk) | congruence]. }
  split; [exists k, v; auto |]. split.
  - intros w' H.
    pose proof (tanking_line n max s w' p Hr (Hother _ _ H))
      as (k' & v' & Hk' & Eid' & Ep' & _).
    assert (k = k') by (apply (Huniq k k' v v' Hk Hk'); congruence).
    subst k'. assert (Ew : w' = w) by congruence. rewrite Ew in H. exact (Honce H).
  - intros p' H.
    pose proof (tanking_line n max s w p' Hr (Hother _ _ H))
      as (k' & v' & Hk' & Eid' & Ep' & _).
    pose proof (Hid k v Hk). pose proof (Hid k' v' Hk').
    assert (k = k') by lia. subst k'. assert (Ep1 : p' = p) by congruence.
    rewrite Ep1 in H. exact (Honce H).
Qed.

Lemma fueling_lines_name_distinct_pumps_witness :
  reachable main two_fueling /\
  exists l1 l2,
    console (globals two_fueling) = l1 ++ ETanking 2 2 :: l2 /\
    forall w', ~ In (ETanking w' 2) (l1 ++ l2).
Proof.
  split; [exact reachable_two_fueling |].
  exists (take 5 (console (globals two_fueling))), (drop 6 (console (globals two_fueling))).
  split; [reflexivity |].
  exact (proj1 (proj2 (proj2 (fueling_lines_name_distinct_pumps 3 10 two_fueling
                                (take 5 (console (globals two_fueling)))
                                (drop 6 (console (globals two_fueling)))
                                2 2 reachable_two_fueling eq_refl)))).
Defined.

(** ** The error line *)

Lemma Vehicle_run_gave_up n v g v' g' :
  vehicle_ok n (pump_status g) v -> length (pump_status g) = n ->
  Vehicle_run v g = Some (v', g') -> gave_up v' = true ->
  gave_up v = true \/ none_free_below n (pump_status g).
Proof.
  intros [Hpumps Hok] Hlen H.
  vehicle_step H; cbn in Hok, Hpumps; unfold gave_up; cbn; intros Hg;
    try discriminate Hg; auto.
  all: try (apply Z.eqb_eq in Hg; apply freed_has_pump in Hok; contradiction).
  all: destruct Hok as [[_ Hfull] | (i & Hp & Hi)]; [right; exact Hfull |].
  all: exfalso; apply lookup_lt_Some in Hi; cbn in Hp; subst.
  all: destruct (select_pump_in_range (length (pump_status g')) i Hi) as [q Hq].
  all: congruence.
Qed.

Lemma step_none_free n a s s' :
  registry_inv n s -> step a s = Some s' ->
  none_free_below n (pump_status (globals s)) ->
  none_free_below n (pump_status (globals s')).
Proof.
  intros Hinv Hstep Hfull j e' Hj He'.
  destruct Hinv as (HN & Hlen & Hrest).
  destruct (lookup_lt_is_Some_2 (pump_status (globals s)) j) as [e He]; [lia |].
  destruct (step_not_free n a s s' j e (conj HN (conj Hlen Hrest)) Hstep He
              (Hfull j e Hj He)) as (e'' & He'' & Hnf).
  congruence.
Qed.

Lemma gave_up_full n max s :
  reachable (station n max) s ->
  forall k v, threads s !! k = Some v -> gave_up v = true ->
              none_free_below n (pump_status (globals s)).
Proof.
  induction 1 as [| a s s' Hs IH Hstep]; [intros k v Hk; discriminate Hk |].
  pose proof (registry_inv_reachable n max s Hs) as Hinv.
  pose proof (step_none_free n a s s' Hinv Hstep) as Hkeep.
  destruct Hinv as (_ & Hlen & _ & Hok & _).
  apply step_inv in Hstep as [[_ Hm] | [(k & v & v' & g' & _ & Hk & Hr & ->) | [_ ->]]].
  - intros j w Hj Hg. apply Hkeep.
    apply StationManager_run_inv in Hm as (_ & _ & [Et | [_ Et]]); rewrite Et in Hj.
    + eauto.
    + apply lookup_app_Some in Hj as [Hj | [_ Hj]]; [eauto |].
      apply list_lookup_singleton_Some in Hj as [_ <-]. discriminate Hg.
  - intros j w Hj Hg. apply Hkeep. unfold threads in Hj. cbn in Hj.
    destruct (decide (k = j)) as [<- | Hne].
    + rewrite list_lookup_insert_eq in Hj by (eapply lookup_lt_Some; exact Hk).
      injection Hj as <-.
      destruct (Vehicle_run_gave_up n v _ v' g' (Hok k v Hk) Hlen Hr Hg) as [H | H];
        [eauto | exact H].
    + rewrite list_lookup_insert_ne in Hj by exact Hne. eauto.
  - exact IH.
Qed.

Lemma count_length {A} (l : list A) : count (fun _ => true) l = length l.
Proof. induction l as [| a l IH]; cbn; [reflexivity | rewrite IH; reflexivity]. Qed.

Lemma no_pump_line_gave_up n max s w :
  reachable (station n max) s ->
  In (ENoPump w) (console (globals s)) ->
  exists j u, threads s !! j = Some u /\ veh_id u = w /\
              gave_up u = true /\ veh_pump_id u = -1.
Proof.
  intros Hr Hin.
  destruct (line_vehicle n max s _ w Hr Hin eq_refl) as (j & u & Hu & Eid & Hp).
  destruct (registry_inv_reachable n max s Hr) as (_ & _ & _ & Hok & _).
  exists j, u. split; [exact Hu |]. split; [exact Eid |].
  destruct (Hok j u Hu) as [_ Hpc].
  unfold printed, visit, gave_up in *.
  destruct (veh_pump_id u =? -1) eqn:E.
  - apply Z.eqb_eq in E. split; [| exact E].
    destruct (veh_at u); cbn in Hp, Hpc; try reflexivity;
      try (intuition discriminate);
      try (apply owns_has_pump in Hpc; contradiction);
      try (apply freed_has_pump in Hpc; contradiction).
  - exfalso. apply list_elem_of_In, elem_of_take in Hp as (i & Hi & _).
    apply list_elem_of_lookup_2, list_elem_of_In in Hi. cbn in Hi.
    intuition discriminate.
Qed.

(** X11.  The error of line 98 is printed only when the registry has no
    free entry left: once the line is on the console, every entry fails
    the test of line 73, all [NUM_PUMPS] pumps have been given to
    vehicles, and more vehicles than pumps have been spawned.  So a run
    with [max_vehicles <= NUM_PUMPS] never prints it. *)
Theorem no_pump_line_means_all_pumps_given n max s w :
  reachable (station n max) s ->
  In (ENoPump w) (console (globals s)) ->
  (forall (i : nat) e, pump_status (globals s) !! i = Some e -> is_free e = false) /\
  count has_pump (threads s) = n /\
  (n < length (threads s))%nat /\
  Z.of_nat n < max.
Proof.
  intros Hr Hin.
  destruct (no_pump_line_gave_up n max s w Hr Hin) as (j & u & Hu & _ & Hg & Hp).
  pose proof (gave_up_full n max s Hr j u Hu Hg) as Hfull.
  destruct (registry_inv_reachable n max s Hr) as (_ & Hlen & _).
  pose proof (served_inv_reachable n max s Hr) as Hserved. unfold served_inv in Hserved.
  destruct (spawn_inv_reachable n max s Hr) as (_ & _ & Hpc & _).
  destruct (threads_counted n max s Hr) as [Hle _].
  assert (Hall : forall (i : nat) e,
             pump_status (globals s) !! i = Some e -> is_free e = false).
  { intros i e Hi. apply (Hfull i e); [| exact Hi].
    apply lookup_lt_Some in Hi. lia. }
  rewrite (count_all_false is_free _ Hall) in Hserved.
  assert (Hlt : (count has_pump (threads s) < count (fun _ => true) (threads s))%nat).
  { apply (count_lt _ _ _ j u); auto.
    unfold has_pump. rewrite Hp. reflexivity. }
  rewrite count_length in Hlt.
  split; [exact Hall |]. split; [lia |]. split; [lia |].
  assert (Hc : VEHICLE_COUNT (globals s) <= Z.max 0 max)
    by (destruct (mgr_at (manager s)); lia).
  lia.
Qed.

Lemma reachable_fourth_failed : reachable main fourth_failed.
Proof.
  apply (exec_reachable main fourth_fails main); [constructor |].
  vm_compute. reflexivity.
Qed.

Lemma no_pump_line_means_all_pumps_given_witness :
  reachable main fourth_failed /\
  In (ENoPump 4) (console (globals fourth_failed)) /\
  count has_pump (threads fourth_failed) = 3%nat.
Proof.
  split; [exact reachable_fourth_failed |].
  assert (H : In (ENoPump 4) (console (globals fourth_failed)))
    by (apply list_elem_of_In; vm_compute; repeat constructor).
  split; [exact H |].
  exact (proj1 (proj2 (no_pump_line_means_all_pumps_given 3 10 fourth_failed 4
                         reachable_fourth_failed H))).
Defined.

(** ** Payment lines *)

Lemma cashier_log_app l1 : forall b l2,
  cashier_log b (l1 ++ l2)
  = match cashier_log b l1 with
    | Some o => cashier_log o l2
    | None => None
    end.
Proof.
  induction l1 as [| e l1 IH]; intros b l2; [reflexivity |].
  cbn. destruct e; try apply IH.
  - destruct b; [reflexivity | apply IH].
  - destruct b as [w |]; [| reflexivity].
    destruct (w =? vehicle_id); [apply IH | reflexivity].
Qed.

Lemma cashier_log_other e :
  (forall v, e <> EPaying v) -> (forall v, e <> EPaid v) ->
  forall o, cashier_log o [e] = Some o.
Proof. intros H1 H2 o. destruct e; try reflexivity; congruence. Qed.

Lemma at_cashier_marked_busy v : at_cashier v = true -> marked_busy v = true.
Proof. destruct v as [? ? [] ? ? ?]; cbn; congruence. Qed.

Lemma Vehicle_run_cashier v g v' g' :
  Vehicle_run v g = Some (v', g') ->
  ((console g' = console g \/
    exists e, console g' = console g ++ [e] /\ forall o, cashier_log o [e] = Some o) /\
   at_cashier v' = at_cashier v) \/
  (console g' = console g ++ [EPaying (veh_id v)] /\
   at_cashier v = false /\ at_cashier v' = true /\ marked_busy v = true) \/
  (console g' = console g ++ [EPaid (veh_id v)] /\
   at_cashier v = true /\ at_cashier v' = false).
Proof.
  intros H. vehicle_step H; auto 10;
    try solve [left; split; [right; eexists; split; [reflexivity |];
                             apply cashier_log_other; discriminate
                            | reflexivity]].
Qed.

Lemma StationManager_run_cashier s s' :
  StationManager_run s = Some s' ->
  console (globals s') = console (globals s) \/
  exists e, console (globals s') = console (globals s) ++ [e] /\
            forall o, cashier_log o [e] = Some o.
Proof.
  destruct s as [g m]; cbn. intros H.
  manager_step H; cbn; auto; right; eexists; (split; [reflexivity |]);
    apply cashier_log_other; discriminate.
Qed.

Lemma pay_inv_reachable n max s :
  reachable (station n max) s ->
  exists o,
    cashier_log None (console (globals s)) = Some o /\
    (forall k v, threads s !! k = Some v -> at_cashier v = true -> o = Some (veh_id v)) /\
    (forall w, o = Some w ->
       exists k v, threads s !! k = Some v /\ at_cashier v = true /\ veh_id v = w).
Proof.
  induction 1 as [| a s s' Hs IH Hstep].
  - exists None. split; [reflexivity |].
    split; [intros k v Hk; discriminate Hk | intros w Hw; discriminate Hw].
  - destruct IH as (o & Ho & Hin & Hex).
    destruct (cashier_inv_reachable n max s Hs) as [_ Hbusy].
    assert (Hone : (count marked_busy (threads s) <= 1)%nat)
      by (rewrite Hbusy; destruct (CASHIER_BUSY (globals s)); unfold Nat.b2n; lia).
    apply step_inv in Hstep as [[_ Hm] | [(k & v & v' & g' & _ & Hk & Hr & ->) | [_ ->]]].
    + exists o. split.
      { destruct (StationManager_run_cashier s s' Hm) as [-> | (e & -> & He)];
          [exact Ho |]. rewrite cashier_log_app, Ho. apply He. }
      apply StationManager_run_inv in Hm as (_ & _ & [Et | [_ Et]]); rewrite Et.
      * split; assumption.
      * split.
        -- intros j w Hj. apply lookup_app_Some in Hj as [Hj | [_ Hj]]; [eauto |].
           apply list_lookup_singleton_Some in Hj as [_ <-]. intros H; discriminate H.
        -- intros w Hw. destruct (Hex w Hw) as (j & u & Hj & Hu).
           exists j, u. split; [| exact Hu]. apply lookup_app_Some. left. exact Hj.
    + pose proof (Vehicle_run_id _ _ _ _ Hr) as (Eid & _).
      pose proof (lookup_lt_Some _ _ _ Hk) as Hlt.
      unfold threads in *. cbn [globals manager set_threads vehicle_threads].
      destruct (Vehicle_run_cashier _ _ _ _ Hr)
        as [[Hc Eat] | [(Hc & Eat & Eat' & Eb) | (Hc & Eat & Eat')]].
      * exists o. split.
        { destruct Hc as [-> | (e & -> & He)]; [exact Ho |].
          rewrite cashier_log_app, Ho. apply He. }
        split.
        -- intros j w Hj. destruct (decide (k = j)) as [<- | Hne].
           ++ rewrite list_lookup_insert_eq in Hj by exact Hlt. injection Hj as <-.
              rewrite Eat, Eid. eauto.
           ++ rewrite list_lookup_insert_ne in Hj by exact Hne. eauto.
        -- intros w Hw. destruct (Hex w Hw) as (j & u & Hj & Hu & Hid).
           destruct (decide (k = j)) as [<- | Hne].
           ++ exists k, v'. rewrite list_lookup_insert_eq by exact Hlt.
              assert (u = v) by congruence. subst u.
              split; [reflexivity |]. split; congruence.
           ++ exists j, u. rewrite list_lookup_insert_ne by exact Hne. auto.
      * assert (Enone : o = None).
        { destruct o as [w |]; [| reflexivity].
          destruct (Hex w eq_refl) as (j & u & Hj & Hu & _).
          assert (j = k).
          { apply (count_one_unique marked_busy _ j k u v Hone Hj Hk);
              [apply at_cashier_marked_busy; exact Hu | exact Eb]. }
          subst j. assert (u = v) by congruence. subst u. congruence. }
        subst o. exists (Some (veh_id v)). split.
        { rewrite Hc, cashier_log_app, Ho. reflexivity. }
        split.
        -- intros j w Hj Hw. destruct (decide (k = j)) as [<- | Hne].
           ++ rewrite list_lookup_insert_eq in Hj by exact Hlt. injection Hj as <-.
              rewrite Eid. reflexivity.
           ++ rewrite list_lookup_insert_ne in Hj by exact Hne.
              specialize (Hin j w Hj Hw). discriminate Hin.
        -- intros w Hw. injection Hw as <-. exists k, v'.
           rewrite list_lookup_insert_eq by exact Hlt. auto.
      * pose proof (Hin k v Hk Eat) as Eo. subst o. exists None. split.
        { rewrite Hc, cashier_log_app, Ho. cbn. rewrite Z.eqb_refl. reflexivity. }
        split; [| intros w Hw; discriminate Hw].
        intros j w Hj Hw. exfalso. destruct (decide (k = j)) as [<- | Hne].
        -- rewrite list_lookup_insert_eq in Hj by exact Hlt. injection Hj as <-. congruence.
        -- rewrite list_lookup_insert_ne in Hj by exact Hne.
           apply Hne. symmetry.
           apply (count_one_unique marked_busy _ j k w v Hone Hj Hk);
             apply at_cashier_marked_busy; assumption.
    + exists o. split; [exact Ho |]. split; assumption.
Qed.

Lemma cashier_log_open w l :
  cashier_log (Some w) l = Some None -> In (EPaid w) l.
Proof.
  induction l as [| e l IH]; [intros H; discriminate H |].
  cbn. destruct e; try (intros H; right; exact (IH H)).
  - intros H. discriminate H.
  - destruct (w =? vehicle_id) eqn:E; [| intros H; discriminate H].
    apply Z.eqb_eq in E. subst. intros _. left. reflexivity.
Qed.

Lemma cashier_log_started b l w :
  cashier_log b l = Some (Some w) -> b = Some w \/ In (EPaying w) l.
Proof.
  revert b. induction l as [| e l IH]; intros b; cbn.
  - intros H. injection H as ->. left. reflexivity.
  - destruct e; try (intros H; destruct (IH b H); auto).
    + destruct b; [intros H; discriminate H |].
      intros H. destruct (IH _ H) as [E | Hin]; [| auto].
      injection E as ->. right. left. reflexivity.
    + destruct b as [u |]; [| intros H; discriminate H].
      destruct (u =? vehicle_id); [| intros H; discriminate H].
      intros H. destruct (IH _ H) as [E | Hin]; [discriminate E | auto].
Qed.

(** X12.  Payments do not overlap on the console
    ([Cashier.process_payment], lines 45-53): reading the lines of line
    47 (payment starts) and line 52 (payment done) from top to bottom,
    each payment that starts is ended by the same vehicle before the next
    one starts.  Between two payment starts there is the end of the first;
    every end is preceded by its own start.  A payment is open at the end
    of the console exactly when some vehicle is between the two lines:
    the open payment is that of a vehicle which is there, a vehicle
    which is there has the open payment, and no payment is open exactly
    when no vehicle is there. *)
Theorem payments_do_not_overlap n max s :
  reachable (station n max) s ->
  (exists o,
     cashier_log None (console (globals s)) = Some o /\
     (forall k v, threads s !! k = Some v -> at_cashier v = true -> o = Some (veh_id v)) /\
     (forall w, o = Some w ->
        exists k v, threads s !! k = Some v /\ at_cashier v = true /\ veh_id v = w) /\
     (o = None <-> forall k v, threads s !! k = Some v -> at_cashier v = false)) /\
  (forall l1 w l2 w' l3,
     console (globals s) = l1 ++ EPaying w :: l2 ++ EPaying w' :: l3 ->
     In (EPaid w) l2) /\
  (forall l1 w l2,
     console (globals s) = l1 ++ EPaid w :: l2 -> In (EPaying w) l1).
Proof.
  intros Hr. destruct (pay_inv_reachable n max s Hr) as (o & Ho & Hin & Hex).
  split; [| split].
  - exists o. split; [exact Ho |]. split; [exact Hin |]. split; [exact Hex |]. split.
    + intros -> k v Hk. destruct (at_cashier v) eqn:E; [| reflexivity].
      specialize (Hin k v Hk E). discriminate Hin.
    + intros Hnone. destruct o as [w |]; [| reflexivity].
      destruct (Hex w eq_refl) as (k & v & Hk & Hv & _).
      rewrite (Hnone k v Hk) in Hv. discriminate Hv.
  - intros l1 w l2 w' l3 Hc. rewrite Hc in Ho.
    rewrite cashier_log_app in Ho.
    destruct (cashier_log None l1) as [[u |] |]; cbn in Ho; try discriminate Ho.
    rewrite cashier_log_app in Ho.
    destruct (cashier_log (Some w) l2) as [[u |] |] eqn:E2; cbn in Ho; try discriminate Ho.
    apply cashier_log_open. exact E2.
  - intros l1 w l2 Hc. rewrite Hc in Ho.
    rewrite cashier_log_app in Ho.
    destruct (cashier_log None l1) as [[u |] |] eqn:E1; cbn in Ho; try discriminate Ho.
    destruct (u =? w) eqn:E; [| discriminate Ho]. apply Z.eqb_eq in E. subst u.
    destruct (cashier_log_started _ _ _ E1) as [H | H]; [discriminate H | exact H].
Qed.

Lemma payments_do_not_overlap_witness :
  reachable main one_paying /\
  cashier_log None (console (globals one_paying)) = Some (Some 1).
Proof.
  split; [exact reachable_one_paying |].
  destruct (proj1 (payments_do_not_overlap 3 10 one_paying reachable_one_paying))
    as (o & Ho & Hin & _).
  rewrite Ho. f_equal. exact (Hin 0%nat _ eq_refl eq_refl).
Defined.

(** ** Status lines *)

Lemma Vehicle_run_prints v g v' g' :
  Vehicle_run v g = Some (v', g') ->
  console g' = console g \/
  exists e, console g' = console g ++ [e] /\ is_status e = false.
Proof.
  intros H. vehicle_step H; auto; right; eexists; split; reflexivity.
Qed.

Lemma status_inv_reachable n max s :
  reachable (station n max) s ->
  (count is_status (console (globals s)) + status_pending (manager s)
   = length (threads s))%nat /\
  (forall b l, In (EStatus b l) (console (globals s)) -> length l = n) /\
  (forall b l, mgr_at (manager s) = MShow b l -> length l = n).
Proof.
  induction 1 as [| a s s' Hs IH Hstep].
  - split; [reflexivity |]. split; [intros b l [] | intros b l H; discriminate H].
  - destruct IH as (Hc & Hl & Hshow).
    destruct (registry_inv_reachable n max s Hs) as (_ & Hlen & _).
    apply step_inv in Hstep as [[_ Hm] | [(k & v & v' & g' & _ & Hk & Hr & ->) | [_ ->]]].
    + destruct s as [g m]. unfold threads, status_pending in *. cbn in *.
      manager_step Hm; cbn in *; manager_at; cbn;
        rewrite ?count_app, ?length_app; cbn;
        (split; [unfold Nat.b2n; lia |]);
        (split; [| intros; try discriminate; simplify_eq; eauto]);
        intros b l Hin; try (apply in_app_or in Hin as [Hin | [Hin | []]]);
        try discriminate Hin; eauto.
      injection Hin as <- <-. eauto.
    + unfold threads, status_pending in *.
      cbn [globals manager set_threads vehicle_threads mgr_at].
      rewrite length_insert.
      destruct (Vehicle_run_prints _ _ _ _ Hr) as [-> | (e & -> & He)];
        [split; [exact Hc |]; split; assumption |].
      rewrite count_app. cbn. rewrite He.
      split; [unfold Nat.b2n; lia |]. split; [| exact Hshow].
      intros b l Hin. apply in_app_or in Hin as [Hin | [Hin | []]]; [eauto |].
      subst e. discriminate He.
    + split; [exact Hc |]. split; assumption.
Qed.

(** X13.  [display_status] (lines 137-141, called on line 126) prints one
    status line for each vehicle spawned, after it was spawned: the
    console never holds more status lines than there are vehicle threads,
    and exactly as many once the supervisor is past line 126 of the
    iteration, in particular when the run has ended.  Every status line
    lists [NUM_PUMPS] registry entries. *)
Theorem one_status_line_per_vehicle n max s :
  reachable (station n max) s ->
  (count is_status (console (globals s)) <= length (threads s)
   <= count is_status (console (globals s)) + 1)%nat /\
  (status_pending (manager s) = 0%nat ->
   count is_status (console (globals s)) = length (threads s)) /\
  (is_alive (manager s) = false ->
   count is_status (console (globals s)) = length (threads s)) /\
  (forall b l, In (EStatus b l) (console (globals s)) -> length l = n).
Proof.
  intros Hr. destruct (status_inv_reachable n max s Hr) as (Hc & Hl & _).
  assert (Hp : (status_pending (manager s) <= 1)%nat)
    by (unfold status_pending; destruct (mgr_at (manager s)); lia).
  split; [lia |]. split; [lia |]. split; [| exact Hl].
  intros Halive. unfold is_alive, status_pending in *.
  destruct (mgr_at (manager s)); try discriminate Halive. lia.
Qed.

Lemma one_status_line_per_vehicle_witness :
  reachable main two_fueling /\
  status_pending (manager two_fueling) = 0%nat /\
  count is_status (console (globals two_fueling)) = 2%nat.
Proof.
  split; [exact reachable_two_fueling |]. split; [reflexivity |].
  exact (proj1 (proj2 (one_status_line_per_vehicle 3 10 two_fueling reachable_two_fueling))
           eq_refl).
Defined.

(** ** Some thread can always move *)

Lemma Vehicle_can_run v g :
  terminated v = false ->
  (veh_locked v = false -> PRINT_LOCK g = false) ->
  (veh_at v = VAcquire -> PUMPS_SEMAPHORE g <> 0%nat) ->
  (veh_at v = VPayLock -> CASHIER_LOCK g = false) ->
  exists r, Vehicle_run v g = Some r.
Proof.
  unfold Vehicle_run, Vehicle_safe_print, enter_PRINT_LOCK, leave_PRINT_LOCK.
  destruct v as [id ps pc locked i p]; cbn. intros Ht Hp Hs Hc.
  destruct pc; try discriminate Ht; destruct locked;
    rewrite ?(Hp eq_refl), ?(Hc eq_refl); eauto;
    repeat case_match; eauto; exfalso; exact (Hs eq_refl eq_refl).
Qed.

Lemma holds_pump_slot_can_run v g :
  holds_pump_slot v = true -> PRINT_LOCK g = false ->
  exists r, Vehicle_run v g = Some r.
Proof.
  intros Hh Hp. apply Vehicle_can_run; auto;
    destruct v as [? ? [] ? ? ?]; cbn in *; congruence.
Qed.

Lemma Paying_can_run v g :
  Paying v = true -> PRINT_LOCK g = false ->
  exists r, Vehicle_run v g = Some r.
Proof.
  intros Hh Hp. apply Vehicle_can_run; auto;
    destruct v as [? ? [] ? ? ?]; cbn in *; congruence.
Qed.

Lemma Actor_can_step s k v r :
  threads s !! k = Some v -> Vehicle_run v (globals s) = Some r ->
  exists s', step (Actor k) s = Some s'.
Proof.
  intros Hk Hr. unfold step, threads in *. rewrite Hk, Hr. destruct r. eauto.
Qed.

Lemma prints_at_alive v : prints_at (veh_at v) = true -> terminated v = false.
Proof. destruct v as [? ? [] ? ? ?]; cbn; congruence. Qed.

Lemma thread_can_move n max s :
  (1 <= n)%nat ->
  reachable (station n max) s ->
  is_alive (manager s) = true ->
  exists a s', a <> StopRequest /\ step a s = Some s'.
Proof.
  intros Hn Hr Halive.
  destruct (print_lock_inv_reachable n max s Hr) as [Hpl _].
  destruct (lock_points_inv_reachable n max s Hr) as [Hlv Hlm].
  pose proof (semaphore_eq_reachable n max s Hr) as Hsem.
  destruct (cashier_inv_reachable n max s Hr) as [Hcash _].
  assert (Hactor : forall k v r,
             threads s !! k = Some v -> Vehicle_run v (globals s) = Some r ->
             exists a s', a <> StopRequest /\ step a s = Some s').
  { intros k v r Hk Hrun. destruct (Actor_can_step s k v r Hk Hrun) as [s' Hs'].
    exists (Actor k), s'. split; [discriminate | exact Hs']. }
  destruct (mgr_locked (manager s)) eqn:Eml.
  { (* the supervisor is printing *)
    specialize (Hlm eq_refl). exists Supervisor.
    destruct s as [g m]. cbn in *.
    unfold StationManager_run, StationManager_safe_print. cbn. rewrite Eml.
    destruct (mgr_at m); try discriminate Hlm; eexists; (split; [discriminate | reflexivity]). }
  destruct (PRINT_LOCK (globals s)) eqn:Epl.
  { (* a vehicle holds the lock *)
    assert (Hpos : (0 < count veh_locked (threads s))%nat) by (unfold Nat.b2n in Hpl; lia).
    destruct (count_exists veh_locked _ Hpos) as (k & v & Hk & Hl).
    destruct (Hlv k v Hk Hl) as [Hp _].
    destruct (Vehicle_can_run v (globals s)) as [r Hrun];
      try (intros E; rewrite E in Hp; discriminate Hp).
    - apply prints_at_alive. exact Hp.
    - intros E. congruence.
    - eauto. }
  (* [PRINT_LOCK] is free *)
  destruct (StationManager_run s) as [s' |] eqn:Em.
  { exists Supervisor, s'. split; [discriminate | exact Em]. }
  assert (Hjoin : exists k t, mgr_at (manager s) = MJoin k /\
                              threads s !! k = Some t /\ terminated t = false).
  { destruct s as [g m]. unfold threads, is_alive in *. cbn in *.
    unfold StationManager_run, StationManager_safe_print in Em. cbn in Em.
    rewrite Eml, Epl in Em.
    destruct (mgr_at m) as [| | | | | | b l | | k | |];
      try discriminate Em; try discriminate Halive;
      try (destruct ((VEHICLE_COUNT g <? max_vehicles m) && running m); discriminate Em).
    destruct (vehicle_threads m !! k) as [t |] eqn:Et; [| discriminate Em].
    destruct (terminated t) eqn:Ett; [discriminate Em |]. eauto. }
  destruct Hjoin as (k & t & _ & Hk & Hterm).
  destruct (veh_at t) eqn:Eat;
    try (destruct (Vehicle_can_run t (globals s)) as [r Hrun];
         [exact Hterm | auto | intros E; congruence | intros E; congruence |];
         exact (Hactor k t r Hk Hrun)).
  - (* waiting at [acquire()] *)
    destruct (PUMPS_SEMAPHORE (globals s)) eqn:Es.
    + assert (Hpos : (0 < count holds_pump_slot (threads s))%nat) by lia.
      destruct (count_exists holds_pump_slot _ Hpos) as (j & u & Hj & Hu).
      destruct (holds_pump_slot_can_run u (globals s) Hu Epl) as [r Hrun]. eauto.
    + destruct (Vehicle_can_run t (globals s)) as [r Hrun];
        [exact Hterm | auto | intros _; lia | intros E; congruence |]. eauto.
  - (* waiting for the cashier *)
    destruct (CASHIER_LOCK (globals s)) eqn:Ec.
    + assert (Hpos : (0 < count Paying (threads s))%nat)
        by (rewrite Hcash; unfold Nat.b2n; lia).
      destruct (count_exists Paying _ Hpos) as (j & u & Hj & Hu).
      destruct (Paying_can_run u (globals s) Hu Epl) as [r Hrun]. eauto.
    + destruct (Vehicle_can_run t (globals s)) as [r Hrun];
        [exact Hterm | auto | intros E; congruence | auto |]. eauto.
Qed.




(** ** Every run ends *)

Lemma total_app {A} (f : A -> nat) l1 l2 :
  total f (l1 ++ l2) = (total f l1 + total f l2)%nat.
Proof. induction l1 as [| a l1 IH]; cbn; [reflexivity | rewrite IH; lia]. Qed.

Lemma total_insert {A} (f : A -> nat) (l : list A) k x y :
  l !! k = Some x ->
  (total f (<[k := y]> l) + f x = total f l + f y)%nat.
Proof.
  revert k. induction l as [| a l IH]; intros [| k] H; simpl in *;
    try discriminate.
  - injection H as ->. lia.
  - specialize (IH k H). lia.
Qed.

Lemma Vehicle_run_fuel n v g v' g' :
  NUM_PUMPS g = n -> Vehicle_run v g = Some (v', g') ->
  (vehicle_fuel n v' < vehicle_fuel n v)%nat.
Proof.
  intros HN H. subst n. vehicle_step H; unfold vehicle_fuel; cbn; lia.
Qed.

#[local] Arguments iteration_cost : simpl never.

Lemma StationManager_run_fuel n max s s' :
  spawn_inv max s -> StationManager_run s = Some s' ->
  (fuel n s' < fuel n s)%nat.
Proof.
  intros (Hmax & H0 & Hpc & _) Hm.
  destruct s as [g m]. unfold fuel, manager_fuel, threads in *. cbn in *.
  manager_step Hm; cbn in *; manager_at; cbn;
    rewrite ?total_app, ?length_app; cbn;
    try (destruct (mgr_locked m)); try lia;
    try match goal with
        | H : _ !! _ = Some _ |- _ => apply lookup_lt_Some in H; lia
        end;
    try (replace (Z.to_nat (max_vehicles m - VEHICLE_COUNT g))
           with (S (Z.to_nat (max_vehicles m - (VEHICLE_COUNT g + 1)))) by lia; lia);
    try (unfold iteration_cost; lia);
    try (generalize (Z.to_nat (max_vehicles m - VEHICLE_COUNT g) * iteration_cost n)%nat;
         intros; lia).
Qed.

Lemma step_fuel n max a s s' :
  reachable (station n max) s -> step a s = Some s' ->
  (fuel n s' + Nat.b2n (is_move a) <= fuel n s)%nat.
Proof.
  intros Hr Hstep.
  destruct (pump_inv_reachable n max s Hr) as [HN _].
  pose proof (spawn_inv_reachable n max s Hr) as Hsp.
  apply step_inv in Hstep as [[-> Hm] | [(k & v & v' & g' & -> & Hk & Hv & ->) | [-> ->]]].
  - pose proof (StationManager_run_fuel n max s s' Hsp Hm). cbn. unfold Nat.b2n. lia.
  - pose proof (Vehicle_run_fuel n v _ v' g' HN Hv) as Hlt.
    pose proof (Vehicle_run_id _ _ _ _ Hv) as (_ & _ & Ec).
    pose proof (total_insert (vehicle_fuel n) (threads s) k v v' Hk) as Ht.
    unfold fuel, manager_fuel, threads in *. cbn. rewrite length_insert, Ec.
    unfold Nat.b2n. lia.
  - cbn. unfold fuel, manager_fuel, threads. cbn. unfold Nat.b2n. lia.
Qed.

Lemma exec_fuel n max schedule : forall s s',
  reachable (station n max) s -> exec schedule s = Some s' ->
  (fuel n s' + count is_move schedule <= fuel n s)%nat.
Proof.
  induction schedule as [| a rest IH]; intros s s' Hr H; cbn in H.
  - injection H as <-. cbn. lia.
  - destruct (step a s) as [s1 |] eqn:E; [| discriminate].
    pose proof (step_fuel n max a s s1 Hr E) as H1.
    pose proof (IH s1 s' (reachable_step _ _ _ _ Hr E) H) as H2.
    cbn [count]. lia.
Qed.

(** X15.  Every run is finite.  Whatever the schedule, the threads of a
    run with [n] pumps and ceiling [max_vehicles] take at most
    [max_vehicles * (36 + 2 n) + 8] steps altogether (calls of [stop()]
    not counted): each step of the supervisor or of a vehicle uses up one
    unit of [fuel], and nothing gives any back.  No loop of the program
    spins: the scan of lines 71-76 looks at each entry once, the loop of
    line 117 runs at most [max_vehicles] times, [join()] is called once
    for each thread. *)
Theorem run_length_bounded n max schedule s :
  exec schedule (station n max) = Some s ->
  (count is_move schedule + fuel n s <= Z.to_nat max * (36 + 2 * n) + 8)%nat /\
  (forall a s', step a s = Some s' -> is_move a = true -> (fuel n s' < fuel n s)%nat) /\
  (forall s', step StopRequest s = Some s' -> fuel n s' = fuel n s).
Proof.
  intros H.
  assert (Hr : reachable (station n max) s)
    by (eapply exec_reachable; [constructor | exact H]).
  split; [| split].
  - pose proof (exec_fuel n max schedule _ _ (reachable_start _) H) as Hf.
    assert (E0 : fuel n (station n max) = (Z.to_nat max * (36 + 2 * n) + 8)%nat).
    { unfold fuel, manager_fuel, iteration_cost. cbn. rewrite Z.sub_0_r. lia. }
    lia.
  - intros a s' Hstep Hmove. pose proof (step_fuel n max a s s' Hr Hstep) as Hf.
    rewrite Hmove in Hf. unfold Nat.b2n in Hf. lia.
  - intros s' Hstep. injection Hstep as <-. reflexivity.
Qed.

Lemma run_length_bounded_witness :
  exec single_run (station 3 1) = Some finished /\
  (count is_move single_run + fuel 3 finished <= 50)%nat.
Proof.
  split; [reflexivity |].
  exact (proj1 (run_length_bounded 3 1 single_run finished eq_refl)).
Defined.

Lemma forallb_app_true {A} (f : A -> bool) l1 l2 :
  forallb f l1 = true -> forallb f l2 = true -> forallb f (l1 ++ l2) = true.
Proof. intros H1 H2. rewrite forallb_app, H1, H2. reflexivity. Qed.

Lemma run_completes n max : (1 <= n)%nat -> forall fuel0 s,
  reachable (station n max) s -> (fuel n s <= fuel0)%nat ->
  exists schedule s',
    exec schedule s = Some s' /\ is_alive (manager s') = false /\
    forallb is_move schedule = true /\ (length schedule <= fuel n s)%nat.
Proof.
  intros Hn. induction fuel0 as [| f IH]; intros s Hr Hf.
  - destruct (is_alive (manager s)) eqn:Ea.
    + destruct (thread_can_move n max s Hn Hr Ea) as (a & s' & Ha & Hstep).
      pose proof (step_fuel n max a s s' Hr Hstep) as H1.
      destruct a; try contradiction; cbn in H1; unfold Nat.b2n in H1; lia.
    + exists [], s. cbn. repeat split; auto. lia.
  - destruct (is_alive (manager s)) eqn:Ea.
    + destruct (thread_can_move n max s Hn Hr Ea) as (a & s1 & Ha & Hstep).
      pose proof (step_fuel n max a s s1 Hr Hstep) as H1.
      assert (Hmove : is_move a = true) by (destruct a; try contradiction; reflexivity).
      rewrite Hmove in H1. unfold Nat.b2n in H1.
      destruct (IH s1 (reachable_step _ _ _ _ Hr Hstep)) as (rest & s' & He & Hd & Hm & Hl);
        [lia |].
      exists (a :: rest), s'. cbn. rewrite Hstep, Hmove.
      split; [exact He |]. split; [exact Hd |]. split; [exact Hm | lia].
    + exists [], s. cbn. repeat split; auto. lia.
Qed.



(** ** The registry *)

(** X17.  Every entry of [pump_status] is one of the three lines the
    program writes (lines 16, 74, 89), always for its own position: entry
    [i] reads [D{i+1}: Wolny], or it names the one vehicle that was given
    pump [i + 1], as taken while that vehicle is between its claim and
    line 89, as released afterwards; and the list keeps its [NUM_PUMPS]
    entries. *)
Theorem registry_entries_well_formed n max s (i : nat) e :
  reachable (station n max) s ->
  pump_status (globals s) !! i = Some e ->
  (i < n)%nat /\
  (e = status_free (Z.of_nat i + 1) \/
   exists k v,
     threads s !! k = Some v /\ veh_pump_id v = Z.of_nat i + 1 /\
     1 <= veh_id v <= Z.of_nat (length (threads s)) /\
     (e = status_taken (Z.of_nat i + 1) (veh_id v) /\ holds_pump_slot v = true \/
      e = status_released (Z.of_nat i + 1) (veh_id v) /\ Fueling v = false \/
      e = status_released (Z.of_nat i + 1) (veh_id v) /\ veh_at v = VReleaseOk)).
Proof.
  intros Hr Hi.
  destruct (registry_inv_reachable n max s Hr) as (_ & Hlen & _ & Hok & _ & Hsh).
  destruct (ids_inv_reachable n max s Hr) as [Hid _].
  split; [apply lookup_lt_Some in Hi; lia |].
  destruct (Hsh i e Hi) as [He | (k & v & Hk & Hp)]; [left; exact He |].
  right. exists k, v. split; [exact Hk |]. split; [exact Hp |].
  split; [rewrite (Hid k v Hk); apply lookup_lt_Some in Hk; lia |].
  pose proof (Hok k v Hk) as Hv.
  destruct (vehicle_ok_claimed n _ v Hv) as [Ho | Hf]; [lia | |].
  - left. split; [| exact (owns_holds_pump_slot n _ v Hv Ho)].
    destruct Ho as (j & Hj & Hs). assert (j = i) by lia. subst j. congruence.
  - assert (Ee : e = status_released (Z.of_nat i + 1) (veh_id v)).
    { destruct Hf as (j & Hj & Hs). assert (j = i) by lia. subst j. congruence. }
    destruct (veh_at v) eqn:Eat; try (right; right; split; [exact Ee | reflexivity]);
      try (right; left; split; [exact Ee | unfold Fueling; rewrite Eat; reflexivity]);
      exfalso; destruct Hv as [_ Hv]; rewrite Eat in Hv; cbv iota beta in Hv;
      repeat match goal with
             | H : _ /\ _ |- _ => destruct H
             | H : _ \/ _ |- _ => destruct H
             end;
      try lia; try contradiction;
      match goal with
      | H : owns _ v |- _ =>
          destruct H as (j & Hj & Hs); destruct Hf as (j' & Hj' & Hs');
          assert (j' = j) by lia; subst j';
          apply (status_taken_not_released (Z.of_nat j + 1) (veh_id v)
                   (Z.of_nat j + 1) (veh_id v));
          congruence
      end.
Qed.

Lemma registry_entries_well_formed_witness :
  reachable main fourth_scanned /\
  (0 < 3)%nat /\
  pump_status (globals fourth_scanned) !! 0%nat = Some (status_released 1 1).
Proof.
  split; [exact reachable_fourth_scanned |].
  split; [| reflexivity].
  exact (proj1 (registry_entries_well_formed 3 10 fourth_scanned 0 _
                  reachable_fourth_scanned eq_refl)).
Defined.

(** ** The lines of the supervisor *)






(** ** Stopping a run from the window *)

(** X19.  A run started from the window can always be stopped
    ([stop_simulation] of [gui.py], lines 151-156: [mgr.stop()], then
    [mgr.join()]).  Since [start_simulation] starts no run with fewer than
    one pump, after the stop request the threads can always go on until
    the supervisor has returned, so [join()] returns; on the way at most
    one more vehicle is spawned, every vehicle thread returns, and the
    window can then start a new run. *)
Theorem stop_button_ends_the_run pumps_var max_var s0 s :
  start_simulation pumps_var max_var None = Some s0 ->
  reachable s0 s ->
  exists schedule s',
    exec schedule (stop s) = Some s' /\
    forallb is_move schedule = true /\
    is_alive (manager s') = false /\
    (length (threads s) <= length (threads s') <= length (threads s) + 1)%nat /\
    (forall k v, threads s' !! k = Some v -> veh_at v = VReturned) /\
    exists again,
      start_again pumps_var max_var s' = Some again /\
      mgr_at (manager again) = MBegin /\
      PUMPS_SEMAPHORE (globals again) = NUM_PUMPS (globals again) /\
      CASHIER_LOCK (globals again) = false /\
      PRINT_LOCK (globals again) = false.
Proof.
  intros Hstart Hr. injection Hstart as <-.
  set (n := Z.to_nat (Z.max 1 pumps_var)) in *.
  set (max := Z.max 1 max_var) in *.
  assert (Hn : (1 <= n)%nat) by (unfold n; lia).
  assert (Hrs : reachable (station n max) (stop s))
    by (apply (reachable_step _ StopRequest s); [exact Hr | reflexivity]).
  destruct (run_completes n max Hn (fuel n (stop s)) (stop s) Hrs (Nat.le_refl _))
    as (schedule & s' & He & Hd & Hm & _).
  exists schedule, s'. split; [exact He |]. split; [exact Hm |]. split; [exact Hd |].
  assert (Hr' : reachable (station n max) s') by (eapply exec_reachable; eauto).
  assert (Hat : mgr_at (manager s') = MReturned).
  { unfold is_alive in Hd. destruct (mgr_at (manager s')); congruence. }
  split.
  { destruct (exec_after_stop schedule (stop s) s' eq_refl He) as [_ Hlen].
    pose proof (exec_threads_length schedule (stop s) s' He) as Hge.
    change (threads (stop s)) with (threads s) in *.
    assert (Hp : (spawn_pending (manager (stop s)) <= 1)%nat)
      by (unfold spawn_pending; destruct (mgr_at (manager (stop s))); lia).
    lia. }
  split; [exact (all_returned n max s' Hr' (or_intror Hat)) |].
  destruct (quiet_at_return n max s' Hr' Hat) as (_ & Hl & _ & Hp).
  unfold start_again. rewrite Hd. eexists. split; [reflexivity |].
  cbn. auto.
Qed.

Lemma stop_button_ends_the_run_witness :
  start_simulation 3 10 None = Some main /\ reachable main two_fueling /\
  exists schedule s',
    exec schedule (stop two_fueling) = Some s' /\ is_alive (manager s') = false.
Proof.
  split; [reflexivity |]. split; [exact reachable_two_fueling |].
  destruct (stop_button_ends_the_run 3 10 main two_fueling eq_refl reachable_two_fueling)
    as (schedule & s' & He & _ & Hd & _).
  exists schedule, s'. split; [exact He | exact Hd].
Defined.

(** ** Selecting the pump *)

(** X20.  Line 83, [next((p for p in self.pumps if p.id == pump_id),
    None)], over the pumps of line 151 ([gui.py] line 123): a [pump_id]
    between 1 and the number of pumps selects the pump with that id, any
    other value, the [-1] of line 70 among them, selects none, which is
    what sends a vehicle into the branch of line 96. *)
Theorem select_pump_by_id n p :
  select_pump (all_pumps n) p
  = if (1 <=? p) && (p <=? Z.of_nat n) then Some (mkPump p) else None.
Proof.
  destruct (select_pump (all_pumps n) p) as [q |] eqn:E.
  - destruct (select_pump_Some n p q E) as (Hq & i & Hi & Hp).
    replace ((1 <=? p) && (p <=? Z.of_nat n)) with true
      by (symmetry; apply andb_true_intro; split; apply Z.leb_le; lia).
    destruct q as [id]. cbn in Hq. subst id. reflexivity.
  - destruct ((1 <=? p) && (p <=? Z.of_nat n)) eqn:Er; [| reflexivity].
    apply andb_prop in Er as [H1 H2]. apply Z.leb_le in H1, H2.
    destruct (select_pump_in_range n (Z.to_nat (p - 1))) as [q Hq]; [lia |].
    replace (Z.of_nat (Z.to_nat (p - 1)) + 1) with p in Hq by lia. congruence.
Qed.

(** * The run together with the caller of [stop()] *)

Lemma world_step_inv a w w' :
  world_step a w = Some w' ->
  (a = StopRequest /\ caller_step w = Some w') \/
  (a <> StopRequest /\
   exists s', step a (simulation w) = Some s' /\
              w' = mkWorld s' (caller w)
                           (stdout w ++ (Printed <$> printed_by (simulation w) s'))).
Proof.
  destruct a as [| k |]; cbn [world_step]; intros H.
  - right. split; [discriminate |].
    destruct (step Supervisor (simulation w)) as [s' |]; [| discriminate].
    injection H as <-. eauto.
  - right. split; [discriminate |].
    destruct (step (Actor k) (simulation w)) as [s' |]; [| discriminate].
    injection H as <-. eauto.
  - left. auto.
Qed.

Lemma world_exec_reachable w0 schedule : forall w w',
  world_reachable w0 w -> world_exec schedule w = Some w' -> world_reachable w0 w'.
Proof.
  induction schedule as [| a rest IH]; intros w w' Hr H; cbn in H.
  - injection H as <-. exact Hr.
  - destruct (world_step a w) as [w1 |] eqn:E; [| discriminate].
    eapply IH; [| exact H]. eapply world_reachable_step; eauto.
Qed.

(** While the caller holds [PRINT_LOCK], a thread of the run that can
    move does what it would do with the lock free, and leaves the lock
    alone. *)
Lemma Vehicle_run_caller_holds v g v' g' :
  veh_locked v = false -> veh_at v <> VClaim -> PRINT_LOCK g = true ->
  Vehicle_run v g = Some (v', g') ->
  Vehicle_run v (set_print_lock false g) = Some (v', set_print_lock false g') /\
  PRINT_LOCK g' = true.
Proof.
  intros Hl Hat Hp H. revert Hl Hat.
  unfold Vehicle_run, Vehicle_safe_print, enter_PRINT_LOCK, leave_PRINT_LOCK in *.
  destruct v as [id ps pc locked i p]. cbn in *. intros -> Hat.
  destruct pc; try congruence; cbn in *; rewrite ?Hp in H; try discriminate H;
    repeat match type of H with
           | context [match ?x with _ => _ end] => destruct x eqn:?
           end;
    simplify_eq; cbn; auto.
Qed.

Lemma StationManager_run_caller_holds s s' :
  mgr_locked (manager s) = false -> PRINT_LOCK (globals s) = true ->
  StationManager_run s = Some s' ->
  StationManager_run (with_print_lock false s) = Some (with_print_lock false s') /\
  PRINT_LOCK (globals s') = true.
Proof.
  destruct s as [g m]. unfold StationManager_run, StationManager_safe_print, with_print_lock.
  cbn. intros Hl Hp H. rewrite Hl in *. rewrite ?Hp in H.
  destruct (mgr_at m); cbn in *; try discriminate H;
    repeat match type of H with
           | context [match ?x with _ => _ end] => destruct x eqn:?
           end;
    simplify_eq; cbn; auto.
Qed.

Lemma step_caller_holds a s s' :
  a <> StopRequest ->
  PRINT_LOCK (globals s) = true ->
  mgr_locked (manager s) = false ->
  (forall k v, threads s !! k = Some v -> veh_locked v = false /\ veh_at v <> VClaim) ->
  step a s = Some s' ->
  step a (with_print_lock false s) = Some (with_print_lock false s') /\
  PRINT_LOCK (globals s') = true.
Proof.
  intros Ha Hp Hm Hv Hstep.
  apply step_inv in Hstep as [[-> Hrun] | [(k & v & v' & g' & -> & Hk & Hr & ->) | [-> _]]].
  - exact (StationManager_run_caller_holds s s' Hm Hp Hrun).
  - destruct (Hv k v Hk) as [Hl Hat].
    destruct (Vehicle_run_caller_holds v _ v' g' Hl Hat Hp Hr) as [Hr' Hp'].
    split; [| exact Hp'].
    unfold step, threads in *. cbn. rewrite Hk, Hr'. reflexivity.
  - contradiction.
Qed.

Lemma step_console_grows a s s' :
  step a s = Some s' ->
  console (globals s') = console (globals s) ++ printed_by s s'.
Proof.
  intros Hstep. unfold printed_by.
  assert (H : exists l, console (globals s') = console (globals s) ++ l).
  { apply step_inv in Hstep as [[_ Hm] | [(k & v & v' & g' & _ & Hk & Hr & ->) | [_ ->]]].
    - destruct (StationManager_run_console s s' Hm) as [-> | (e & -> & _)];
        [exists []; rewrite app_nil_r; reflexivity | eauto].
    - cbn. destruct (Vehicle_run_prints _ _ _ _ Hr) as [-> | (e & -> & _)];
        [exists []; rewrite app_nil_r; reflexivity | eauto].
    - exists []. rewrite app_nil_r. reflexivity. }
  destruct H as [l ->]. rewrite drop_app_length. reflexivity.
Qed.

Lemma run_lines_app l1 l2 : run_lines (l1 ++ l2) = run_lines l1 ++ run_lines l2.
Proof. apply omap_app. Qed.

Lemma run_lines_Printed l : run_lines (Printed <$> l) = l.
Proof. induction l as [| e l IH]; cbn; [reflexivity | f_equal; exact IH]. Qed.

Lemma count_stop_Printed l : count is_stop_line (Printed <$> l) = 0%nat.
Proof. induction l as [| e l IH]; cbn; [reflexivity | exact IH]. Qed.

Lemma with_print_lock_idle s :
  PRINT_LOCK (globals s) = false ->
  with_print_lock false (with_print_lock true s) = s.
Proof.
  destruct s as [g m]. destruct g. unfold with_print_lock. cbn. intros ->. reflexivity.
Qed.

Lemma with_print_lock_free s :
  PRINT_LOCK (globals s) = false -> with_print_lock false s = s.
Proof.
  destruct s as [g m]. destruct g. unfold with_print_lock. cbn. intros ->. reflexivity.
Qed.

Lemma threads_unlocked n max s :
  reachable (station n max) s ->
  PRINT_LOCK (globals s) = false ->
  mgr_locked (manager s) = false /\
  forall k v, threads s !! k = Some v -> veh_locked v = false /\ veh_at v <> VClaim.
Proof.
  intros Hr Hp. destruct (print_lock_inv_reachable n max s Hr) as [Hc Hclaim].
  rewrite Hp in Hc. unfold Nat.b2n in Hc at 2.
  assert (Hz : count veh_locked (threads s) = 0%nat) by lia.
  split.
  - destruct (mgr_locked (manager s)); [unfold Nat.b2n in Hc; lia | reflexivity].
  - intros k v Hk. pose proof (count_zero veh_locked _ k v Hz Hk) as Hl.
    split; [exact Hl |]. intros Hat. rewrite (Hclaim k v Hk Hat) in Hl. discriminate Hl.
Qed.

(** Every state of the run with the caller is, the caller's hold on
    [PRINT_LOCK] and its line put aside, a state of the run alone. *)
Lemma world_simulated n max w :
  world_reachable (world n max) w ->
  reachable (station n max) (without_caller w) /\
  (caller_holds w = true -> PRINT_LOCK (globals (simulation w)) = true) /\
  run_lines (stdout w) = console (globals (simulation w)) /\
  count is_stop_line (stdout w) = Nat.b2n (announced (caller w)).
Proof.
  induction 1 as [| a w w' Hw IH Hstep].
  - split; [constructor |]. split; [intros H; discriminate H |]. split; reflexivity.
  - destruct IH as (Hr & Hheld & Hlines & Hcount).
    apply world_step_inv in Hstep as [[-> Hc] | (Ha & s' & Hs & ->)].
    + unfold caller_step in Hc. unfold without_caller, caller_holds in *.
      destruct (caller w) eqn:Ec.
      * destruct (PRINT_LOCK (globals (simulation w))) eqn:Ep; [discriminate Hc |].
        injection Hc as <-. cbn.
        rewrite (with_print_lock_idle _ Ep).
        split; [exact Hr |]. split; [reflexivity |]. split; assumption.
      * injection Hc as <-. cbn.
        split; [exact Hr |]. split; [intros H; discriminate H |].
        rewrite run_lines_app, count_app. cbn. rewrite app_nil_r.
        split; [exact Hlines | rewrite Hcount; reflexivity].
      * injection Hc as <-. cbn.
        split; [apply (reachable_step _ StopRequest _ _ Hr); reflexivity |].
        split; [intros H; discriminate H |]. split; assumption.
      * discriminate Hc.
    + pose proof (step_console_grows a _ s' Hs) as Hgrow.
      assert (Hout : run_lines (stdout w ++ (Printed <$> printed_by (simulation w) s'))
                     = console (globals s')).
      { rewrite run_lines_app, run_lines_Printed, Hlines, Hgrow. reflexivity. }
      assert (Hcnt : count is_stop_line
                       (stdout w ++ (Printed <$> printed_by (simulation w) s'))
                     = Nat.b2n (announced (caller w))).
      { rewrite count_app, count_stop_Printed, Hcount. lia. }
      unfold without_caller, caller_holds in *. cbn [simulation caller stdout].
      destruct (caller w) eqn:Ec;
        try (split; [exact (reachable_step _ a _ _ Hr Hs) |];
             split; [intros H; discriminate H |]; split; assumption).
      specialize (Hheld eq_refl).
      destruct (threads_unlocked n max _ Hr eq_refl) as [Hm Hv].
      destruct (step_caller_holds a (simulation w) s' Ha Hheld Hm Hv Hs) as [Hs' Hp'].
      split; [exact (reachable_step _ a _ _ Hr Hs') |].
      split; [intros _; exact Hp' |]. split; assumption.
Qed.

Lemma world_reachable_caller_printing : world_reachable (world 3 10) caller_printing.
Proof.
  apply (world_exec_reachable _ (repeat Supervisor 6 ++ [StopRequest]) (world 3 10));
    [constructor |].
  vm_compute. reflexivity.
Qed.

Lemma world_reachable_vehicle_printing : world_reachable (world 3 10) vehicle_printing.
Proof.
  apply (world_exec_reachable _ (repeat Supervisor 6 ++ [Actor 0]%nat) (world 3 10));
    [constructor |].
  vm_compute. reflexivity.
Qed.

Lemma world_reachable_stopped_after_the_end :
  world_reachable (world 3 1) stopped_after_the_end.
Proof.
  apply (world_exec_reachable _ (single_run ++ [StopRequest; StopRequest; StopRequest])
           (world 3 1)); [constructor |].
  vm_compute. reflexivity.
Qed.

Lemma print_lock_accounted n max w :
  world_reachable (world n max) w ->
  (count veh_locked (threads (simulation w))
   + Nat.b2n (mgr_locked (manager (simulation w)))
   + Nat.b2n (caller_holds w)
   = Nat.b2n (PRINT_LOCK (globals (simulation w))))%nat.
Proof.
  intros Hw. destruct (world_simulated n max w Hw) as (Hr & Hheld & _).
  destruct (print_lock_inv_reachable n max _ Hr) as [Hc _].
  unfold without_caller in *. destruct (caller_holds w).
  - rewrite (Hheld eq_refl). unfold with_print_lock, threads in *. cbn in Hc.
    unfold Nat.b2n in *. lia.
  - unfold Nat.b2n in *. lia.
Qed.

(** X1.  [PRINT_LOCK] (lines 13, 18-21, 72, 88) is held by one thread at
    a time, the caller of [stop()] counted in, who prints through
    [safe_print] before the call (line 162, [gui.py] lines 148 and 65):
    the lock bit is set exactly when a vehicle, the supervisor or the
    caller is inside one of its with blocks, and never two of them are.
    While a vehicle is inside neither the supervisor nor the caller is,
    and likewise for the other two; when the lock is free nobody is
    inside. *)
Theorem print_lock_one_holder n max w :
  world_reachable (world n max) w ->
  let s := simulation w in
  (count veh_locked (threads s) + Nat.b2n (mgr_locked (manager s))
   + Nat.b2n (caller_holds w)
   = Nat.b2n (PRINT_LOCK (globals s)))%nat /\
  (forall j k vj vk,
      threads s !! j = Some vj -> threads s !! k = Some vk ->
      veh_locked vj = true -> veh_locked vk = true -> j = k) /\
  (forall k v,
      threads s !! k = Some v -> veh_locked v = true ->
      mgr_locked (manager s) = false /\ caller_holds w = false) /\
  (mgr_locked (manager s) = true ->
   caller_holds w = false /\
   forall k v, threads s !! k = Some v -> veh_locked v = false) /\
  (caller_holds w = true ->
   mgr_locked (manager s) = false /\
   forall k v, threads s !! k = Some v -> veh_locked v = false) /\
  (PRINT_LOCK (globals s) = false ->
   mgr_locked (manager s) = false /\ caller_holds w = false /\
   forall k v, threads s !! k = Some v -> veh_locked v = false).
Proof.
  intros Hw s. pose proof (print_lock_accounted n max w Hw) as Hc. fold s in Hc.
  assert (Hzero : count veh_locked (threads s) = 0%nat ->
                  forall k v, threads s !! k = Some v -> veh_locked v = false).
  { intros Hz k v Hk. exact (count_zero veh_locked _ k v Hz Hk). }
  assert (Hpos : forall k v, threads s !! k = Some v -> veh_locked v = true ->
                             (0 < count veh_locked (threads s))%nat).
  { intros k v Hk Hl. exact (count_pos veh_locked _ k v Hk Hl). }
  split; [exact Hc |].
  destruct (PRINT_LOCK (globals s)) eqn:Ep, (mgr_locked (manager s)) eqn:Em,
           (caller_holds w) eqn:Eh; unfold Nat.b2n in Hc;
    try solve [exfalso; lia].
  all: split; [intros j k vj vk Hj Hk Hlj Hlk;
               apply (count_one_unique veh_locked (threads s) j k vj vk); auto; lia |].
  all: split; [intros k v Hk Hl; specialize (Hpos k v Hk Hl);
               try solve [exfalso; lia]; auto |].
  all: split; [intros Hm; first [discriminate Hm
                                | split; [reflexivity | apply Hzero; lia]] |].
  all: split; [intros Hh; first [discriminate Hh
                                | split; [reflexivity | apply Hzero; lia]] |].
  all: intros Hp; try discriminate Hp.
  all: split; [reflexivity |]; split; [reflexivity | apply Hzero; lia].
Qed.

Lemma print_lock_one_holder_witness :
  (world_reachable (world 3 10) caller_printing /\
   caller_holds caller_printing = true /\
   length (threads (simulation caller_printing)) = 1%nat /\
   forall k v, threads (simulation caller_printing) !! k = Some v -> veh_locked v = false) /\
  (world_reachable (world 3 10) vehicle_printing /\
   veh_locked <$> threads (simulation vehicle_printing) = [true] /\
   mgr_locked (manager (simulation vehicle_printing)) = false /\
   caller_holds vehicle_printing = false).
Proof.
  split.
  - split; [exact world_reachable_caller_printing |]. split; [reflexivity |].
    split; [reflexivity |].
    exact (proj2 (proj1 (proj2 (proj2 (proj2 (proj2
             (print_lock_one_holder 3 10 caller_printing
                world_reachable_caller_printing))))) eq_refl)).
  - split; [exact world_reachable_vehicle_printing |]. split; [reflexivity |].
    exact (proj1 (proj2 (proj2
             (print_lock_one_holder 3 10 vehicle_printing
                world_reachable_vehicle_printing))) 0%nat _ eq_refl eq_refl).
Defined.

(** ** After the last line *)

Lemma run_lines_last L : forall l e,
  run_lines L = l ++ [e] ->
  exists before after,
    L = before ++ Printed e :: after /\ run_lines before = l /\
    forall x, In x after -> x = StopAnnounced.
Proof.
  induction L as [| x L IH] using rev_ind; intros l e H.
  - destruct l; discriminate H.
  - rewrite run_lines_app in H. destruct x as [e0 |]; cbn in H.
    + apply app_inj_tail in H as [Hl <-].
      exists L, []. split; [reflexivity |]. split; [exact Hl | intros x []].
    + rewrite app_nil_r in H. destruct (IH l e H) as (before & after & -> & Hb & Ha).
      exists before, (after ++ [StopAnnounced]).
      split; [rewrite <- app_assoc; reflexivity |]. split; [exact Hb |].
      intros x Hx. apply in_app_or in Hx as [Hx | [<- | []]]; [auto | reflexivity].
Qed.

Lemma In_run_lines e L : In (Printed e) L -> In e (run_lines L).
Proof.
  induction L as [| x L IH]; [intros [] |].
  intros [-> | H]; cbn.
  - left. reflexivity.
  - destruct x; [right |]; exact (IH H).
Qed.

Lemma count_all_true {A} (P : A -> bool) (l : list A) :
  (forall x, In x l -> P x = true) -> count P l = length l.
Proof.
  induction l as [| a l IH]; intros H; [reflexivity |]. cbn.
  rewrite (H a (or_introl eq_refl)), IH; [reflexivity |].
  intros x Hx. apply H. right. exact Hx.
Qed.

Lemma caller_step_effect w w' :
  caller_step w = Some w' ->
  manager (simulation w') = manager (simulation w) \/
  manager (simulation w') = manager (stop (simulation w)).
Proof.
  unfold caller_step. destruct (caller w); intros H;
    try (destruct (PRINT_LOCK (globals (simulation w))); [discriminate H |]);
    simplify_eq; cbn; auto.
Qed.

Lemma quiet_world schedule : forall w w',
  mgr_at (manager (simulation w)) = MReturned ->
  (forall k v, threads (simulation w) !! k = Some v -> veh_at v = VReturned) ->
  world_exec schedule w = Some w' ->
  mgr_at (manager (simulation w')) = MReturned /\
  threads (simulation w') = threads (simulation w) /\
  same_resources (globals (simulation w)) (globals (simulation w')) /\
  console (globals (simulation w')) = console (globals (simulation w)) /\
  exists tail,
    stdout w' = stdout w ++ tail /\
    (tail = [] \/ tail = [StopAnnounced] /\ announced (caller w) = false).
Proof.
  induction schedule as [| a rest IH]; intros w w' Hat Hall H; cbn in H.
  - injection H as <-. unfold same_resources.
    split; [exact Hat |]. split; [reflexivity |]. split; [auto 10 |].
    split; [reflexivity |]. exists []. rewrite app_nil_r. auto.
  - destruct (world_step a w) as [w1 |] eqn:E; [| discriminate].
    apply world_step_inv in E as [[-> Hc] | (Ha & s' & Hs & ->)].
    + assert (H1 : mgr_at (manager (simulation w1)) = MReturned /\
                   threads (simulation w1) = threads (simulation w) /\
                   same_resources (globals (simulation w)) (globals (simulation w1)) /\
                   console (globals (simulation w1)) = console (globals (simulation w)) /\
                   (stdout w1 = stdout w /\
                    (announced (caller w1) = false -> announced (caller w) = false) \/
                    stdout w1 = stdout w ++ [StopAnnounced] /\
                    announced (caller w) = false /\ announced (caller w1) = true)).
      { unfold caller_step, same_resources in *. destruct (caller w);
          try (destruct (PRINT_LOCK (globals (simulation w))); [discriminate Hc |]);
          simplify_eq; cbn; auto 15. }
      destruct H1 as (Hat1 & Ht1 & Hres1 & Hc1 & Hout1).
      assert (Hall1 : forall k v, threads (simulation w1) !! k = Some v ->
                                  veh_at v = VReturned)
        by (rewrite Ht1; exact Hall).
      destruct (IH w1 w' Hat1 Hall1 H) as (Hat' & Ht' & Hres' & Hc' & tail & Htail & Hcase).
      split; [exact Hat' |]. split; [congruence |].
      split; [unfold same_resources in *; intuition congruence |].
      split; [congruence |].
      destruct Hout1 as [[Eo Hkeep] | (Eo & Hb & Ha1)]; rewrite Eo in Htail.
      * exists tail. split; [exact Htail |].
        destruct Hcase as [-> | [-> Hn]]; [left; reflexivity | right; auto].
      * destruct Hcase as [-> | [_ Hn]]; [| congruence].
        exists [StopAnnounced]. rewrite app_nil_r in Htail. auto.
    + exfalso.
      apply step_inv in Hs as [[_ Hm] | [(k & v & v' & g' & _ & Hk & Hr & _) | [-> _]]].
      * unfold StationManager_run in Hm. rewrite Hat in Hm. discriminate Hm.
      * unfold Vehicle_run in Hr. rewrite (Hall k v Hk) in Hr. discriminate Hr.
      * contradiction.
Qed.

(** X8.  The line of line 134 is the last line of the run.  Once the
    supervisor has returned no thread of the run can take a step; only
    the caller of [stop()] can still move, and it prints its own line
    (line 162, [gui.py] line 148) before the call.  So on the terminal
    the finished line occurs once, every line of the run stands before
    it, and what stands after it is at most the one line of the caller;
    whatever happens later leaves the threads, the resources and the
    lines of the run as they are. *)
Theorem finished_is_final n max w :
  world_reachable (world n max) w ->
  is_alive (manager (simulation w)) = false ->
  (forall a w', world_step a w = Some w' -> a = StopRequest) /\
  (exists before after,
     stdout w = before ++ Printed EFinished :: after /\
     ~ In (Printed EFinished) before /\
     (after = [] \/ after = [StopAnnounced])) /\
  (forall schedule w',
     world_exec schedule w = Some w' ->
     is_alive (manager (simulation w')) = false /\
     threads (simulation w') = threads (simulation w) /\
     same_resources (globals (simulation w)) (globals (simulation w')) /\
     run_lines (stdout w') = run_lines (stdout w) /\
     exists tail,
       stdout w' = stdout w ++ tail /\ (tail = [] \/ tail = [StopAnnounced])).
Proof.
  intros Hw Halive.
  assert (Hat : mgr_at (manager (simulation w)) = MReturned).
  { unfold is_alive in Halive. destruct (mgr_at (manager (simulation w))); congruence. }
  destruct (world_simulated n max w Hw) as (Hr & _ & Hlines & Hcount).
  assert (Hm : manager (without_caller w) = manager (simulation w))
    by (unfold without_caller; destruct (caller_holds w); reflexivity).
  assert (Hcon : console (globals (without_caller w)) = console (globals (simulation w)))
    by (unfold without_caller; destruct (caller_holds w); reflexivity).
  assert (Hat0 : mgr_at (manager (without_caller w)) = MReturned) by (rewrite Hm; exact Hat).
  assert (Hall : forall k v, threads (simulation w) !! k = Some v -> veh_at v = VReturned).
  { intros k v Hk. apply (all_returned n max _ Hr (or_intror Hat0) k v).
    unfold threads in *. rewrite Hm. exact Hk. }
  split; [| split].
  - intros a w' Hstep.
    apply world_step_inv in Hstep as [[-> _] | (Ha & s' & Hs & _)]; [reflexivity |].
    exfalso.
    apply step_inv in Hs as [[_ Hs] | [(k & v & v' & g' & _ & Hk & Hv & _) | [-> _]]].
    + unfold StationManager_run in Hs. rewrite Hat in Hs. discriminate Hs.
    + unfold Vehicle_run in Hv. rewrite (Hall k v Hk) in Hv. discriminate Hv.
    + contradiction.
  - destruct (finished_last n max _ Hr Hat0) as (l & Hl & Hnot).
    rewrite Hcon, <- Hlines in Hl.
    destruct (run_lines_last _ _ _ Hl) as (before & after & Hout & Hb & Ha).
    exists before, after. split; [exact Hout |]. split.
    + intros Hin. apply Hnot. rewrite <- Hb. apply In_run_lines. exact Hin.
    + assert (Hlen : (length after <= 1)%nat).
      { rewrite Hout in Hcount. rewrite count_app in Hcount. cbn in Hcount.
        rewrite (count_all_true is_stop_line after) in Hcount
          by (intros x Hx; rewrite (Ha x Hx); reflexivity).
        destruct (announced (caller w)); unfold Nat.b2n in Hcount; lia. }
      destruct after as [| x [| y after]]; [left; reflexivity | right | cbn in Hlen; lia].
      rewrite (Ha x (or_introl eq_refl)). reflexivity.
  - intros schedule w' He.
    destruct (quiet_world schedule w w' Hat Hall He)
      as (Hat' & Ht' & Hres' & Hc' & tail & Htail & Hcase).
    assert (Hw' : world_reachable (world n max) w')
      by (eapply world_exec_reachable; eauto).
    destruct (world_simulated n max w' Hw') as (_ & _ & Hlines' & _).
    split; [unfold is_alive; rewrite Hat'; reflexivity |].
    split; [exact Ht' |]. split; [exact Hres' |].
    split; [congruence |].
    exists tail. split; [exact Htail |]. destruct Hcase as [-> | [-> _]]; auto.
Qed.

Lemma finished_is_final_witness :
  world_reachable (world 3 1) stopped_after_the_end /\
  is_alive (manager (simulation stopped_after_the_end)) = false /\
  exists before after,
    stdout stopped_after_the_end = before ++ Printed EFinished :: after /\
    ~ In (Printed EFinished) before /\
    (after = [] \/ after = [StopAnnounced]).
Proof.
  split; [exact world_reachable_stopped_after_the_end |]. split; [reflexivity |].
  exact (proj1 (proj2 (finished_is_final 3 1 stopped_after_the_end
                         world_reachable_stopped_after_the_end eq_refl))).
Defined.
